(** * EMRP simulators: the formula pipelines and the session accumulator

    Shallow embedding of the two Streamlit programs of the repository:

    - [My IT Training/index.py] (pipeline A): [clamp], [calculate_MCI],
      [calculate_BVI], [calculate_HS], [generate_results] and the lookup
      of the custom row on the Home tab;
    - [app.py] (pipeline B): [calculate_mcr], [calculate_bvi],
      [calculate_gei], the text of [generate_pdf] and the "Run
      Simulation" handler that appends to
      [st.session_state.simulation_results].

    The Python code is written once, over an interface [PyFloat] of the
    operations it applies to numbers.  The interface has two instances:

    - [Exact.Q_PyFloat]: the rationals, i.e. the real-valued reading of the
      formulas (every literal of the programs is a decimal, so nothing
      leaves [Q]);
    - [Binary64.b64_PyFloat]: IEEE 754 binary64, the numbers CPython
      computes with, on the kernel's primitive floats and their
      specification [SpecFloat].

    The properties of the formulas that quantify over all inputs are
    proved in both: for all rationals, and for all floats, where the
    statement says which floats (the finite ones, as a rule: an infinity
    or a NaN among the inputs can come out as a NaN).  The programs are
    also evaluated on concrete inputs in both.

    Dictionaries are insertion-ordered association lists held in a store,
    so that the in-place updates of the loop of [generate_results] and
    the copy made by [**custom_input] are what the code does. *)

From Stdlib Require Import ZArith QArith Qabs Qround Qminmax Lqa Lia.
From Stdlib Require Import List String Bool Floats.
Import ListNotations.
Local Open Scope list_scope.

(** ** Exceptions

    The three exceptions the modelled code can raise: a missing dictionary
    key, an arithmetic operation applied to a string, and [float ** int]
    leaving the range of a float. *)

Inductive exn : Type :=
  | KeyError (key : string)
  | TypeError
  | OverflowError.

Inductive result (A : Type) : Type :=
  | Ok (a : A)
  | Raise (e : exn).

Arguments Ok {A} a.
Arguments Raise {A} e.

(** ** Python numbers *)

Class PyFloat (F : Type) : Type := {
  (** a numeric literal of the program text, given as the decimal it denotes *)
  lit : Q -> F;
  add : F -> F -> F;
  sub : F -> F -> F;
  mul : F -> F -> F;
  (** [x / y]; every divisor in the two programs is a non-zero literal *)
  div : F -> F -> F;
  (** the built-in [abs] *)
  py_abs : F -> F;
  (** [x < y] and [x <= y] *)
  ltb : F -> F -> bool;
  leb : F -> F -> bool;
  (** [x ** 2] *)
  pow_2 : F -> result F;
  (** the built-in [round(x, ndigits)] for [ndigits >= 0] *)
  py_round : F -> nat -> F
}.

Arguments lit {F _} q%_Q.

Declare Scope py_scope.
Delimit Scope py_scope with py.
Notation "x + y" := (add x y) : py_scope.
Notation "x - y" := (sub x y) : py_scope.
Notation "x * y" := (mul x y) : py_scope.
Notation "x / y" := (div x y) : py_scope.
Notation "x <? y" := (ltb x y) : py_scope.
Notation "x <=? y" := (leb x y) : py_scope.

(** *** The rounding of [round(x, ndigits)]

    [round] on a float returns the decimal with [ndigits] fractional digits
    nearest to its argument, ties going to the even last digit. *)

Definition round_half_even (q : Q) : Z :=
  let f := Qfloor q in
  match (q - inject_Z f ?= 1 # 2)%Q with
  | Lt => f
  | Gt => (f + 1)%Z
  | Eq => if Z.even f then f else (f + 1)%Z
  end.

Definition Qround_ndigits (q : Q) (ndigits : nat) : Q :=
  let scale := Nat.iter ndigits (Pos.mul 10) 1%positive in
  (round_half_even (q * inject_Z (Zpos scale)) # scale)%Q.

(** *** Exact arithmetic *)

Module Exact.

#[export] Instance Q_PyFloat : PyFloat Q := {
  lit q := q;
  add := Qplus;
  sub := Qminus;
  mul := Qmult;
  div := Qdiv;
  py_abs := Qabs;
  ltb := QMicromega.Qlt_bool;
  leb := Qle_bool;
  pow_2 x := Ok (x * x)%Q;
  py_round := Qround_ndigits
}.

End Exact.

(** *** IEEE 754 binary64 *)

Module Binary64.

(** The rational a finite float denotes. *)
Definition to_Q (x : float) : option Q :=
  match Prim2SF x with
  | S754_zero _ => Some 0%Q
  | S754_finite s m e =>
      let n := if s then Zneg m else Zpos m in
      Some (match e with
            | Z0 => inject_Z n
            | Zpos p => inject_Z (n * Z.pow_pos 2 p)
            | Zneg p => n # Pos.pow 2 p
            end)
  | S754_infinity _ | S754_nan => None
  end.

(** The float nearest to a rational, ties to even: how a decimal literal
    is read, and how the decimal [round] produces is turned back into a
    float. *)
Definition of_Q (q : Q) : float :=
  match Qnum q with
  | Z0 => PrimFloat.zero
  | Zpos n =>
      SF2Prim (SFdiv prec emax (S754_finite false n 0) (S754_finite false (Qden q) 0))
  | Zneg n =>
      SF2Prim (SFdiv prec emax (S754_finite true n 0) (S754_finite false (Qden q) 0))
  end.

(** [float.__pow__] raises [OverflowError] when the power of a finite
    float is out of range; the square is taken correctly rounded. *)
Definition b64_pow_2 (x : float) : result float :=
  let y := PrimFloat.mul x x in
  if PrimFloat.is_finite x && PrimFloat.is_infinity y
  then Raise OverflowError else Ok y.

(** [float.__round__]: infinities and NaN round to themselves; a value
    that rounds to zero keeps the sign of the argument. *)
Definition b64_round (x : float) (ndigits : nat) : float :=
  match to_Q x with
  | None => x
  | Some q =>
      let r := Qround_ndigits q ndigits in
      match Qnum r with
      | Z0 => PrimFloat.mul x PrimFloat.zero
      | _ => of_Q r
      end
  end.

#[export] Instance b64_PyFloat : PyFloat float := {
  lit := of_Q;
  add := PrimFloat.add;
  sub := PrimFloat.sub;
  mul := PrimFloat.mul;
  div := PrimFloat.div;
  py_abs := PrimFloat.abs;
  ltb := PrimFloat.ltb;
  leb := PrimFloat.leb;
  pow_2 := b64_pow_2;
  py_round := b64_round
}.

(** [0 <= x <= 1], as the float comparisons decide it. *)
Definition in_unit (x : float) : Prop :=
  PrimFloat.leb 0 x = true /\ PrimFloat.leb x 1 = true.

(** A score as binary64 has it: in [[0,1]], or NaN. *)
Definition nan_or_unit (x : float) : Prop :=
  PrimFloat.is_nan x = true \/ in_unit x.

(** The classes of floats the statements below speak of: the finite
    ones; the finite ones that are a zero or positive, and a zero or
    negative; what compares at most equal to zero, at least equal to
    zero, and below zero, the infinities included. *)
Definition SFfin (x : spec_float) : bool :=
  match x with S754_zero _ | S754_finite _ _ _ => true | _ => false end.

Definition SFnonneg (x : spec_float) : bool :=
  match x with S754_zero _ | S754_finite false _ _ => true | _ => false end.

Definition SFnonpos (x : spec_float) : bool :=
  match x with S754_zero _ | S754_finite true _ _ => true | _ => false end.

Definition SFle0 (x : spec_float) : bool :=
  match x with
  | S754_zero _ | S754_finite true _ _ | S754_infinity true => true
  | _ => false
  end.

Definition SFge0 (x : spec_float) : bool :=
  match x with
  | S754_zero _ | S754_finite false _ _ | S754_infinity false => true
  | _ => false
  end.

Definition SFneg (x : spec_float) : bool :=
  match x with
  | S754_finite true _ _ | S754_infinity true => true
  | _ => false
  end.

(** The result of a rounding that ends with mantissa [m1] at exponent
    [e1]: a zero, a finite float, renormalised when [m1] is [2 ^ 53], or
    an infinity when the exponent is out of range. *)
Definition pack (s : bool) (m1 e1 : Z) : spec_float :=
  if (m1 =? 0)%Z then S754_zero s
  else if (m1 =? 2 ^ 53)%Z then
    if (e1 + 1 <=? 971)%Z then S754_finite s (Z.to_pos (2 ^ 52)) (e1 + 1)
    else S754_infinity s
  else if (e1 <=? 971)%Z then S754_finite s (Z.to_pos m1) e1 else S754_infinity s.

(** [below s x mB eB]: [x] is a zero or a finite float of sign [s] whose
    magnitude is at most [mB * 2 ^ eB], on a grid at least as fine. *)
Definition below (s : bool) (x : spec_float) (mB eB : Z) : Prop :=
  x = S754_zero s \/
  exists (m : positive) (e : Z),
    x = S754_finite s m e /\ (e <= eB)%Z /\ (Zpos m <= mB * 2 ^ (eB - e))%Z.

(** [above s x mB eB]: [x] is an infinity or a finite float of sign [s]
    whose magnitude is at least that of the float [mB * 2 ^ eB]. *)
Definition above (s : bool) (x : spec_float) (mB : positive) (eB : Z) : Prop :=
  x = S754_infinity s \/
  exists (m : positive) (e : Z),
    x = S754_finite s m e /\ (eB < e \/ (e = eB /\ Zpos mB <= Zpos m))%Z.

(** What compares above zero: the positive finite floats and the
    positive infinity. *)
Definition SFpos (x : spec_float) : bool :=
  match x with
  | S754_finite false _ _ | S754_infinity false => true
  | _ => false
  end.

(** [at_most x mB eB]: [x] is a zero of either sign, or a positive
    finite float of magnitude at most [mB * 2 ^ eB] on a grid at least
    as fine. *)
Definition at_most (x : spec_float) (mB eB : Z) : Prop :=
  (exists s, x = S754_zero s) \/
  exists (m : positive) (e : Z),
    x = S754_finite false m e /\ (e <= eB)%Z /\ (Zpos m <= mB * 2 ^ (eB - e))%Z.

End Binary64.

(** ** [My IT Training/index.py]: pipeline A *)

Section Index.

Context {F : Type} `{PyFloat F}.
Local Open Scope py_scope.

Definition SCHUMANN_RESONANCE : F := lit 7.83.
Definition MAX_FREQ_TOLERANCE : F := lit 2.5.

(** The built-ins [min(a, b)] and [max(a, b)]: the second argument
    replaces the first only when it compares strictly below (above). *)
Definition py_min (a b : F) : F := if b <? a then b else a.
Definition py_max (a b : F) : F := if a <? b then b else a.

Definition clamp_between (value min_value max_value : F) : F :=
  py_max (py_min value max_value) min_value.

(** [clamp(value)] with the defaults [min_value=0.0], [max_value=1.0]. *)
Definition clamp (value : F) : F := clamp_between value (lit 0.0) (lit 1.0).

Definition calculate_MCI (freq emf : F) : F :=
  let diff := py_abs (freq - SCHUMANN_RESONANCE) in
  let score :=
    if diff <=? MAX_FREQ_TOLERANCE
    then lit 1 - (diff / MAX_FREQ_TOLERANCE)
    else lit 0 in
  clamp (score * (lit 1 - emf)).

Definition calculate_BVI (MCI : F) : result F :=
  match pow_2 MCI with
  | Ok sq => Ok (clamp sq)
  | Raise e => Raise e
  end.

Definition calculate_HS (MCI BVI env_factor : F) : F :=
  clamp (lit 0.5 * MCI + lit 0.4 * BVI + lit 0.1 * env_factor).

End Index.

(** An arithmetic in which squaring a clamped value never raises; both
    instances are shown to be of this kind below. *)
Class ClampedSquares (F : Type) `{PyFloat F} : Prop :=
  square_of_clamped : forall x : F, exists y : F, pow_2 (clamp x) = Ok y.

(** ** Dictionaries, objects and the store

    A Python [dict] keeps its keys in insertion order; an assignment to an
    existing key replaces the value in place.  Objects live in a store and
    are referred to by their address, so that two names for one dictionary
    see each other's updates. *)

Section Store.

Context {F : Type}.

Inductive value : Type :=
  | Str (s : string)
  | Num (x : F).

Definition dict : Type := list (string * value).

Fixpoint dict_get (d : dict) (key : string) : option value :=
  match d with
  | [] => None
  | (k, v) :: d' => if String.eqb k key then Some v else dict_get d' key
  end.

Fixpoint dict_set (d : dict) (key : string) (v : value) : dict :=
  match d with
  | [] => [(key, v)]
  | (k, w) :: d' =>
      if String.eqb k key then (k, v) :: d' else (k, w) :: dict_set d' key v
  end.

(** [d.update(other)], which is also what [**other] does inside a
    dictionary display. *)
Definition dict_update (d other : dict) : dict :=
  fold_left (fun acc kv => dict_set acc (fst kv) (snd kv)) other d.

(** A dictionary display [{k1: v1, ..., kn: vn}]. *)
Definition dict_display (items : list (string * value)) : dict :=
  dict_update [] items.

Definition as_num (v : value) : result F :=
  match v with
  | Num x => Ok x
  | Str _ => Raise TypeError
  end.

(** Computations that read and write a state [S] and may raise; the
    state survives an exception. *)
Definition State (S A : Type) : Type := S -> result A * S.

Definition ret {S A} (a : A) : State S A := fun s => (Ok a, s).

Definition raise {S A} (e : exn) : State S A := fun s => (Raise e, s).

Definition bind {S A B} (m : State S A) (k : A -> State S B) : State S B :=
  fun s =>
    match m s with
    | (Ok a, s') => k a s'
    | (Raise e, s') => (Raise e, s')
    end.

Definition lift {S A} (r : result A) : State S A := fun s => (r, s).

(** Operations on the dictionary a name is bound to: [env[key]] and
    [env[key] = v]. *)
Definition getitem (key : string) : State dict value :=
  fun env =>
    match dict_get env key with
    | Some v => (Ok v, env)
    | None => (Raise (KeyError key), env)
    end.

Definition setitem (key : string) (v : value) : State dict unit :=
  fun env => (Ok tt, dict_set env key v).

(** The store: the dictionaries allocated so far, by address. *)
Definition loc : Type := nat.
Definition heap : Type := list dict.

Fixpoint heap_set (h : heap) (l : loc) (d : dict) : heap :=
  match h, l with
  | [], _ => []
  | _ :: h', O => d :: h'
  | d0 :: h', S l' => d0 :: heap_set h' l' d
  end.

Definition new_dict (d : dict) : State heap loc :=
  fun h => (Ok (List.length h), h ++ [d]).

(** Reading an object as a mapping; an address that holds no dictionary
    is not a mapping. *)
Definition load (l : loc) : State heap dict :=
  fun h =>
    match nth_error h l with
    | Some d => (Ok d, h)
    | None => (Raise TypeError, h)
    end.

(** Running a computation on the dictionary stored at [l]. *)
Definition at_loc {A} (l : loc) (m : State dict A) : State heap A :=
  fun h =>
    match nth_error h l with
    | Some d => let (r, d') := m d in (r, heap_set h l d')
    | None => (Raise TypeError, h)
    end.

Fixpoint for_each (xs : list loc) (body : loc -> State heap unit) : State heap unit :=
  match xs with
  | [] => ret tt
  | x :: xs' => bind (body x) (fun _ => for_each xs' body)
  end.

(** [pd.DataFrame(records)] copies the rows out of a list of
    dictionaries; the table is modelled by its rows, in order. *)
Definition DataFrame : Type := list dict.

Fixpoint pd_DataFrame (records : list loc) : State heap DataFrame :=
  match records with
  | [] => ret []
  | x :: xs =>
      bind (load x) (fun row =>
      bind (pd_DataFrame xs) (fun rows => ret (row :: rows)))
  end.

End Store.

Arguments value F : clear implicits.
Arguments dict F : clear implicits.
Arguments heap F : clear implicits.
Arguments DataFrame F : clear implicits.

Notation "x <- m ;; k" := (bind m (fun x => k))
  (at level 61, m at next level, right associativity).
Notation "m ;;; k" := (bind m (fun _ => k))
  (at level 61, right associativity).

Section Results.

Context {F : Type} `{PyFloat F}.

(** The body of the loop of [generate_results], on the dictionary [env]. *)
Definition score_env : State (dict F) unit :=
  freq <- bind (getitem "Frequency") (fun v => lift (as_num v)) ;;
  emf <- bind (getitem "EMF") (fun v => lift (as_num v)) ;;
  setitem "MCI" (Num (calculate_MCI freq emf)) ;;;
  mci <- bind (getitem "MCI") (fun v => lift (as_num v)) ;;
  bvi <- lift (calculate_BVI mci) ;;
  setitem "BVI" (Num bvi) ;;;
  mci <- bind (getitem "MCI") (fun v => lift (as_num v)) ;;
  bvi <- bind (getitem "BVI") (fun v => lift (as_num v)) ;;
  env_factor <- bind (getitem "Env Factor") (fun v => lift (as_num v)) ;;
  setitem "HS" (Num (calculate_HS mci bvi env_factor)).

(** A dictionary display with the four keys of a preset. *)
Definition preset (name : string) (freq emf env_factor : F) : dict F :=
  dict_display
    [("Environment", Str name); ("Frequency", Num freq);
     ("EMF", Num emf); ("Env Factor", Num env_factor)]%string.

Definition generate_results (custom_input : loc) : State (heap F) (DataFrame F) :=
  e1 <- new_dict (preset "Earth" (lit 7.83) (lit 0.2) (lit 0.9)) ;;
  e2 <- new_dict (preset "Mars" (lit 2.1) (lit 0.05) (lit 0.3)) ;;
  e3 <- new_dict (preset "EMRP Bubble" (lit 7.8) (lit 0.01) (lit 1.0)) ;;
  e4 <- new_dict (preset "Urban Earth" (lit 6.9) (lit 0.6) (lit 0.7)) ;;
  custom <- load custom_input ;;
  e5 <- new_dict
          (dict_update (dict_display [("Environment", Str "Custom Input")]%string)
                       custom) ;;
  let presets := [e1; e2; e3; e4; e5] in
  for_each presets (fun env => at_loc env score_env) ;;;
  pd_DataFrame presets.

(** The five dictionaries the list display of [generate_results] builds,
    and the rest of the function run on them alone. *)
Definition initial_rows (custom : dict F) : heap F :=
  [preset "Earth" (lit 7.83) (lit 0.2) (lit 0.9); preset "Mars" (lit 2.1) (lit 0.05) (lit 0.3);
   preset "EMRP Bubble" (lit 7.8) (lit 0.01) (lit 1.0); preset "Urban Earth" (lit 6.9) (lit 0.6) (lit 0.7);
   dict_update (dict_display [("Environment", Str "Custom Input")]%string) custom].

Definition score_rows : State (heap F) (DataFrame F) :=
  let presets := [0; 1; 2; 3; 4]%nat in
  for_each presets (fun env => at_loc env score_env) ;;;
  pd_DataFrame presets.

(** A row of the table: the four keys of the display, then the three
    the loop adds, in that order. *)
Definition scored (name : string) (freq emf env_factor bvi : F) : dict F :=
  let mci := calculate_MCI freq emf in
  dict_display
    [("Environment", Str name); ("Frequency", Num freq);
     ("EMF", Num emf); ("Env Factor", Num env_factor);
     ("MCI", Num mci); ("BVI", Num bvi);
     ("HS", Num (calculate_HS mci bvi env_factor))]%string.

(** [row] holds the three formulas applied in order to its own
    frequency, noise and environment factor. *)
Definition is_scored (name : string) (freq emf env_factor : F) (row : dict F) : Prop :=
  exists bvi : F,
    calculate_BVI (calculate_MCI freq emf) = Ok bvi /\
    row = scored name freq emf env_factor bvi.

(** What the script passes (line 57): the three slider values. *)
Definition slider_input (freq emf env_factor : F) : dict F :=
  dict_display
    [("Frequency", Num freq); ("EMF", Num emf); ("Env Factor", Num env_factor)]%string.

End Results.

(** ** [app.py]: pipeline B *)

Section App.

Context {F : Type} `{PyFloat F}.
Local Open Scope py_scope.

Definition calculate_mcr (magnetic_field_strength : F) : F :=
  py_round (magnetic_field_strength / lit 100) 2.

Definition calculate_bvi (mcr atmospheric_pressure : F) : F :=
  py_round ((mcr * atmospheric_pressure) / lit 50000) 2.

Definition calculate_gei (solar_flux : F) : F :=
  py_round (lit 100 - (solar_flux / lit 10)) 2.

(** What the widgets return in one run of the script. *)
Record widgets : Type := {
  planet : string;
  magnetic_field : F;
  atmospheric_pressure : F;
  solar_flux : F;
  run_simulation : bool   (* st.button("Run Simulation") *)
}.

(** [st.session_state]: the key [simulation_results] is absent in a new
    session. *)
Record session_state : Type := {
  simulation_results : option (list (dict F))
}.

Definition new_session : session_state := {| simulation_results := None |}.

(** The record the handler appends (lines 89-97). *)
Definition simulation_record (w : widgets) : dict F :=
  let mcr := calculate_mcr (magnetic_field w) in
  let bvi := calculate_bvi mcr (atmospheric_pressure w) in
  let gei := calculate_gei (solar_flux w) in
  dict_display
    [("Planet", Str (planet w));
     ("Magnetic Field Strength (µT)", Num (magnetic_field w));
     ("Atmospheric Pressure (Pa)", Num (atmospheric_pressure w));
     ("Solar Flux (W/m²)", Num (solar_flux w));
     ("MCR", Num mcr); ("BVI", Num bvi); ("GEI", Num gei)]%string.

(** One run of the script, as far as the session state goes: the list is
    created when absent (lines 50-51) and the handler appends to it when
    the button was pressed (lines 78-97). *)
Definition script (w : widgets) (st : session_state) : session_state :=
  let results :=
    match simulation_results st with
    | None => []
    | Some rs => rs
    end in
  if run_simulation w
  then {| simulation_results := Some (results ++ [simulation_record w]) |}
  else {| simulation_results := Some results |}.

(** The runs of a session, one per interaction, in order. *)
Definition session (ws : list widgets) : session_state :=
  fold_left (fun st w => script w st) ws new_session.

(** The accumulated sequence the page shows (lines 118-121). *)
Definition accumulated (st : session_state) : list (dict F) :=
  match simulation_results st with
  | None => []
  | Some rs => rs
  end.

End App.

(** ** The formulas as the specification words them

    Written from the text of the specification, for comparison with the
    definitions above. *)

Module Spec.

Local Open Scope Q_scope.

(** "Total-order saturation" of [value] into [[lo, hi]]. *)
Definition saturate (value lo hi : Q) : Q := Qmax lo (Qmin hi value).

(** "If [diff <= 2.5], [score = 1 - diff/2.5]; else [score = 0]." *)
Definition score (freq : Q) : Q :=
  let diff := Qabs (freq - 7.83) in
  if Qlt_le_dec 2.5 diff then 0 else 1 - diff / 2.5.

(** "Return [clamp(score * (1 - emf))]." *)
Definition MCI (freq emf : Q) : Q := saturate (score freq * (1 - emf)) 0 1.

(** [r] is [x] rounded to two decimals: a whole number of hundredths, at
    most half a hundredth away from [x]. *)
Definition rounded_2 (x r : Q) : Prop :=
  (exists n : Z, r == n # 100) /\ Qabs (x - r) <= 1 # 200.

End Spec.

Arguments widgets F : clear implicits.
Arguments session_state F : clear implicits.

(** ** The scripts around the functions

    What the two pages do with the functions above: the lookup of the
    custom row on the Home tab of [index.py], and in [app.py] the test
    that shows the table of the session and the report of a run. *)

Section Home.

Context {F : Type} `{PyFloat F}.

(** [df[df[key] == s]]: the rows whose cell under [key] is the string
    [s], in order; a table without the column raises [KeyError]. *)
Definition has_column (df : DataFrame F) (key : string) : bool :=
  existsb (fun row => match dict_get row key with Some _ => true | None => false end) df.

Definition rows_equal (df : DataFrame F) (key s : string) : result (DataFrame F) :=
  if has_column df key
  then Ok (filter (fun row =>
                     match dict_get row key with
                     | Some (Str t) => String.eqb t s
                     | _ => false
                     end) df)
  else Raise (KeyError key).

(** [df.iloc[0]]; [None] stands for the [IndexError] of an empty table. *)
Definition iloc_0 (df : DataFrame F) : option (dict F) := hd_error df.

(** Line 59: [custom = df[df["Environment"] == "Custom Input"].iloc[0]]. *)
Definition select_custom (df : DataFrame F) : result (option (dict F)) :=
  match rows_equal df "Environment" "Custom Input" with
  | Ok rows => Ok (iloc_0 rows)
  | Raise e => Raise e
  end.

(** Lines 57-59 of the script: the dictionary of the three sliders is
    built, the table computed and the custom row looked up. *)
Definition home (freq emf env_factor : F) : State (heap F) (option (dict F)) :=
  custom_input <- new_dict (slider_input freq emf env_factor) ;;
  df <- generate_results custom_input ;;
  lift (select_custom df).

End Home.

Section Report.

Context {F : Type} `{PyFloat F}.

(** Line 118: the table of the session is shown when the list is not
    empty. *)
Definition shows_results (st : session_state F) : bool :=
  match accumulated st with
  | [] => false
  | _ :: _ => true
  end.

(** What an f-string puts in place of [{v}]: a string as it is, a number
    as [format] writes it. *)
Variable format : F -> string.

Definition py_format (v : value F) : string :=
  match v with
  | Str s => s
  | Num x => format x
  end.

(** [inputs[key]] on a dictionary that is only read. *)
Definition subscript (d : dict F) (key : string) : result (value F) :=
  match dict_get d key with
  | Some v => Ok v
  | None => Raise (KeyError key)
  end.

(** [textobject.textLine(line)]: the text object is the list of the
    lines written so far. *)
Definition textLine (line : string) : State (list string) unit :=
  fun text => (Ok tt, text ++ [line]).

(** [generate_pdf], as far as the text of the page goes: the text
    object starts empty, the lines are written in order, each one after
    its f-string has been evaluated, and the page that is drawn and
    returned in the buffer is that text. *)
Definition generate_pdf (mcr bvi gei : F) (planet : string) (inputs : dict F)
  : result (list string) :=
  let text : State (list string) unit :=
    textLine "Planet Magnetic Rhythm Simulation Report" ;;;
    textLine "-----------------------------------------" ;;;
    textLine ("Planet: " ++ planet) ;;;
    magnetic_field <- lift (subscript inputs "magnetic_field") ;;
    textLine ("Magnetic Field Strength (µT): " ++ py_format magnetic_field) ;;;
    atmospheric_pressure <- lift (subscript inputs "atmospheric_pressure") ;;
    textLine ("Atmospheric Pressure (Pa): " ++ py_format atmospheric_pressure) ;;;
    solar_flux <- lift (subscript inputs "solar_flux") ;;
    textLine ("Solar Flux (W/m²): " ++ py_format solar_flux) ;;;
    textLine "" ;;;
    textLine ("MCR: " ++ format mcr) ;;;
    textLine ("BVI: " ++ format bvi) ;;;
    textLine ("GEI: " ++ format gei) in
  match text [] with
  | (Ok _, page) => Ok page
  | (Raise e, _) => Raise e
  end.

(** The dictionary [inputs] of the script (lines 71-75), and the call of
    line 109. *)
Definition inputs (w : widgets F) : dict F :=
  dict_display
    [("magnetic_field", Num (magnetic_field w));
     ("atmospheric_pressure", Num (atmospheric_pressure w));
     ("solar_flux", Num (solar_flux w))]%string.

Definition report (w : widgets F) : result (list string) :=
  let mcr := calculate_mcr (magnetic_field w) in
  let bvi := calculate_bvi mcr (atmospheric_pressure w) in
  let gei := calculate_gei (solar_flux w) in
  generate_pdf mcr bvi gei (planet w) (inputs w).

End Report.

(** * Properties *)

(** ** The formulas in exact arithmetic *)

Module ExactFormulas.

Import Exact.
Local Open Scope Q_scope.

(** The score as the code computes it. *)
Local Abbreviation score freq :=
  (if Qle_bool (Qabs (freq - 7.83)) 2.5 then 1 - Qabs (freq - 7.83) / 2.5 else 0).

(** The comparisons of the rationals, as propositions. *)
Lemma ltb_lt (x y : Q) : ltb x y = true <-> x < y.
Proof. apply QMicromega.Qlt_bool_iff. Qed.

Lemma ltb_ge (x y : Q) : ltb x y = false <-> y <= x.
Proof.
  rewrite <- Bool.not_true_iff_false, ltb_lt. split; intro Hxy.
  - now apply Qnot_lt_le.
  - now apply Qle_not_lt.
Qed.

Lemma leb_le (x y : Q) : leb x y = true <-> x <= y.
Proof. apply Qle_bool_iff. Qed.

Lemma leb_gt (x y : Q) : leb x y = false <-> y < x.
Proof.
  rewrite <- Bool.not_true_iff_false, leb_le. split; intro Hxy.
  - now apply Qnot_le_lt.
  - now apply Qlt_not_le.
Qed.

(** Case analysis on the comparisons a goal evaluates, innermost first. *)
Ltac no_branch t :=
  lazymatch t with
  | context [if _ then _ else _] => fail
  | _ => idtac
  end.

Ltac cmp_cases :=
  repeat match goal with
  | |- context [ltb ?a ?b] =>
      no_branch a; no_branch b;
      let Hc := fresh "Hlt" in
      destruct (ltb a b) eqn:Hc; [apply ltb_lt in Hc | apply ltb_ge in Hc]
  | |- context [leb ?a ?b] =>
      no_branch a; no_branch b;
      let Hc := fresh "Hle" in
      destruct (leb a b) eqn:Hc; [apply leb_le in Hc | apply leb_gt in Hc]
  end.

(** [clamp] on the three regions of the line. *)
Lemma clamp_cases (x : Q) :
  (x < 0 /\ clamp x == 0) \/ (0 <= x <= 1 /\ clamp x = x) \/ (1 < x /\ clamp x == 1).
Proof.
  unfold clamp, clamp_between, py_max, py_min. cbn [lit Q_PyFloat].
  cmp_cases; first [left; split; [lra | reflexivity]
                   | right; left; split; [lra | reflexivity]
                   | right; right; split; [lra | reflexivity]
                   | exfalso; lra ].
Qed.

Lemma clamp_range (x : Q) : 0 <= clamp x <= 1.
Proof.
  destruct (clamp_cases x) as [[Hx ->] | [[Hx ->] | [Hx ->]]]; lra.
Qed.

Lemma clamp_inside (x : Q) : 0 <= x <= 1 -> clamp x = x.
Proof.
  intro Hx. destruct (clamp_cases x) as [[Hx' _] | [[_ Hc] | [Hx' _]]];
    [lra | exact Hc | lra].
Qed.

Lemma clamp_nonpos (x : Q) : x <= 0 -> clamp x == 0.
Proof.
  intro Hx. destruct (clamp_cases x) as [[_ ->] | [[Hx' ->] | [Hx' _]]]; lra.
Qed.

Lemma clamp_ge_1 (x : Q) : 1 <= x -> clamp x == 1.
Proof.
  intro Hx. destruct (clamp_cases x) as [[Hx' _] | [[Hx' ->] | [_ ->]]]; lra.
Qed.

(** The score of [calculate_MCI], before the noise factor is applied. *)
Lemma calculate_MCI_unfold (freq emf : Q) :
  calculate_MCI freq emf = clamp (score freq * (1 - emf)).
Proof. reflexivity. Qed.

Lemma div_tolerance (d : Q) : d / 2.5 == d * (2 # 5).
Proof. field. Qed.

Lemma score_range (freq : Q) : 0 <= score freq <= 1.
Proof.
  pose proof (Qabs_nonneg (freq - 7.83)) as Hd.
  destruct (Qle_bool (Qabs (freq - 7.83)) 2.5) eqn:Hle.
  - apply Qle_bool_iff in Hle. rewrite div_tolerance. lra.
  - lra.
Qed.

Lemma score_out_of_tolerance (freq : Q) :
  2.5 < Qabs (freq - 7.83) -> score freq = 0.
Proof.
  intro Hd.
  destruct (Qle_bool (Qabs (freq - 7.83)) 2.5) eqn:Hle; [| reflexivity].
  apply Qle_bool_iff in Hle. lra.
Qed.

(** [clamp] is the saturation of the specification. *)
Lemma clamp_saturate (x : Q) : clamp x == Spec.saturate x 0 1.
Proof.
  unfold Spec.saturate.
  destruct (Q.min_spec 1 x) as [[Hm ->] | [Hm ->]];
    [destruct (Q.max_spec 0 1) as [[HM ->] | [HM ->]]
    |destruct (Q.max_spec 0 x) as [[HM ->] | [HM ->]]];
    destruct (clamp_cases x) as [[Hx ->] | [[Hx ->] | [Hx ->]]]; lra.
Qed.

Lemma score_spec (freq : Q) : score freq = Spec.score freq.
Proof.
  unfold Spec.score.
  destruct (Qlt_le_dec 2.5 (Qabs (freq - 7.83))) as [Hout | Hin].
  - now apply score_out_of_tolerance.
  - apply Qle_bool_iff in Hin. now rewrite Hin.
Qed.

(** *** [round] *)

Lemma round_half_even_spec (q : Q) :
  let n := inject_Z (round_half_even q) in
  n - (1 # 2) <= q <= n + (1 # 2) /\
  (q == n + (1 # 2) \/ q == n - (1 # 2) -> Z.even (round_half_even q) = true).
Proof.
  pose proof (Qfloor_le q) as Hlo. pose proof (Qlt_floor q) as Hhi.
  rewrite inject_Z_plus in Hhi. change (inject_Z 1) with 1 in Hhi.
  unfold round_half_even. cbv zeta.
  destruct (q - inject_Z (Qfloor q) ?= 1 # 2) eqn:Hc.
  - apply Qeq_alt in Hc.
    destruct (Z.even (Qfloor q)) eqn:He.
    + split; [lra | intros _; exact He].
    + rewrite inject_Z_plus. change (inject_Z 1) with 1.
      split; [lra | intros _].
      rewrite Z.add_1_r, Z.even_succ, <- Z.negb_even, He. reflexivity.
  - apply Qlt_alt in Hc. split; [lra | intros [Ht | Ht]; lra].
  - apply Qgt_alt in Hc. rewrite inject_Z_plus. change (inject_Z 1) with 1.
    split; [lra | intros [Ht | Ht]; lra].
Qed.

Lemma round_half_even_nonneg (q : Q) : 0 <= q -> (0 <= round_half_even q)%Z.
Proof.
  intro Hq. destruct (round_half_even_spec q) as [[_ Hhi] _].
  destruct (Z_lt_le_dec (round_half_even q) 0) as [Hneg | Hnn]; [| exact Hnn].
  assert (Hz : inject_Z (round_half_even q) <= inject_Z (-1))
    by (rewrite <- Zle_Qle; lia).
  change (inject_Z (-1)) with (-1 # 1) in Hz. lra.
Qed.

(** The rounding is negative exactly below minus one half: the tie at
    minus one half goes to the even neighbour, which is zero. *)
Lemma round_half_even_neg (q : Q) : (round_half_even q < 0)%Z <-> q < - (1 # 2).
Proof.
  destruct (round_half_even_spec q) as [[Hlo Hhi] Htie]. split.
  - intro Hneg.
    assert (Hz : inject_Z (round_half_even q) <= inject_Z (-1))
      by (rewrite <- Zle_Qle; lia).
    change (inject_Z (-1)) with (-1 # 1) in Hz.
    destruct (Qlt_le_dec q (- (1 # 2))) as [Hlt | Hge]; [exact Hlt | exfalso].
    assert (Hn : inject_Z (round_half_even q) == inject_Z (-1))
      by (change (inject_Z (-1)) with (-1 # 1); lra).
    apply (proj1 (inject_Z_injective _ _)) in Hn.
    assert (He : Z.even (round_half_even q) = true).
    { apply Htie. left. rewrite Hn. change (inject_Z (-1)) with (-1 # 1). lra. }
    rewrite Hn in He. discriminate He.
  - intro Hq.
    destruct (Z_lt_le_dec (round_half_even q) 0) as [Hneg | Hnn]; [exact Hneg |].
    assert (Hz : inject_Z 0 <= inject_Z (round_half_even q))
      by (rewrite <- Zle_Qle; exact Hnn).
    change (inject_Z 0) with 0 in Hz. lra.
Qed.

Lemma round_2_unfold (x : Q) :
  py_round x 2 = (round_half_even (x * 100) # 100).
Proof. reflexivity. Qed.

Lemma hundredths (n : Z) : n # 100 == inject_Z n * (1 # 100).
Proof. unfold Qeq. simpl. lia. Qed.

Lemma round_2_rounded (x : Q) : Spec.rounded_2 x (py_round x 2).
Proof.
  rewrite round_2_unfold. split.
  - now exists (round_half_even (x * 100)).
  - destruct (round_half_even_spec (x * 100)) as [[Hlo Hhi] _].
    apply Qabs_Qle_condition. rewrite hundredths. lra.
Qed.

Lemma round_2_nonneg (x : Q) : 0 <= x -> 0 <= py_round x 2.
Proof.
  intro Hx. rewrite round_2_unfold.
  assert (Hn : (0 <= round_half_even (x * 100))%Z)
    by (apply round_half_even_nonneg; lra).
  unfold Qle. simpl. lia.
Qed.

Lemma round_2_neg (x : Q) : py_round x 2 < 0 <-> x < - (1 # 200).
Proof.
  rewrite round_2_unfold.
  assert (Hs : round_half_even (x * 100) # 100 < 0
               <-> (round_half_even (x * 100) < 0)%Z)
    by (unfold Qlt; simpl; lia).
  rewrite Hs, round_half_even_neg. split; intro; lra.
Qed.

#[export] Instance Q_ClampedSquares : ClampedSquares Q.
Proof. intro x. now exists (clamp x * clamp x). Qed.

End ExactFormulas.

(** ** Rounding in binary64

    The operations of [SpecFloat], to which the kernel's floats are bound,
    round a mantissa by shifting it; what the shift leaves is described
    here value by value: a result is the cut mantissa or its successor,
    it stays on the near side of every float that bounds the exact
    value, and its sign is that of the exact value. *)

Module Binary64Rounding.

Import Binary64.
Local Open Scope Z_scope.

(** *** Comparisons, and the classes of floats *)

Lemma SFcompare_antisym (a b : spec_float) :
  SFcompare b a = option_map CompOpp (SFcompare a b).
Proof.
  destruct a as [sa | sa | | sa ma ea], b as [sb | sb | | sb mb eb];
    try destruct sa; try destruct sb; try reflexivity; cbn [SFcompare option_map].
  - rewrite (Z.compare_antisym ea eb).
    destruct (ea ?= eb)%Z; cbn [CompOpp]; try reflexivity.
    rewrite (Pos.compare_cont_antisym ma mb Eq). cbn [CompOpp].
    now destruct (Pos.compare_cont Eq ma mb).
  - rewrite (Z.compare_antisym ea eb).
    destruct (ea ?= eb)%Z; cbn [CompOpp]; try reflexivity.
    rewrite (Pos.compare_cont_antisym ma mb Eq). cbn [CompOpp].
    now destruct (Pos.compare_cont Eq ma mb).
Qed.

Lemma SFcompare_refl (a : spec_float) : a <> S754_nan -> SFcompare a a = Some Eq.
Proof.
  destruct a as [s | s | | s m e]; intro Ha; try (now destruct s); [contradiction |].
  cbn [SFcompare]. rewrite Z.compare_refl, Pos.compare_cont_refl. now destruct s.
Qed.

Lemma is_nan_spec (x : float) : is_nan x = true <-> Prim2SF x = S754_nan.
Proof.
  unfold is_nan. rewrite eqb_spec. unfold SFeqb.
  destruct (Prim2SF x) as [s | s | | s m e] eqn:Hx.
  all: try (rewrite SFcompare_refl by discriminate; cbn; split; discriminate).
  cbn. split; reflexivity.
Qed.

Lemma is_nan_false (x : float) : is_nan x = false <-> Prim2SF x <> S754_nan.
Proof.
  rewrite <- is_nan_spec. destruct (is_nan x); split; congruence.
Qed.

Lemma SFcompare_None (a b : spec_float) :
  a <> S754_nan -> b <> S754_nan -> SFcompare a b <> None.
Proof.
  destruct a as [sa | sa | | sa ma ea], b as [sb | sb | | sb mb eb];
    intros Ha Hb; try contradiction; cbn [SFcompare]; discriminate.
Qed.

Lemma ltb_nan_l (x y : float) : is_nan x = true -> PrimFloat.ltb x y = false.
Proof.
  intro Hx. apply is_nan_spec in Hx. rewrite ltb_spec, Hx. reflexivity.
Qed.

Lemma ltb_nan_r (x y : float) : is_nan y = true -> PrimFloat.ltb x y = false.
Proof.
  intro Hy. apply is_nan_spec in Hy. rewrite ltb_spec, Hy.
  unfold SFltb. now destruct (Prim2SF x).
Qed.

Lemma ltb_false_leb (x y : float) :
  is_nan x = false -> is_nan y = false ->
  PrimFloat.ltb x y = false -> PrimFloat.leb y x = true.
Proof.
  rewrite !is_nan_false, ltb_spec, leb_spec. intros Hx Hy.
  unfold SFltb, SFleb. rewrite (SFcompare_antisym (Prim2SF x) (Prim2SF y)).
  pose proof (SFcompare_None _ _ Hx Hy) as Hc.
  destruct (SFcompare (Prim2SF x) (Prim2SF y)) as [[] |];
    cbn [option_map CompOpp]; congruence.
Qed.

Lemma is_infinity_spec (z : float) :
  is_infinity z = true <-> exists s, Prim2SF z = S754_infinity s.
Proof.
  unfold is_infinity. rewrite eqb_spec, abs_spec.
  replace (Prim2SF infinity) with (S754_infinity false) by (vm_compute; reflexivity).
  destruct (Prim2SF z) as [s | s | | s m e]; cbn; split;
    try discriminate; try (intros [s' Hs]; discriminate Hs); eauto.
Qed.

(** The tests of the programs and of the statements, on [SpecFloat]. *)
Lemma is_finite_spec (x : float) : is_finite x = SFfin (Prim2SF x).
Proof.
  unfold is_finite.
  destruct (is_nan x) eqn:Hn.
  - apply is_nan_spec in Hn. now rewrite Hn.
  - apply is_nan_false in Hn. cbn [orb].
    destruct (is_infinity x) eqn:Hi.
    + apply is_infinity_spec in Hi as [s ->]. reflexivity.
    + destruct (Prim2SF x) as [s | s | | s m e] eqn:Hx; try reflexivity.
      * assert (is_infinity x = true) by (apply is_infinity_spec; eauto). congruence.
      * contradiction.
Qed.

Lemma leb_0_spec (x : float) : PrimFloat.leb 0 x = SFge0 (Prim2SF x).
Proof.
  rewrite leb_spec.
  replace (Prim2SF 0) with (S754_zero false) by (vm_compute; reflexivity).
  destruct (Prim2SF x) as [s | [] | | [] m e]; reflexivity.
Qed.

Lemma ltb_0_spec (x : float) : PrimFloat.ltb x 0 = SFneg (Prim2SF x).
Proof.
  rewrite ltb_spec.
  replace (Prim2SF 0) with (S754_zero false) by (vm_compute; reflexivity).
  destruct (Prim2SF x) as [s | [] | | [] m e]; reflexivity.
Qed.

Lemma leb_le0_spec (x : float) : PrimFloat.leb x 0 = SFle0 (Prim2SF x).
Proof.
  rewrite leb_spec.
  replace (Prim2SF 0) with (S754_zero false) by (vm_compute; reflexivity).
  destruct (Prim2SF x) as [s | [] | | [] m e]; reflexivity.
Qed.

Lemma SFge0_not_neg (x : spec_float) : SFge0 x = true -> SFneg x = false.
Proof. now destruct x as [s | [] | | [] m e]. Qed.

Lemma SFnonneg_spec (x : spec_float) :
  SFnonneg x = SFfin x && SFge0 x.
Proof. now destruct x as [s | [] | | [] m e]. Qed.

Lemma SFnonneg_fin (x : spec_float) : SFnonneg x = true -> SFfin x = true.
Proof. now destruct x as [s | s | | [] m e]. Qed.

Lemma finite_nonneg (x : float) :
  is_finite x = true -> PrimFloat.leb 0 x = true -> SFnonneg (Prim2SF x) = true.
Proof.
  rewrite is_finite_spec, leb_0_spec, SFnonneg_spec. intros -> ->. reflexivity.
Qed.

(** Positive finite floats compare by exponent, then by mantissa. *)
Lemma SFleb_finite (m1 m2 : positive) (e1 e2 : Z) :
  SFleb (S754_finite false m1 e1) (S754_finite false m2 e2) = true ->
  e1 < e2 \/ (e1 = e2 /\ Zpos m1 <= Zpos m2).
Proof.
  unfold SFleb. cbn [SFcompare].
  destruct (Z.compare_spec e1 e2) as [He | He | He].
  - intro Hc. right. split; [exact He |].
    change (Pos.compare_cont Eq m1 m2) with (Pos.compare m1 m2) in Hc.
    destruct (Pos.compare_spec m1 m2); try discriminate; lia.
  - intros _. now left.
  - discriminate.
Qed.

Lemma SFltb_finite (m1 m2 : positive) (e1 e2 : Z) :
  SFltb (S754_finite false m1 e1) (S754_finite false m2 e2) = true ->
  e1 < e2 \/ (e1 = e2 /\ Zpos m1 < Zpos m2).
Proof.
  unfold SFltb. cbn [SFcompare].
  destruct (Z.compare_spec e1 e2) as [He | He | He].
  - intro Hc. right. split; [exact He |].
    change (Pos.compare_cont Eq m1 m2) with (Pos.compare m1 m2) in Hc.
    destruct (Pos.compare_spec m1 m2); try discriminate; lia.
  - intros _. now left.
  - discriminate.
Qed.

(** *** The size of a mantissa *)

Lemma digits2_pos_size (p : positive) : digits2_pos p = Pos.size p.
Proof. induction p as [p IH | p IH |]; cbn; now try rewrite IH. Qed.

Lemma Zdigits2_log2 (n : Z) : 0 < n -> Zdigits2 n = Z.log2 n + 1.
Proof.
  destruct n as [| p | p]; try easy. intros _. cbn [Zdigits2].
  rewrite digits2_pos_size.
  destruct p as [p | p |]; cbn; now rewrite ?Pos.add_1_r.
Qed.

Lemma Zdigits2_nonneg (n : Z) : 0 <= Zdigits2 n.
Proof. destruct n; cbn; lia. Qed.

Lemma Zdigits2_le (a b : Z) : 0 <= a <= b -> Zdigits2 a <= Zdigits2 b.
Proof.
  intros [Ha Hab]. destruct (Z.eq_dec a 0) as [-> | Hne].
  - apply Zdigits2_nonneg.
  - rewrite !Zdigits2_log2 by lia.
    pose proof (Z.log2_le_mono a b Hab). lia.
Qed.

Lemma Zdigits2_succ (a : Z) : 0 <= a -> Zdigits2 (a + 1) <= Zdigits2 a + 1.
Proof.
  intro Ha. destruct (Z.eq_dec a 0) as [-> | Hne]; [cbn; lia |].
  rewrite !Zdigits2_log2 by lia.
  pose proof (Z.log2_succ_le a) as Hs. unfold Z.succ in Hs. lia.
Qed.

Lemma Zdigits2_mul (a b : Z) :
  0 < a -> 0 < b -> Zdigits2 (a * b) <= Zdigits2 a + Zdigits2 b.
Proof.
  intros Ha Hb. rewrite !Zdigits2_log2 by lia.
  pose proof (Z.log2_mul_above a b). lia.
Qed.

Lemma Zdigits2_shift (m k : Z) :
  0 <= m -> 0 <= k -> Zdigits2 (m / 2 ^ k) = Z.max 0 (Zdigits2 m - k).
Proof.
  intros Hm Hk. destruct (Z.eq_dec m 0) as [-> | Hne].
  - rewrite Z.div_0_l by (apply Z.pow_nonzero; lia). cbn. lia.
  - assert (Hpos : 0 < m) by lia.
    rewrite (Zdigits2_log2 m Hpos).
    pose proof (Z.log2_shiftr m k Hpos) as Hs.
    rewrite Z.shiftr_div_pow2 in Hs by lia.
    destruct (Z.eq_dec (m / 2 ^ k) 0) as [Hz | Hnz].
    + rewrite Hz. cbn [Zdigits2].
      apply Z.div_small_iff in Hz; [| apply Z.pow_nonzero; lia].
      destruct Hz as [[_ Hlt] | Hneg]; [| lia].
      apply Z.log2_lt_pow2 in Hlt; lia.
    + assert (Hq : 0 < m / 2 ^ k).
      { pose proof (Z.div_pos m (2 ^ k) (Z.lt_le_incl _ _ Hpos)). 
        assert (0 < 2 ^ k) by (apply Z.pow_pos_nonneg; lia). lia. }
      rewrite (Zdigits2_log2 _ Hq), Hs.
      assert (Hle : 2 ^ k <= m).
      { destruct (Z_lt_le_dec m (2 ^ k)) as [Hlt | Hge]; [| exact Hge].
        rewrite Z.div_small in Hnz by lia. lia. }
      apply Z.log2_le_pow2 in Hle; lia.
Qed.

Lemma Zdigits2_lt_pow2 (m k : Z) : 0 <= m -> 0 <= k -> Zdigits2 m <= k <-> m < 2 ^ k.
Proof.
  intros Hm Hk. destruct (Z.eq_dec m 0) as [-> | Hne].
  - cbn [Zdigits2]. split; intros _; [apply Z.pow_pos_nonneg; lia | lia].
  - rewrite Zdigits2_log2 by lia.
    pose proof (Z.log2_lt_pow2 m k ltac:(lia)). lia.
Qed.

Lemma Zdigits2_mul_pow2 (m k : Z) :
  0 < m -> 0 <= k -> Zdigits2 (m * 2 ^ k) = Zdigits2 m + k.
Proof.
  intros Hm Hk.
  assert (0 < 2 ^ k) by (apply Z.pow_pos_nonneg; lia).
  rewrite !Zdigits2_log2 by nia.
  rewrite Z.log2_mul_pow2 by lia. lia.
Qed.

Lemma pow2_add (a b : Z) : 0 <= a -> 0 <= b -> 2 ^ (a + b) = 2 ^ a * 2 ^ b.
Proof. intros. now apply Z.pow_add_r. Qed.

Lemma fexp_mono (a b : Z) : a <= b -> fexp prec emax a <= fexp prec emax b.
Proof. unfold fexp, SpecFloat.emin, prec, emax. lia. Qed.

Lemma bounded_digits (m : positive) (e : Z) :
  bounded prec emax m e = true -> Zdigits2 (Zpos m) <= prec.
Proof.
  unfold bounded, canonical_mantissa, fexp. intro Hb.
  apply andb_prop in Hb as [Hc _]. apply Z.eqb_eq in Hc.
  cbn [Zdigits2]. lia.
Qed.

(** A float in normal form: its exponent is the one its size asks for. *)
Lemma bounded_canonical (m : positive) (e : Z) :
  bounded prec emax m e = true ->
  fexp prec emax (Zdigits2 (Zpos m) + e) = e /\ e <= 971 /\ Zpos m < 2 ^ 53.
Proof.
  intro Hb. pose proof (bounded_digits m e Hb) as Hd.
  unfold bounded, canonical_mantissa in Hb.
  apply andb_prop in Hb as [Hc He]. apply Z.eqb_eq in Hc. apply Z.leb_le in He.
  split; [exact Hc | split; [exact He |]].
  apply Zdigits2_lt_pow2; [lia | lia | exact Hd].
Qed.

(** A normal float has a full mantissa. *)
Lemma bounded_normal (m : positive) (e : Z) :
  bounded prec emax m e = true -> -1074 < e -> 2 ^ 52 <= Zpos m.
Proof.
  intros Hb He. destruct (bounded_canonical m e Hb) as [Hc _].
  unfold fexp, SpecFloat.emin, prec, emax in Hc.
  assert (Hd : Zdigits2 (Zpos m) = 53) by lia.
  rewrite Zdigits2_log2 in Hd by lia.
  assert (Hl : Z.log2 (Zpos m) = 52) by lia.
  pose proof (Z.log2_spec (Zpos m) eq_refl) as [Hlo _]. now rewrite Hl in Hlo.
Qed.

Lemma bounded_double (m : positive) (e : Z) :
  bounded prec emax m e = true -> -1074 < e < 971 ->
  bounded prec emax m (e + 1) = true.
Proof.
  intros Hb He. destruct (bounded_canonical m e Hb) as [Hc _].
  unfold bounded, canonical_mantissa. apply andb_true_intro. split.
  - apply Z.eqb_eq. change (Zpos (digits2_pos m)) with (Zdigits2 (Zpos m)).
    unfold fexp, SpecFloat.emin, prec, emax in *. lia.
  - apply Z.leb_le. unfold prec, emax. lia.
Qed.

(** *** Shifting and rounding a mantissa *)

Lemma iter_pos_invariant {A} (P : A -> Prop) (f : A -> A) :
  (forall x, P x -> P (f x)) -> forall p x, P x -> P (iter_pos f p x).
Proof.
  intros Hf. induction p as [p IH | p IH |]; intros x Hx; cbn; auto.
Qed.

Lemma shr_1_m (bound : Z) (mrs : shr_record) :
  0 <= shr_m mrs <= bound -> 0 <= shr_m (shr_1 mrs) <= bound.
Proof.
  destruct mrs as [m r s]. cbn [shr_m].
  destruct m as [| [p | p |] | p]; cbn; lia.
Qed.

Lemma shr_m_bound (mrs : shr_record) (e n : Z) :
  0 <= shr_m mrs -> 0 <= shr_m (fst (shr mrs e n)) <= shr_m mrs.
Proof.
  intro Hm. destruct n as [| p | p]; cbn [shr fst]; try lia.
  apply (iter_pos_invariant (fun x => 0 <= shr_m x <= shr_m mrs)).
  - intros x. apply shr_1_m.
  - lia.
Qed.

Lemma shr_record_of_loc_m (m : Z) (l : location) : shr_m (shr_record_of_loc m l) = m.
Proof. now destruct l as [| []]. Qed.

Lemma shr_fexp_m (m e : Z) (l : location) :
  0 <= m -> 0 <= shr_m (fst (shr_fexp prec emax m e l)) <= m.
Proof.
  intro Hm. unfold shr_fexp.
  pose proof (shr_m_bound (shr_record_of_loc m l) e
                (fexp prec emax (Zdigits2 m + e) - e)) as Hb.
  rewrite shr_record_of_loc_m in Hb. auto.
Qed.

Lemma shr_fexp_e (m e : Z) (l : location) :
  snd (shr_fexp prec emax m e l) = Z.max e (fexp prec emax (Zdigits2 m + e)).
Proof.
  unfold shr_fexp, shr.
  destruct (fexp prec emax (Zdigits2 m + e) - e) eqn:Hn; cbn [snd]; lia.
Qed.

Lemma round_nearest_even_bound (m : Z) (l : location) :
  m <= round_nearest_even m l <= m + 1.
Proof.
  destruct l as [| []]; cbn; try lia. destruct (Z.even m); lia.
Qed.

(** The exponent a rounding ends with; overflow needs it above [emax - prec]. *)
Lemma binary_round_aux_infinity (s s' : bool) (mx ex : Z) (lx : location) :
  0 <= mx ->
  binary_round_aux prec emax s mx ex lx = S754_infinity s' ->
  let e1 := Z.max ex (fexp prec emax (Zdigits2 mx + ex)) in
  emax - prec < Z.max e1 (fexp prec emax (Zdigits2 mx + 1 + e1)).
Proof.
  intros Hmx. unfold binary_round_aux.
  pose proof (shr_fexp_e mx ex lx) as He1.
  pose proof (shr_fexp_m mx ex lx Hmx) as Hm1.
  destruct (shr_fexp prec emax mx ex lx) as [mrs1 e1] eqn:H1.
  cbn [fst snd] in He1, Hm1.
  set (m1 := round_nearest_even (shr_m mrs1) (loc_of_shr_record mrs1)).
  pose proof (round_nearest_even_bound (shr_m mrs1) (loc_of_shr_record mrs1)) as Hr.
  fold m1 in Hr.
  pose proof (shr_fexp_e m1 e1 loc_Exact) as He2.
  destruct (shr_fexp prec emax m1 e1 loc_Exact) as [mrs2 e2] eqn:H2.
  cbn [snd] in He2.
  destruct (shr_m mrs2); try discriminate.
  destruct (e2 <=? emax - prec) eqn:Hle; [discriminate |].
  intros _. apply Z.leb_gt in Hle. cbv zeta. rewrite <- He1.
  assert (Hd : Zdigits2 m1 <= Zdigits2 mx + 1).
  { transitivity (Zdigits2 (mx + 1)).
    - apply Zdigits2_le. lia.
    - now apply Zdigits2_succ. }
  unfold fexp in *. lia.
Qed.

Lemma iter_pos_nat {A} (f : A -> A) (p : positive) (x : A) :
  iter_pos f p x = Nat.iter (Pos.to_nat p) f x.
Proof.
  revert x. induction p as [p IH | p IH |]; intro x; cbn [iter_pos].
  - rewrite !IH, Pos2Nat.inj_xI.
    replace (S (2 * Pos.to_nat p)) with (Pos.to_nat p + (Pos.to_nat p + 1))%nat by lia.
    now rewrite !Nat.iter_add.
  - rewrite !IH, Pos2Nat.inj_xO.
    replace (2 * Pos.to_nat p)%nat with (Pos.to_nat p + Pos.to_nat p)%nat by lia.
    now rewrite Nat.iter_add.
  - reflexivity.
Qed.

Lemma shr_1_div2 (mrs : shr_record) :
  0 <= shr_m mrs -> shr_m (shr_1 mrs) = shr_m mrs / 2 /\ shr_r (shr_1 mrs) = Z.odd (shr_m mrs).
Proof.
  destruct mrs as [m r s]. cbn [shr_m]. intro Hm.
  destruct m as [| [p | p |] | p]; try lia; cbn [shr_1 shr_m shr_r].
  - split; reflexivity.
  - split; [| reflexivity]. rewrite Pos2Z.inj_xI. 
    replace (2 * Z.pos p + 1) with (1 + Z.pos p * 2) by lia.
    rewrite Z.div_add by lia. reflexivity.
  - split; [| reflexivity]. rewrite Pos2Z.inj_xO.
    replace (2 * Z.pos p) with (Z.pos p * 2) by lia. now rewrite Z.div_mul by lia.
  - split; reflexivity.
Qed.

Lemma shr_iter_m (k : nat) (mrs : shr_record) :
  0 <= shr_m mrs ->
  shr_m (Nat.iter k shr_1 mrs) = shr_m mrs / 2 ^ Z.of_nat k.
Proof.
  intro Hm. induction k as [| k IH].
  - cbn. now rewrite Z.div_1_r.
  - rewrite Nat.iter_succ.
    assert (Hk : 0 <= shr_m (Nat.iter k shr_1 mrs)).
    { rewrite IH. apply Z.div_pos; lia. }
    rewrite (proj1 (shr_1_div2 _ Hk)), IH.
    rewrite Nat2Z.inj_succ, Z.pow_succ_r by lia.
    rewrite Z.div_div by lia. f_equal. lia.
Qed.

Lemma shr_iter_r (k : nat) (mrs : shr_record) :
  0 <= shr_m mrs ->
  shr_r (Nat.iter (S k) shr_1 mrs) = Z.testbit (shr_m mrs) (Z.of_nat k).
Proof.
  intro Hm. rewrite Nat.iter_succ.
  assert (Hk : 0 <= shr_m (Nat.iter k shr_1 mrs)).
  { rewrite shr_iter_m by assumption. apply Z.div_pos; lia. }
  rewrite (proj2 (shr_1_div2 _ Hk)), shr_iter_m by assumption.
  rewrite Z.testbit_odd, Z.shiftr_div_pow2 by lia. reflexivity.
Qed.

Lemma shr_exact (mrs : shr_record) (e n : Z) :
  0 <= shr_m mrs ->
  shr_m (fst (shr mrs e n)) = shr_m mrs / 2 ^ Z.max 0 n /\
  snd (shr mrs e n) = e + Z.max 0 n.
Proof.
  intro Hm. destruct n as [| p | p]; cbn [shr fst snd].
  - rewrite Z.div_1_r. split; [reflexivity | cbn; lia].
  - rewrite iter_pos_nat, shr_iter_m by assumption.
    rewrite positive_nat_Z. split; [f_equal; f_equal; lia | lia].
  - cbn [Z.max]. rewrite Z.div_1_r. split; [reflexivity | cbn; lia].
Qed.

Lemma shr_fexp_exact (m e : Z) (l : location) :
  0 <= m ->
  let e1 := Z.max e (fexp prec emax (Zdigits2 m + e)) in
  shr_m (fst (shr_fexp prec emax m e l)) = m / 2 ^ (e1 - e) /\
  snd (shr_fexp prec emax m e l) = e1.
Proof.
  intros Hm e1. unfold shr_fexp.
  pose proof (shr_exact (shr_record_of_loc m l) e
                (fexp prec emax (Zdigits2 m + e) - e)) as Hs.
  rewrite shr_record_of_loc_m in Hs. destruct (Hs Hm) as [H1 H2].
  rewrite H1, H2. subst e1. split; [f_equal; f_equal |]; lia.
Qed.

Lemma shr_r_low (mrs : shr_record) (e n : Z) :
  0 <= shr_m mrs -> 0 < n ->
  shr_r (fst (shr mrs e n)) = Z.testbit (shr_m mrs) (n - 1).
Proof.
  intros Hm Hn. destruct n as [| p | p]; try lia. cbn [shr fst].
  rewrite iter_pos_nat.
  destruct (Pos.to_nat p) as [| k] eqn:Hp; [pose proof (Pos2Nat.is_pos p); lia |].
  rewrite shr_iter_r by assumption. f_equal. lia.
Qed.

Lemma round_nearest_even_low (mrs : shr_record) :
  shr_r mrs = false ->
  round_nearest_even (shr_m mrs) (loc_of_shr_record mrs) = shr_m mrs.
Proof.
  destruct mrs as [m r s]. cbn [shr_r shr_m]. intros ->. now destruct s.
Qed.

(** What a rounding returns: with [e1] the exponent the mantissa is
    aligned to and [m0] the mantissa cut there, the result is [m0] or its
    successor at [e1], renormalised when the successor is [2 ^ 53]. *)
Lemma binary_round_aux_pack (s : bool) (mx ex : Z) (lx : location) :
  0 <= mx ->
  let e1 := Z.max ex (fexp prec emax (Zdigits2 mx + ex)) in
  let m0 := mx / 2 ^ (e1 - ex) in
  exists m1 : Z,
    m0 <= m1 <= m0 + 1 /\ m0 < 2 ^ 53 /\
    (ex < e1 -> Z.testbit mx (e1 - ex - 1) = false -> m1 = m0) /\
    (e1 = ex -> lx = loc_Exact -> m1 = m0) /\
    binary_round_aux prec emax s mx ex lx = pack s m1 e1.
Proof.
  intros Hmx e1 m0.
  assert (He1 : e1 - ex >= 0) by (subst e1; lia).
  assert (Hemin : -1074 <= e1) by (subst e1; unfold fexp, SpecFloat.emin, prec, emax; lia).
  assert (Hm0 : 0 <= m0) by (subst m0; apply Z.div_pos; [lia | apply Z.pow_pos_nonneg; lia]).
  assert (Hd0 : Zdigits2 m0 <= 53).
  { subst m0. rewrite Zdigits2_shift by lia.
    subst e1. unfold fexp, SpecFloat.emin, prec, emax. lia. }
  unfold binary_round_aux.
  destruct (shr_fexp_exact mx ex lx Hmx) as [Hs1 Hs2].
  assert (Hlow : ex < e1 -> shr_r (fst (shr_fexp prec emax mx ex lx))
                           = Z.testbit mx (e1 - ex - 1)).
  { intro Hsh. unfold shr_fexp.
    rewrite shr_r_low.
    - rewrite shr_record_of_loc_m. f_equal. subst e1. lia.
    - rewrite shr_record_of_loc_m. lia.
    - subst e1. lia. }
  assert (Hnone : e1 = ex -> fst (shr_fexp prec emax mx ex lx) = shr_record_of_loc mx lx).
  { intro Hsh. unfold shr_fexp, shr.
    destruct (fexp prec emax (Zdigits2 mx + ex) - ex) eqn:Hn; try reflexivity.
    subst e1. lia. }
  destruct (shr_fexp prec emax mx ex lx) as [mrs1 e1'] eqn:H1.
  cbn [fst snd] in Hs1, Hs2, Hlow, Hnone. fold e1 in Hs1, Hs2. fold m0 in Hs1. subst e1'.
  set (m1 := round_nearest_even (shr_m mrs1) (loc_of_shr_record mrs1)).
  pose proof (round_nearest_even_bound (shr_m mrs1) (loc_of_shr_record mrs1)) as Hr.
  fold m1 in Hr. rewrite Hs1 in Hr.
  assert (Hlt0 : m0 < 2 ^ 53) by (apply Zdigits2_lt_pow2; lia).
  exists m1. split; [exact Hr | split; [exact Hlt0 | split; [| split]]].
  - intros Hsh Hbit. subst m1. rewrite <- Hs1.
    apply round_nearest_even_low. rewrite Hlow by assumption. exact Hbit.
  - intros Hsh ->. subst m1. rewrite (Hnone Hsh). cbn. rewrite <- Hs1, (Hnone Hsh). reflexivity.
  - assert (Hm1 : 0 <= m1) by lia.
    destruct (shr_fexp_exact m1 e1 loc_Exact Hm1) as [Ht1 Ht2].
    destruct (shr_fexp prec emax m1 e1 loc_Exact) as [mrs2 e2] eqn:H2.
    cbn [fst snd] in Ht1, Ht2. unfold pack.
    destruct (Z.eqb_spec m1 0) as [Hz | Hnz].
    + rewrite Ht1, Hz. rewrite Z.div_0_l by (apply Z.pow_nonzero; lia). reflexivity.
    + destruct (Z.eqb_spec m1 (2 ^ 53)) as [Htop | Hntop].
      * assert (He2 : e2 = e1 + 1).
        { rewrite Ht2, Htop. change (Zdigits2 (2 ^ 53)) with 54.
          unfold fexp, SpecFloat.emin, prec, emax. lia. }
        rewrite Ht1, Ht2, <- Ht2, He2, Htop.
        replace (e1 + 1 - e1) with 1 by lia.
        change (2 ^ 53 / 2 ^ 1) with (Z.pos (Z.to_pos (2 ^ 52))).
        reflexivity.
      * assert (Hd1 : Zdigits2 m1 <= 53) by (apply Zdigits2_lt_pow2; lia).
        assert (He2 : e2 = e1).
        { rewrite Ht2. unfold fexp, SpecFloat.emin, prec, emax. lia. }
        rewrite Ht1, Ht2, <- Ht2, He2, Z.sub_diag, Z.div_1_r.
        destruct m1 as [| p | p]; try lia. reflexivity.
Qed.

Lemma pack_shape (s : bool) (m e : Z) :
  pack s m e = S754_zero s \/
  (exists m' e', pack s m e = S754_finite s m' e') \/
  pack s m e = S754_infinity s.
Proof.
  unfold pack.
  destruct (m =? 0); [now left |].
  destruct (m =? 2 ^ 53).
  - destruct (e + 1 <=? 971); [right; left; eauto | now right; right].
  - destruct (e <=? 971); [right; left; eauto | now right; right].
Qed.

(** A rounding returns a zero, a finite float or an infinity of the sign
    it is given, never a NaN. *)
Lemma binary_round_aux_shape (s : bool) (mx ex : Z) (lx : location) :
  0 <= mx ->
  let r := binary_round_aux prec emax s mx ex lx in
  r = S754_zero s \/ (exists m e, r = S754_finite s m e) \/ r = S754_infinity s.
Proof.
  intros Hmx r. subst r.
  destruct (binary_round_aux_pack s mx ex lx Hmx) as (m1 & _ & _ & _ & _ & ->).
  apply pack_shape.
Qed.

(** A mantissa given on a grid fine enough rounds to a float in normal
    form. *)
Lemma binary_round_aux_valid (s : bool) (mx ex : Z) (lx : location) :
  0 <= mx -> ex <= fexp prec emax (Zdigits2 mx + ex) ->
  valid_binary (binary_round_aux prec emax s mx ex lx) = true.
Proof.
  intros Hmx Hex.
  destruct (binary_round_aux_pack s mx ex lx Hmx) as [m1 [Hm1 [Hm0 [_ [_ ->]]]]].
  replace (Z.max ex (fexp prec emax (Zdigits2 mx + ex)))
    with (fexp prec emax (Zdigits2 mx + ex)) in * by lia.
  set (e1 := fexp prec emax (Zdigits2 mx + ex)) in *.
  set (m0 := mx / 2 ^ (e1 - ex)) in *.
  assert (He1 : -1074 <= e1) by (subst e1; unfold fexp, SpecFloat.emin, prec, emax; lia).
  assert (Hm0' : 0 <= m0) by (subst m0; apply Z.div_pos; [lia | apply Z.pow_pos_nonneg; lia]).
  assert (Hd0 : Zdigits2 m0 = Z.max 0 (Zdigits2 mx + ex - e1)).
  { subst m0. rewrite Zdigits2_shift by lia. f_equal. lia. }
  unfold pack.
  destruct (Z.eqb_spec m1 0) as [Hz | Hnz]; [reflexivity |].
  destruct (Z.eqb_spec m1 (2 ^ 53)) as [Htop | Hntop].
  - destruct (Z.leb_spec (e1 + 1) 971) as [Hle | _]; [| reflexivity].
    cbn [valid_binary]. unfold bounded, canonical_mantissa.
    apply andb_true_intro. split; [apply Z.eqb_eq | apply Z.leb_le; exact Hle].
    change (Zpos (digits2_pos (Z.to_pos (2 ^ 52)))) with 53.
    unfold fexp, SpecFloat.emin, prec, emax. lia.
  - destruct (Z.leb_spec e1 971) as [Hle | _]; [| reflexivity].
    cbn [valid_binary]. unfold bounded, canonical_mantissa.
    apply andb_true_intro. split; [apply Z.eqb_eq | apply Z.leb_le; exact Hle].
    change (Zpos (digits2_pos (Z.to_pos m1))) with (Zdigits2 (Zpos (Z.to_pos m1))).
    rewrite Z2Pos.id by lia.
    assert (Hd1 : Zdigits2 m1 <= 53) by (apply Zdigits2_lt_pow2; lia).
    assert (Hd01 : Zdigits2 m0 <= Zdigits2 m1) by (apply Zdigits2_le; lia).
    subst e1. unfold fexp, SpecFloat.emin, prec, emax in *. lia.
Qed.

(** *** Rounding between representable bounds *)

(** A mantissa at most a float, on a grid at least as fine, rounds to at
    most that float: no overflow, and the sign is kept. *)
Lemma binary_round_aux_below (s : bool) (mx ex : Z) (lx : location)
      (pB : positive) (eB : Z) :
  0 <= mx -> bounded prec emax pB eB = true -> ex <= eB ->
  mx < Zpos pB * 2 ^ (eB - ex) \/ (mx = Zpos pB * 2 ^ (eB - ex) /\ lx = loc_Exact) ->
  below s (binary_round_aux prec emax s mx ex lx) (Zpos pB) eB.
Proof.
  intros Hmx Hb Hex Hle.
  destruct (bounded_canonical pB eB Hb) as [Hcan [HeB HpB]].
  destruct (binary_round_aux_pack s mx ex lx Hmx) as [m1 [Hm1 [Hm0 [Hbit [Hex1 ->]]]]].
  set (e1 := Z.max ex (fexp prec emax (Zdigits2 mx + ex))) in *.
  set (m0 := mx / 2 ^ (e1 - ex)) in *.
  assert (Hpow : 0 < 2 ^ (eB - ex)) by (apply Z.pow_pos_nonneg; lia).
  assert (Hmxle : mx <= Zpos pB * 2 ^ (eB - ex)) by lia.
  assert (He1 : e1 <= eB).
  { subst e1. apply Z.max_lub; [exact Hex |].
    rewrite <- Hcan. apply fexp_mono.
    destruct (Z.eq_dec mx 0) as [-> | Hne].
    - cbn [Zdigits2]. pose proof (Zdigits2_log2 (Zpos pB) eq_refl).
      pose proof (Z.log2_nonneg (Zpos pB)). lia.
    - pose proof (Zdigits2_le mx (Zpos pB * 2 ^ (eB - ex)) (conj Hmx Hmxle)) as Hd.
      rewrite Zdigits2_mul_pow2 in Hd by lia. lia. }
  assert (Hk : 0 <= e1 - ex) by (subst e1; lia).
  assert (Hsplit : 2 ^ (eB - ex) = 2 ^ (eB - e1) * 2 ^ (e1 - ex)).
  { rewrite <- Z.pow_add_r by lia. f_equal. lia. }
  assert (Hpk : 0 < 2 ^ (e1 - ex)) by (apply Z.pow_pos_nonneg; lia).
  assert (Hpj : 0 < 2 ^ (eB - e1)) by (apply Z.pow_pos_nonneg; lia).
  assert (Hm1le : m1 <= Zpos pB * 2 ^ (eB - e1)).
  { destruct Hle as [Hlt | [Heq Hloc]].
    - assert (m0 < Zpos pB * 2 ^ (eB - e1)); [| lia].
      subst m0. apply Z.div_lt_upper_bound; [exact Hpk |].
      rewrite Hsplit in Hlt. lia.
    - assert (Hm0eq : m0 = Zpos pB * 2 ^ (eB - e1)).
      { subst m0. rewrite Heq, Hsplit, Z.mul_assoc. apply Z.div_mul. lia. }
      assert (m1 = m0); [| lia].
      destruct (Z.eq_dec e1 ex) as [He | He].
      + apply Hex1; assumption.
      + apply Hbit; [lia |].
        rewrite Heq, Hsplit, Z.mul_assoc.
        apply Z.mul_pow2_bits_low. lia. }
  assert (Hm0' : 0 <= m0) by (subst m0; apply Z.div_pos; lia).
  unfold pack, below.
  destruct (Z.eqb_spec m1 0) as [Hz | Hnz]; [now left |]. right.
  destruct (Z.eqb_spec m1 (2 ^ 53)) as [Htop | Hntop].
  - assert (Hlt : e1 < eB).
    { destruct (Z.eq_dec e1 eB) as [He | He]; [| lia].
      rewrite He, Z.sub_diag in Hm1le. cbn [Z.pow] in Hm1le. lia. }
    destruct (Z.leb_spec (e1 + 1) 971) as [_ | Hbad]; [| lia].
    eexists _, _. split; [reflexivity | split; [lia |]].
    replace (eB - e1) with (Z.succ (eB - (e1 + 1))) in Hm1le by lia.
    rewrite Z.pow_succ_r in Hm1le by lia.
    change (Z.pos (Z.to_pos (2 ^ 52))) with (2 ^ 52). 
    change (2 ^ 53) with (2 * 2 ^ 52) in Htop. lia.
  - destruct (Z.leb_spec e1 971) as [_ | Hbad]; [| lia].
    eexists _, _. split; [reflexivity | split; [exact He1 |]].
    rewrite Z2Pos.id by lia. exact Hm1le.
Qed.

(** A mantissa at least a float rounds to at least that float: no
    underflow to zero, and the sign is kept. *)
Lemma binary_round_aux_above (s : bool) (mx ex : Z) (lx : location)
      (pB : positive) (eB : Z) :
  0 < mx -> bounded prec emax pB eB = true ->
  Zpos pB * 2 ^ (eB - Z.min ex eB) <= mx * 2 ^ (ex - Z.min ex eB) ->
  above s (binary_round_aux prec emax s mx ex lx) pB eB.
Proof.
  intros Hmx Hb Hle.
  destruct (bounded_canonical pB eB Hb) as [Hcan [HeB HpB]].
  destruct (binary_round_aux_pack s mx ex lx (Z.lt_le_incl _ _ Hmx))
    as [m1 [Hm1 [Hm0 [_ [_ ->]]]]].
  set (e1 := Z.max ex (fexp prec emax (Zdigits2 mx + ex))) in *.
  set (m0 := mx / 2 ^ (e1 - ex)) in *.
  assert (Hmag : Zdigits2 (Zpos pB) + eB <= Zdigits2 mx + ex).
  { assert (Hd : Zdigits2 (Zpos pB * 2 ^ (eB - Z.min ex eB))
                 <= Zdigits2 (mx * 2 ^ (ex - Z.min ex eB))).
    { apply Zdigits2_le. split; [| exact Hle].
      apply Z.mul_nonneg_nonneg; [lia | apply Z.pow_nonneg; lia]. }
    rewrite !Zdigits2_mul_pow2 in Hd by lia. lia. }
  assert (He1 : eB <= e1).
  { subst e1. rewrite <- Hcan at 1. pose proof (fexp_mono _ _ Hmag). lia. }
  assert (Hk : 0 <= e1 - ex) by (subst e1; lia).
  assert (Hpk : 0 < 2 ^ (e1 - ex)) by (apply Z.pow_pos_nonneg; lia).
  assert (Hm1pos : 0 < m1 /\ (e1 = eB -> Zpos pB <= m1)).
  { destruct (Z.eq_dec e1 eB) as [Heq | Hne].
    - assert (Zpos pB <= m0); [| lia].
      replace (Z.min ex eB) with ex in Hle by lia.
      rewrite Z.sub_diag, Z.pow_0_r, Z.mul_1_r in Hle.
      subst m0. rewrite Heq. apply Z.div_le_lower_bound; lia.
    - assert (0 < m0); [| lia].
      destruct (Z.eq_dec e1 ex) as [Hex | Hex].
      + subst m0. rewrite Hex, Z.sub_diag, Z.pow_0_r, Z.div_1_r. exact Hmx.
      + assert (Hd0 : Zdigits2 m0 = 53).
        { subst m0. rewrite Zdigits2_shift by lia.
          subst e1. unfold fexp, SpecFloat.emin, prec, emax in *. lia. }
        destruct (Z.eq_dec m0 0) as [Hz | Hnz]; [rewrite Hz in Hd0; discriminate |].
        assert (0 <= m0) by (subst m0; apply Z.div_pos; lia). lia. }
  destruct Hm1pos as [Hpos Hge].
  unfold pack, above.
  destruct (Z.eqb_spec m1 0) as [Hz | Hnz]; [lia |].
  destruct (Z.eqb_spec m1 (2 ^ 53)) as [Htop | Hntop].
  - destruct (Z.leb_spec (e1 + 1) 971) as [_ | _]; [right | now left].
    eexists _, _. split; [reflexivity |]. left. lia.
  - destruct (Z.leb_spec e1 971) as [_ | _]; [right | now left].
    eexists _, _. split; [reflexivity |].
    destruct (Z.eq_dec e1 eB) as [Heq | Hne]; [right | left; lia].
    split; [exact Heq |]. specialize (Hge Heq).
    rewrite Z2Pos.id by lia. exact Hge.
Qed.

Lemma below_shape (s : bool) (x : spec_float) (mB eB : Z) :
  below s x mB eB ->
  SFfin x = true /\ (if s then SFnonpos x else SFnonneg x) = true.
Proof.
  intros [-> | (m & e & -> & _)]; destruct s; split; reflexivity.
Qed.

Lemma above_abs (s : bool) (x : spec_float) (pB : positive) (eB : Z) :
  above s x pB eB -> above false (SFabs x) pB eB.
Proof.
  intros [-> | (m & e & -> & H)]; [now left | right]. cbn [SFabs]. eauto.
Qed.

(** *** Aligned mantissas: sums and differences *)

Lemma iter_xO (d : positive) (m : positive) :
  Zpos (Pos.iter xO m d) = Zpos m * 2 ^ Zpos d.
Proof.
  change (Pos.iter xO m d) with (shift_pos d m).
  rewrite shift_pos_correct, Zpower_pos_nat, Zpower_nat_Z, positive_nat_Z. lia.
Qed.

(** Aligning to a lower exponent keeps the value. *)
Lemma shl_align_spec (mx : positive) (ex ex' : Z) :
  snd (shl_align mx ex ex') = Z.min ex ex' /\
  Zpos (fst (shl_align mx ex ex')) = Zpos mx * 2 ^ (ex - Z.min ex ex').
Proof.
  unfold shl_align. destruct (ex' - ex) as [| d | d] eqn:Hd; cbn [fst snd].
  - replace (Z.min ex ex') with ex by lia. rewrite Z.sub_diag. cbn [Z.pow]. lia.
  - replace (Z.min ex ex') with ex by lia. rewrite Z.sub_diag. cbn [Z.pow]. lia.
  - replace (Z.min ex ex') with ex' by lia. split; [reflexivity |].
    rewrite iter_xO. f_equal. f_equal. lia.
Qed.

Lemma binary_round_shape (s : bool) (m : positive) (e : Z) :
  let r := binary_round prec emax s m e in
  r = S754_zero s \/ (exists m' e', r = S754_finite s m' e') \/ r = S754_infinity s.
Proof.
  unfold binary_round. destruct (shl_align m e _) as [mz ez].
  apply binary_round_aux_shape. lia.
Qed.

Lemma binary_round_below (s : bool) (m : positive) (e : Z) (pB : positive) (eB : Z) :
  bounded prec emax pB eB = true -> e <= eB ->
  Zpos m <= Zpos pB * 2 ^ (eB - e) ->
  below s (binary_round prec emax s m e) (Zpos pB) eB.
Proof.
  intros Hb He Hle. unfold binary_round.
  pose proof (shl_align_spec m e (fexp prec emax (Zpos (digits2_pos m) + e))) as [Hs Hf].
  destruct (shl_align m e (fexp prec emax (Zpos (digits2_pos m) + e))) as [mz ez].
  cbn [fst snd] in Hs, Hf.
  assert (Hez : ez <= e) by lia.
  assert (Hpow : 2 ^ (eB - ez) = 2 ^ (eB - e) * 2 ^ (e - ez)).
  { rewrite <- Z.pow_add_r by lia. f_equal. lia. }
  assert (0 < 2 ^ (e - ez)) by (apply Z.pow_pos_nonneg; lia).
  apply binary_round_aux_below; try assumption; try lia.
  rewrite <- Hs in Hf. rewrite Hf, Hpow.
  destruct (Z.eq_dec (Zpos m) (Zpos pB * 2 ^ (eB - e))) as [Heq | Hne].
  - right. split; [| reflexivity]. rewrite Heq. lia.
  - left. nia.
Qed.

(** The same bounds, with the mantissa and the bound compared on the
    finer of their two grids. *)
Lemma binary_round_below_min (s : bool) (m : positive) (e : Z) (pB : positive) (eB : Z) :
  bounded prec emax pB eB = true ->
  Zpos m * 2 ^ (e - Z.min e eB) <= Zpos pB * 2 ^ (eB - Z.min e eB) ->
  below s (binary_round prec emax s m e) (Zpos pB) eB.
Proof.
  intros Hb Hle. destruct (bounded_canonical pB eB Hb) as [Hcan _].
  assert (Hmag : Zdigits2 (Zpos m) + e <= Zdigits2 (Zpos pB) + eB).
  { assert (Hd : Zdigits2 (Zpos m * 2 ^ (e - Z.min e eB))
                 <= Zdigits2 (Zpos pB * 2 ^ (eB - Z.min e eB))).
    { apply Zdigits2_le. split; [| exact Hle].
      apply Z.mul_nonneg_nonneg; [lia | apply Z.pow_nonneg; lia]. }
    rewrite !Zdigits2_mul_pow2 in Hd by lia. lia. }
  unfold binary_round.
  pose proof (shl_align_spec m e (fexp prec emax (Zpos (digits2_pos m) + e))) as [Hs Hf].
  destruct (shl_align m e (fexp prec emax (Zpos (digits2_pos m) + e))) as [mz ez].
  cbn [fst snd] in Hs, Hf. rewrite <- Hs in Hf.
  change (Zpos (digits2_pos m)) with (Zdigits2 (Zpos m)) in Hs.
  pose proof (fexp_mono _ _ Hmag) as Hfe. rewrite Hcan in Hfe.
  assert (Hez : ez <= e /\ ez <= eB) by lia.
  set (k := Z.min e eB) in *.
  assert (H1 : 2 ^ (eB - ez) = 2 ^ (eB - k) * 2 ^ (k - ez)).
  { rewrite <- pow2_add by (subst k; lia). f_equal. lia. }
  assert (H2 : 2 ^ (e - ez) = 2 ^ (e - k) * 2 ^ (k - ez)).
  { rewrite <- pow2_add by (subst k; lia). f_equal. lia. }
  assert (H3 : 0 < 2 ^ (k - ez)) by (apply Z.pow_pos_nonneg; subst k; lia).
  apply binary_round_aux_below; [lia | exact Hb | lia |].
  rewrite Hf, H1, H2.
  destruct (Z.eq_dec (Zpos m * 2 ^ (e - k)) (Zpos pB * 2 ^ (eB - k))) as [Heq | Hne].
  - right. split; [| reflexivity]. rewrite !Z.mul_assoc. now rewrite Heq.
  - left. rewrite !Z.mul_assoc. nia.
Qed.

Lemma binary_round_above (s : bool) (m : positive) (e : Z) (pB : positive) (eB : Z) :
  bounded prec emax pB eB = true ->
  Zpos pB * 2 ^ (eB - Z.min e eB) <= Zpos m * 2 ^ (e - Z.min e eB) ->
  above s (binary_round prec emax s m e) pB eB.
Proof.
  intros Hb Hle. unfold binary_round.
  pose proof (shl_align_spec m e (fexp prec emax (Zpos (digits2_pos m) + e))) as [Hs Hf].
  destruct (shl_align m e (fexp prec emax (Zpos (digits2_pos m) + e))) as [mz ez].
  cbn [fst snd] in Hs, Hf. rewrite <- Hs in Hf.
  assert (Hez : ez <= e) by lia.
  apply binary_round_aux_above; [lia | exact Hb |].
  rewrite Hf.
  set (k := Z.min e eB) in *. set (k' := Z.min ez eB).
  assert (Hkk : k' <= k) by (subst k k'; lia).
  assert (H1 : 2 ^ (eB - k') = 2 ^ (eB - k) * 2 ^ (k - k')).
  { rewrite <- pow2_add by (subst k k'; lia). f_equal. lia. }
  assert (H2 : 2 ^ (e - ez) * 2 ^ (ez - k') = 2 ^ (e - k) * 2 ^ (k - k')).
  { rewrite <- !pow2_add by (subst k k'; lia). f_equal. lia. }
  assert (H3 : 0 < 2 ^ (k - k')) by (apply Z.pow_pos_nonneg; lia).
  rewrite H1, <- Z.mul_assoc, H2. nia.
Qed.

Lemma binary_normalize_below (D e : Z) (sz : bool) (pB : positive) (eB : Z) :
  bounded prec emax pB eB = true -> e <= eB ->
  Z.abs D <= Zpos pB * 2 ^ (eB - e) ->
  below (if D =? 0 then sz else D <? 0) (binary_normalize prec emax D e sz) (Zpos pB) eB.
Proof.
  intros Hb He Hle. destruct D as [| p | p]; cbn [binary_normalize Z.eqb Z.ltb Z.compare].
  - now left.
  - apply binary_round_below; assumption.
  - apply binary_round_below; assumption.
Qed.

Lemma binary_normalize_below_min (D e : Z) (sz : bool) (pB : positive) (eB : Z) :
  bounded prec emax pB eB = true ->
  Z.abs D * 2 ^ (e - Z.min e eB) <= Zpos pB * 2 ^ (eB - Z.min e eB) ->
  below (if D =? 0 then sz else D <? 0) (binary_normalize prec emax D e sz) (Zpos pB) eB.
Proof.
  intros Hb Hle. destruct D as [| p | p]; cbn [binary_normalize Z.eqb Z.ltb Z.compare].
  - now left.
  - apply binary_round_below_min; assumption.
  - apply binary_round_below_min; assumption.
Qed.

Lemma binary_normalize_above (D e : Z) (sz : bool) (pB : positive) (eB : Z) :
  bounded prec emax pB eB = true ->
  Zpos pB * 2 ^ (eB - Z.min e eB) <= Z.abs D * 2 ^ (e - Z.min e eB) ->
  above (D <? 0) (binary_normalize prec emax D e sz) pB eB.
Proof.
  intros Hb Hle.
  assert (0 < 2 ^ (eB - Z.min e eB)) by (apply Z.pow_pos_nonneg; lia).
  destruct D as [| p | p]; cbn [binary_normalize Z.ltb Z.compare].
  - cbn [Z.abs] in Hle. lia.
  - now apply binary_round_above.
  - now apply binary_round_above.
Qed.

Lemma binary_normalize_not_nan (D e : Z) (sz : bool) :
  binary_normalize prec emax D e sz <> S754_nan.
Proof.
  assert (Hr : forall s p, binary_round prec emax s p e <> S754_nan).
  { intros s p. unfold binary_round.
    destruct (shl_align p e _) as [mz ez].
    destruct (binary_round_aux_shape s (Zpos mz) ez loc_Exact ltac:(lia))
      as [-> | [(m' & e' & ->) | ->]]; discriminate. }
  destruct D as [| p | p]; cbn [binary_normalize]; [discriminate | apply Hr | apply Hr].
Qed.

Lemma binary_normalize_pos (D e : Z) (sz : bool) :
  0 <= D -> SFge0 (binary_normalize prec emax D e sz) = true.
Proof.
  intro HD. destruct D as [| p | p]; [reflexivity | | lia]. cbn [binary_normalize].
  destruct (binary_round_shape false p e) as [-> | [(m' & e' & ->) | ->]]; reflexivity.
Qed.

Lemma binary_normalize_neg (D e : Z) (sz : bool) :
  D <= 0 -> SFle0 (binary_normalize prec emax D e sz) = true.
Proof.
  intro HD. destruct D as [| p | p]; [reflexivity | lia |]. cbn [binary_normalize].
  destruct (binary_round_shape true p e) as [-> | [(m' & e' & ->) | ->]]; reflexivity.
Qed.

Lemma below_fin (D e : Z) (pB : positive) (eB : Z) :
  bounded prec emax pB eB = true -> e <= eB ->
  Z.abs D <= Zpos pB * 2 ^ (eB - e) ->
  SFfin (binary_normalize prec emax D e false) = true.
Proof.
  intros Hb He Hle.
  apply (below_shape (if D =? 0 then false else D <? 0) _ (Zpos pB) eB).
  now apply binary_normalize_below.
Qed.

(** Sums and differences of finite floats, on aligned mantissas. *)
Lemma SFsub_finite (sx sy : bool) (mx my : positive) (ex ey : Z) :
  let ez := Z.min ex ey in
  SFsub prec emax (S754_finite sx mx ex) (S754_finite sy my ey) =
  binary_normalize prec emax
    (cond_Zopp sx (Zpos mx * 2 ^ (ex - ez)) - cond_Zopp sy (Zpos my * 2 ^ (ey - ez)))
    ez false.
Proof.
  intro ez. cbn [SFsub]. fold ez.
  destruct (shl_align_spec mx ex ez) as [_ Hx].
  destruct (shl_align_spec my ey ez) as [_ Hy].
  replace (Z.min ex ez) with ez in Hx by (subst ez; lia).
  replace (Z.min ey ez) with ez in Hy by (subst ez; lia).
  now rewrite Hx, Hy.
Qed.

Lemma SFadd_finite (sx sy : bool) (mx my : positive) (ex ey : Z) :
  let ez := Z.min ex ey in
  SFadd prec emax (S754_finite sx mx ex) (S754_finite sy my ey) =
  binary_normalize prec emax
    (cond_Zopp sx (Zpos mx * 2 ^ (ex - ez)) + cond_Zopp sy (Zpos my * 2 ^ (ey - ez)))
    ez false.
Proof.
  intro ez. cbn [SFadd]. fold ez.
  destruct (shl_align_spec mx ex ez) as [_ Hx].
  destruct (shl_align_spec my ey ez) as [_ Hy].
  replace (Z.min ex ez) with ez in Hx by (subst ez; lia).
  replace (Z.min ey ez) with ez in Hy by (subst ez; lia).
  now rewrite Hx, Hy.
Qed.

Lemma SFadd_not_nan (x y : spec_float) :
  x <> S754_nan -> SFfin y = true -> SFadd prec emax x y <> S754_nan.
Proof.
  destruct x as [sx | sx | | sx mx ex], y as [sy | sy | | sy my ey];
    try discriminate; intros Hx _; try contradiction;
    try (cbn [SFadd]; discriminate);
    try (cbn [SFadd]; destruct sx, sy; discriminate).
  rewrite SFadd_finite. apply binary_normalize_not_nan.
Qed.

(** *** Products and quotients *)

(** A product at most a float rounds to at most that float. *)
Lemma SFmul_below (sx sy : bool) (mx my : positive) (ex ey : Z)
      (pB : positive) (eB : Z) :
  bounded prec emax pB eB = true -> ex + ey <= eB ->
  Zpos mx * Zpos my <= Zpos pB * 2 ^ (eB - (ex + ey)) ->
  below (xorb sx sy)
        (SFmul prec emax (S754_finite sx mx ex) (S754_finite sy my ey)) (Zpos pB) eB.
Proof.
  intros Hb He Hle. cbn [SFmul].
  apply binary_round_aux_below; try assumption; try lia.
  rewrite Pos2Z.inj_mul.
  destruct (Z.eq_dec (Zpos mx * Zpos my) (Zpos pB * 2 ^ (eB - (ex + ey)))); [right | left];
    [split; [assumption | reflexivity] | lia].
Qed.

Lemma SFmul_fin_not_nan (x y : spec_float) :
  SFfin x = true -> SFfin y = true -> SFmul prec emax x y <> S754_nan.
Proof.
  destruct x as [sx | sx | | sx mx ex], y as [sy | sy | | sy my ey];
    try discriminate; intros _ _; cbn [SFmul]; try discriminate.
  destruct (binary_round_aux_shape (xorb sx sy) (Zpos (mx * my)) (ex + ey) loc_Exact
              ltac:(lia)) as [-> | [(m' & e' & ->) | ->]]; discriminate.
Qed.

Lemma SFmul_signs (x y : spec_float) :
  SFnonneg x = true -> SFnonpos y = true -> SFle0 (SFmul prec emax x y) = true.
Proof.
  destruct x as [sx | sx | | [] mx ex], y as [sy | sy | | [] my ey];
    try discriminate; intros _ _; cbn [SFmul]; try reflexivity.
  destruct (binary_round_aux_shape (xorb false true) (Zpos (mx * my)) (ex + ey) loc_Exact
              ltac:(lia)) as [-> | [(m' & e' & ->) | ->]]; reflexivity.
Qed.

Lemma SFmul_nonneg (x y : spec_float) :
  SFnonneg x = true -> SFnonneg y = true -> SFge0 (SFmul prec emax x y) = true.
Proof.
  destruct x as [sx | sx | | [] mx ex], y as [sy | sy | | [] my ey];
    try discriminate; intros _ _; cbn [SFmul]; try reflexivity.
  destruct (binary_round_aux_shape (xorb false false) (Zpos (mx * my)) (ex + ey) loc_Exact
              ltac:(lia)) as [-> | [(m' & e' & ->) | ->]]; reflexivity.
Qed.

Lemma SFmul_zero_fin (s : bool) (y : spec_float) :
  SFfin y = true -> SFle0 (SFmul prec emax (S754_zero s) y) = true.
Proof. destruct y as [sy | sy | | sy m e]; try discriminate; reflexivity. Qed.

(** A weight of at most [1] keeps a finite float finite. *)
Lemma SFmul_weight (mc : positive) (ec : Z) (x : spec_float) :
  ec <= 0 -> Zpos mc <= 2 ^ (- ec) ->
  valid_binary x = true -> SFfin x = true ->
  SFfin (SFmul prec emax (S754_finite false mc ec) x) = true.
Proof.
  intros Hec Hmc Hv Hf. destruct x as [s | s | | s m e]; try discriminate; [reflexivity |].
  cbn [valid_binary] in Hv.
  apply (below_shape (xorb false s) _ (Zpos m) e).
  apply SFmul_below; [exact Hv | lia |].
  replace (e - (ec + e)) with (- ec) by lia. nia.
Qed.

Lemma SFmul_square_not_nan (x : spec_float) :
  x <> S754_nan -> SFmul prec emax x x <> S754_nan.
Proof.
  destruct x as [s | s | | s m e]; intro Hx; try contradiction; cbn [SFmul]; try discriminate.
  destruct (binary_round_aux_shape (xorb s s) (Zpos (m * m)) (e + e) loc_Exact
              ltac:(lia)) as [-> | [(m' & e' & ->) | ->]]; discriminate.
Qed.

(** A quotient at most a float rounds to at most that float. *)
Lemma SFdiv_below (sx sy : bool) (mx my : positive) (ex ey : Z)
      (pB : positive) (eB : Z) :
  let e' := Z.min (fexp prec emax (Zdigits2 (Zpos mx) + ex - (Zdigits2 (Zpos my) + ey)))
                  (ex - ey) in
  bounded prec emax pB eB = true -> e' <= eB ->
  Zpos mx * 2 ^ (ex - ey - e') <= Zpos pB * 2 ^ (eB - e') * Zpos my ->
  below (xorb sx sy)
        (SFdiv prec emax (S754_finite sx mx ex) (S754_finite sy my ey)) (Zpos pB) eB.
Proof.
  intros e' Hb He Hle. cbn [SFdiv]. unfold SFdiv_core_binary. fold e'.
  assert (Hs : 0 <= ex - ey - e') by (subst e'; lia).
  set (m' := match ex - ey - e' with
             | 0 => Zpos mx
             | Zpos _ => Z.shiftl (Zpos mx) (ex - ey - e')
             | Zneg _ => 0
             end).
  assert (Hm' : m' = Zpos mx * 2 ^ (ex - ey - e')).
  { subst m'. destruct (ex - ey - e') as [| p | p] eqn:Hp.
    - cbn [Z.pow]. lia.
    - now rewrite Z.shiftl_mul_pow2 by lia.
    - lia. }
  clearbody m'.
  pose proof (Z_div_mod m' (Zpos my) eq_refl) as Hdm.
  destruct (Z.div_eucl m' (Zpos my)) as [q r]. destruct Hdm as [Hq Hr].
  assert (Hpow : 0 < 2 ^ (ex - ey - e')) by (apply Z.pow_pos_nonneg; lia).
  assert (Hpj : 0 < 2 ^ (eB - e')) by (apply Z.pow_pos_nonneg; lia).
  assert (Hq0 : 0 <= q) by nia.
  apply binary_round_aux_below; try assumption.
  destruct (Z_lt_le_dec q (Zpos pB * 2 ^ (eB - e'))) as [Hlt | Hge]; [now left | right].
  assert (Hr0 : r = 0) by nia.
  split; [nia |]. subst r. unfold new_location.
  destruct (Z.even (Zpos my)); reflexivity.
Qed.

(** A quotient whose integer part is at least a float rounds to at least
    that float. *)
Lemma SFdiv_above (sx sy : bool) (mx my : positive) (ex ey : Z)
      (pB : positive) (eB : Z) :
  let e' := Z.min (fexp prec emax (Zdigits2 (Zpos mx) + ex - (Zdigits2 (Zpos my) + ey)))
                  (ex - ey) in
  bounded prec emax pB eB = true ->
  Zpos pB * 2 ^ (eB - Z.min e' eB)
  <= Zpos mx * 2 ^ (ex - ey - e') / Zpos my * 2 ^ (e' - Z.min e' eB) ->
  above (xorb sx sy)
        (SFdiv prec emax (S754_finite sx mx ex) (S754_finite sy my ey)) pB eB.
Proof.
  intros e' Hb Hle. cbn [SFdiv]. unfold SFdiv_core_binary. fold e'.
  assert (Hs : 0 <= ex - ey - e') by (subst e'; lia).
  set (m' := match ex - ey - e' with
             | 0 => Zpos mx
             | Zpos _ => Z.shiftl (Zpos mx) (ex - ey - e')
             | Zneg _ => 0
             end).
  assert (Hm' : m' = Zpos mx * 2 ^ (ex - ey - e')).
  { subst m'. destruct (ex - ey - e') as [| p | p] eqn:Hp.
    - cbn [Z.pow]. lia.
    - now rewrite Z.shiftl_mul_pow2 by lia.
    - lia. }
  clearbody m'. rewrite <- Hm' in Hle.
  assert (Hq : fst (Z.div_eucl m' (Zpos my)) = m' / Zpos my) by reflexivity.
  destruct (Z.div_eucl m' (Zpos my)) as [q r]. cbn [fst] in Hq. rewrite <- Hq in Hle.
  assert (Hpj : 0 < 2 ^ (eB - Z.min e' eB)) by (apply Z.pow_pos_nonneg; lia).
  assert (Hpk : 0 < 2 ^ (e' - Z.min e' eB)) by (apply Z.pow_pos_nonneg; lia).
  apply binary_round_aux_above; [nia | exact Hb | exact Hle].
Qed.

(** The quotient of two mantissas, canonical or not, is a float in normal
    form: [of_Q] returns the float [SFdiv] computes. *)
Lemma SFdiv_valid (sx sy : bool) (mx my : positive) (ex ey : Z) :
  valid_binary (SFdiv prec emax (S754_finite sx mx ex) (S754_finite sy my ey)) = true.
Proof.
  cbn [SFdiv]. unfold SFdiv_core_binary.
  set (d1 := Zdigits2 (Zpos mx)). set (d2 := Zdigits2 (Zpos my)).
  set (e' := Z.min (fexp prec emax (d1 + ex - (d2 + ey))) (ex - ey)).
  assert (Hs : 0 <= ex - ey - e') by (subst e'; lia).
  set (m' := match ex - ey - e' with
             | 0 => Zpos mx
             | Zpos _ => Z.shiftl (Zpos mx) (ex - ey - e')
             | Zneg _ => 0
             end).
  assert (Hm' : m' = Zpos mx * 2 ^ (ex - ey - e')).
  { subst m'. destruct (ex - ey - e') as [| p | p] eqn:Hp.
    - cbn [Z.pow]. lia.
    - now rewrite Z.shiftl_mul_pow2 by lia.
    - lia. }
  clearbody m'.
  pose proof (Z_div_mod m' (Zpos my) eq_refl) as Hdm.
  destruct (Z.div_eucl m' (Zpos my)) as [q r] eqn:Hqr. destruct Hdm as [Hq Hr].
  assert (Hpow : 0 < 2 ^ (ex - ey - e')) by (apply Z.pow_pos_nonneg; lia).
  assert (Hq0 : 0 <= q) by nia.
  apply binary_round_aux_valid; [exact Hq0 |].
  assert (Hdq : d1 + (ex - ey - e') - d2 <= Zdigits2 q).
  { destruct (Z_le_gt_dec (d1 + (ex - ey - e') - d2) 0) as [Hneg | Hpos].
    - pose proof (Zdigits2_nonneg q). lia.
    - set (k := d1 + (ex - ey - e') - d2 - 1) in *.
      assert (Hk : 0 <= k) by lia.
      assert (H1 : 2 ^ (d1 - 1) <= Zpos mx).
      { subst d1. rewrite Zdigits2_log2 by lia.
        replace (Z.log2 (Zpos mx) + 1 - 1) with (Z.log2 (Zpos mx)) by lia.
        apply Z.log2_spec. lia. }
      assert (H2 : Zpos my < 2 ^ d2).
      { apply Zdigits2_lt_pow2; [lia | apply Zdigits2_nonneg | subst d2; lia]. }
      assert (Hd1 : 1 <= d1) by (subst d1; rewrite Zdigits2_log2 by lia;
                                 pose proof (Z.log2_nonneg (Zpos mx)); lia).
      assert (H3 : 2 ^ k * 2 ^ d2 = 2 ^ (d1 - 1) * 2 ^ (ex - ey - e')).
      { rewrite <- !pow2_add by (subst d2; pose proof (Zdigits2_nonneg (Zpos my)); lia).
        f_equal. subst k. lia. }
      assert (Hpk : 0 < 2 ^ k) by (apply Z.pow_pos_nonneg; lia).
      assert (Hqk : 2 ^ k <= q).
      { assert (Zpos my * 2 ^ k <= m') by nia.
        assert (Hqq : q = m' / Zpos my).
        { unfold Z.div. now rewrite Hqr. }
        rewrite Hqq. apply Z.div_le_lower_bound; lia. }
      assert (Hl : k <= Z.log2 q) by (apply Z.log2_le_pow2; lia).
      rewrite Zdigits2_log2 by lia. subst k. lia. }
  subst e'. set (t := d1 + ex - (d2 + ey)) in *.
  pose proof (fexp_mono t (Zdigits2 q + Z.min (fexp prec emax t) (ex - ey))) as Hmono.
  lia.
Qed.

Lemma SFdiv_pos_shape (mx my : positive) (ex ey : Z) :
  SFge0 (SFdiv prec emax (S754_finite false mx ex) (S754_finite false my ey)) = true.
Proof.
  cbn [SFdiv]. destruct (SFdiv_core_binary prec emax (Zpos mx) ex (Zpos my) ey)
    as [[q e'] l] eqn:Hc.
  assert (Hq : 0 <= q).
  { unfold SFdiv_core_binary in Hc.
    set (m' := match _ with 0 => Zpos mx | Zpos _ => _ | Zneg _ => 0 end) in Hc.
    assert (Hm' : 0 <= m').
    { subst m'. destruct (_ - _ - _); try lia. apply Z.shiftl_nonneg. lia. }
    pose proof (Z_div_mod m' (Zpos my) eq_refl) as Hdm.
    destruct (Z.div_eucl m' (Zpos my)) as [q0 r0]. injection Hc as <- _ _. nia. }
  destruct (binary_round_aux_shape (xorb false false) q e' l Hq)
    as [-> | [(m1 & e1 & ->) | ->]]; reflexivity.
Qed.

Lemma SFdiv_neg_shape (mx my : positive) (ex ey : Z) :
  SFle0 (SFdiv prec emax (S754_finite true mx ex) (S754_finite false my ey)) = true.
Proof.
  cbn [SFdiv]. destruct (SFdiv_core_binary prec emax (Zpos mx) ex (Zpos my) ey)
    as [[q e'] l] eqn:Hc.
  assert (Hq : 0 <= q).
  { unfold SFdiv_core_binary in Hc.
    set (m' := match _ with 0 => Zpos mx | Zpos _ => _ | Zneg _ => 0 end) in Hc.
    assert (Hm' : 0 <= m').
    { subst m'. destruct (_ - _ - _); try lia. apply Z.shiftl_nonneg. lia. }
    pose proof (Z_div_mod m' (Zpos my) eq_refl) as Hdm.
    destruct (Z.div_eucl m' (Zpos my)) as [q0 r0]. injection Hc as <- _ _. nia. }
  destruct (binary_round_aux_shape (xorb true false) q e' l Hq)
    as [-> | [(m1 & e1 & ->) | ->]]; reflexivity.
Qed.

Lemma SFdiv_ge0 (x : spec_float) (m : positive) (e : Z) :
  SFge0 x = true -> SFge0 (SFdiv prec emax x (S754_finite false m e)) = true.
Proof.
  destruct x as [sx | [] | | [] mx ex]; try discriminate; intros _;
    try reflexivity.
  apply SFdiv_pos_shape.
Qed.

(** A quotient by a divisor of at least [1] is no larger than the dividend. *)
Lemma SFdiv_shrinks (m my : positive) (e ey : Z) :
  bounded prec emax m e = true -> ey <= 0 ->
  1 <= Zdigits2 (Zpos my) + ey -> 2 ^ (- ey) <= Zpos my ->
  SFnonneg (SFdiv prec emax (S754_finite false m e) (S754_finite false my ey)) = true.
Proof.
  intros Hb Hey Hd Hmy.
  destruct (bounded_canonical m e Hb) as [Hc _].
  apply (below_shape (xorb false false) _ (Zpos m) e).
  apply SFdiv_below; [exact Hb | |].
  - pose proof (fexp_mono (Zdigits2 (Zpos m) + e - (Zdigits2 (Zpos my) + ey))
                          (Zdigits2 (Zpos m) + e) ltac:(lia)). lia.
  - set (e' := Z.min _ _).
    assert (He' : e' <= e).
    { subst e'.
      pose proof (fexp_mono (Zdigits2 (Zpos m) + e - (Zdigits2 (Zpos my) + ey))
                            (Zdigits2 (Zpos m) + e) ltac:(lia)). lia. }
    assert (He'' : e' <= e - ey) by (subst e'; lia).
    replace (e - ey - e') with (- ey + (e - e')) by lia.
    rewrite pow2_add by lia.
    assert (0 < 2 ^ (e - e')) by (apply Z.pow_pos_nonneg; lia).
    assert (0 < 2 ^ (- ey)) by (apply Z.pow_pos_nonneg; lia).
    nia.
Qed.

(** *** The rational a float denotes *)

(** The value of a finite float, scaled to an integer. *)
Lemma to_Q_finite (x : float) (s : bool) (m : positive) (e : Z) (q : Q) (j : Z) :
  Prim2SF x = S754_finite s m e -> to_Q x = Some q -> 0 <= j -> 0 <= e + j ->
  (q * inject_Z (2 ^ j) == inject_Z (cond_Zopp s (Zpos m) * 2 ^ (e + j)))%Q.
Proof.
  intros Hx Hq Hj Hej. unfold to_Q in Hq. rewrite Hx in Hq. injection Hq as <-.
  assert (Hn : (if s then Zneg m else Zpos m) = cond_Zopp s (Zpos m)) by now destruct s.
  rewrite Hn. clear Hn. set (n := cond_Zopp s (Zpos m)). clearbody n.
  destruct e as [| p | p].
  - rewrite <- inject_Z_mult. reflexivity.
  - rewrite <- inject_Z_mult. change (Z.pow_pos 2 p) with (2 ^ Zpos p).
    rewrite pow2_add by lia. now rewrite Z.mul_assoc.
  - unfold Qeq, Qmult, inject_Z. cbn [Qnum Qden].
    rewrite Pos.mul_1_r, Z.mul_1_r, Pos2Z.inj_pow, <- Z.mul_assoc.
    f_equal. rewrite <- pow2_add by lia. f_equal. lia.
Qed.

Lemma to_Q_nonneg (y : float) (q : Q) :
  SFge0 (Prim2SF y) = true -> to_Q y = Some q ->
  (0 <= q)%Q /\ SFnonneg (Prim2SF y) = true.
Proof.
  unfold to_Q. destruct (Prim2SF y) as [s | s | | [] m e]; try discriminate;
    intros _ Hq; injection Hq as <-; (split; [| reflexivity]).
  - apply Qle_refl.
  - destruct e as [| p | p].
    + change 0%Q with (inject_Z 0). rewrite <- Zle_Qle. lia.
    + change 0%Q with (inject_Z 0). rewrite <- Zle_Qle.
      match goal with
      | |- (0 <= ?t)%Z => change t with (Zpos m * 2 ^ Zpos p)
      end.
      apply Z.mul_nonneg_nonneg; [lia | apply Z.pow_nonneg; lia].
    + unfold Qle. cbn [Qnum Qden]. lia.
Qed.

Lemma to_Q_nonpos (z : float) (q : Q) :
  SFle0 (Prim2SF z) = true -> to_Q z = Some q -> (q <= 0)%Q.
Proof.
  unfold to_Q. destruct (Prim2SF z) as [s | s | | [] m e]; try discriminate;
    intros _ Hq; injection Hq as <-.
  - apply Qle_refl.
  - destruct e as [| p | p].
    + change 0%Q with (inject_Z 0). rewrite <- Zle_Qle. lia.
    + change 0%Q with (inject_Z 0). rewrite <- Zle_Qle.
      match goal with
      | |- (?t <= 0)%Z => change t with (Zneg m * 2 ^ Zpos p)
      end.
      apply Z.mul_nonpos_nonneg; [lia | apply Z.pow_nonneg; lia].
    + unfold Qle. cbn [Qnum Qden]. lia.
Qed.

Lemma to_Q_positive (x : float) (q : Q) :
  to_Q x = Some q -> (0 < q)%Q -> exists m e, Prim2SF x = S754_finite false m e.
Proof.
  intros Hq Hpos.
  destruct (Prim2SF x) as [s | s | | [] m e] eqn:Hx.
  - assert (q <= 0)%Q by (apply (to_Q_nonpos x q); [now rewrite Hx | exact Hq]). lra.
  - unfold to_Q in Hq. rewrite Hx in Hq. discriminate.
  - unfold to_Q in Hq. rewrite Hx in Hq. discriminate.
  - assert (q <= 0)%Q by (apply (to_Q_nonpos x q); [now rewrite Hx | exact Hq]). lra.
  - eauto.
Qed.

(** *** Decimal literals, and rounding to two decimals *)

(** The float of a positive rational is the rounded quotient of its
    numerator by its denominator. *)
Lemma of_Q_pos (r : Q) (n : positive) :
  Qnum r = Zpos n ->
  Prim2SF (of_Q r) =
  SFdiv prec emax (S754_finite false n 0) (S754_finite false (Qden r) 0).
Proof.
  intro Hn. unfold of_Q. rewrite Hn. apply Prim2SF_SF2Prim, SFdiv_valid.
Qed.

Lemma of_Q_neg (r : Q) (n : positive) :
  Qnum r = Zneg n ->
  Prim2SF (of_Q r) =
  SFdiv prec emax (S754_finite true n 0) (S754_finite false (Qden r) 0).
Proof.
  intro Hn. unfold of_Q. rewrite Hn. apply Prim2SF_SF2Prim, SFdiv_valid.
Qed.

Lemma of_Q_below (n : positive) (pB : positive) (eB : Z) :
  bounded prec emax pB eB = true -> 0 <= eB ->
  Zpos n <= Zpos pB * 2 ^ eB * 100 ->
  SFfin (Prim2SF (of_Q (Zpos n # 100))) = true.
Proof.
  intros Hb HeB Hle. rewrite (of_Q_pos (Zpos n # 100) n eq_refl). cbn [Qden].
  apply (below_shape (xorb false false) _ (Zpos pB) eB).
  apply SFdiv_below; [exact Hb | lia |].
  set (e' := Z.min _ _).
  assert (He' : e' <= 0) by (subst e'; lia).
  replace (0 - 0 - e') with (- e') by lia.
  replace (eB - e') with (eB + - e') by lia. rewrite pow2_add by lia.
  assert (0 < 2 ^ (- e')) by (apply Z.pow_pos_nonneg; lia). nia.
Qed.

(** A negative number of hundredths is a negative float, never a zero. *)
Lemma of_Q_neg_shape (n : positive) :
  SFneg (Prim2SF (of_Q (Zneg n # 100))) = true.
Proof.
  rewrite (of_Q_neg (Zneg n # 100) n eq_refl). cbn [Qden].
  assert (Hab : above (xorb true false)
                  (SFdiv prec emax (S754_finite true n 0) (S754_finite false 100 0))
                  1 (-1074)).
  { apply SFdiv_above; [reflexivity |].
    change (Zdigits2 100) with 7.
    set (e' := Z.min (fexp prec emax _) (0 - 0)).
    assert (He' : -1074 <= e' <= 0).
    { subst e'. unfold fexp, SpecFloat.emin, prec, emax. lia. }
    replace (Z.min e' (-1074)) with (-1074) by lia.
    replace (0 - 0 - e') with (- e') by lia.
    change (2 ^ (-1074 - -1074)) with 1.
    assert (Hq : 1 <= Zpos n * 2 ^ (- e') / 100).
    { apply Z.div_le_lower_bound; [lia |].
      destruct (Z_lt_le_dec (Zpos n) 100) as [Hlt | Hge].
      - assert (Hd : Zdigits2 (Zpos n) <= 7).
        { apply Zdigits2_lt_pow2; [lia | lia | change (2 ^ 7) with 128; lia]. }
        assert (He53 : e' <= -53).
        { subst e'. unfold fexp, SpecFloat.emin, prec, emax. lia. }
        assert (2 ^ 53 <= 2 ^ (- e')) by (apply Z.pow_le_mono_r; lia).
        change (2 ^ 53) with 9007199254740992 in *. nia.
      - assert (0 < 2 ^ (- e')) by (apply Z.pow_pos_nonneg; lia).
        nia. }
    assert (0 < 2 ^ (e' - -1074)) by (apply Z.pow_pos_nonneg; lia).
    nia. }
  destruct Hab as [-> | (m & e & -> & _)]; reflexivity.
Qed.

Lemma Qround_2_num (q : Q) :
  (0 <= q)%Q -> 0 <= Qnum (Qround_ndigits q 2) /\ Qden (Qround_ndigits q 2) = 100%positive.
Proof.
  intro Hq. split; [| reflexivity].
  unfold Qround_ndigits. cbn [Qnum]. apply ExactFormulas.round_half_even_nonneg.
  change (inject_Z (Zpos (Nat.iter 2 (Pos.mul 10) 1%positive))) with (100 # 1)%Q.
  lra.
Qed.

Lemma Qround_2_form (q : Q) :
  Qround_ndigits q 2 = (Qnum (Qround_ndigits q 2) # 100)%Q.
Proof. reflexivity. Qed.

(** A whole number of hundredths is its own rounding. *)
Lemma round_half_even_inject (k : Z) :
  round_half_even (inject_Z k * inject_Z 100) = k * 100.
Proof.
  unfold round_half_even. cbv zeta.
  assert (Hf : Qfloor (inject_Z k * inject_Z 100) = k * 100).
  { rewrite <- (Qfloor_Z (k * 100)). apply Qfloor_comp. now rewrite inject_Z_mult. }
  rewrite Hf.
  assert (Hc : (inject_Z k * inject_Z 100 - inject_Z (k * 100) ?= 1 # 2)%Q = Lt).
  { apply Qlt_alt.
    setoid_replace (inject_Z k * inject_Z 100 - inject_Z (k * 100))%Q with 0%Q
      by (rewrite inject_Z_mult; ring).
    reflexivity. }
  now rewrite Hc.
Qed.

(** Rounding to two decimals keeps a float that is not negative so. *)
Lemma b64_round_ge0 (y : float) :
  SFge0 (Prim2SF y) = true -> SFge0 (Prim2SF (b64_round y 2)) = true.
Proof.
  intro Hy. unfold b64_round. destruct (to_Q y) as [q |] eqn:Hq; [| exact Hy].
  destruct (to_Q_nonneg y q Hy Hq) as [Hq0 Hnn].
  destruct (Qround_2_num q Hq0) as [Hr Hd].
  destruct (Qnum (Qround_ndigits q 2)) as [| n | n] eqn:Hn; [| | lia].
  - rewrite mul_spec. unfold SF64mul.
    replace (Prim2SF zero) with (S754_zero false) by (vm_compute; reflexivity).
    destruct (Prim2SF y) as [s | s | | [] m e]; try discriminate; reflexivity.
  - rewrite (of_Q_pos _ n Hn). apply SFdiv_pos_shape.
Qed.

(** Rounding to two decimals keeps a finite float finite. *)
Lemma b64_round_fin (y : float) :
  SFnonneg (Prim2SF y) = true -> SFfin (Prim2SF (b64_round y 2)) = true.
Proof.
  intro Hy. pose proof (Prim2SF_valid y) as Hv.
  assert (Hzero : forall s, Prim2SF y = S754_zero s \/
                    (exists m e, Prim2SF y = S754_finite false m e) ->
                  SFfin (Prim2SF (PrimFloat.mul y zero)) = true).
  { intros s _. rewrite mul_spec. unfold SF64mul.
    replace (Prim2SF zero) with (S754_zero false) by (vm_compute; reflexivity).
    destruct (Prim2SF y) as [s' | s' | | [] m e]; try discriminate; reflexivity. }
  unfold b64_round, to_Q.
  destruct (Prim2SF y) as [s | s | | [] m e] eqn:Hx; try discriminate.
  - change (Qnum (Qround_ndigits 0 2)) with 0. cbv iota. apply (Hzero s). now left.
  - cbn [valid_binary] in Hv. destruct (bounded_canonical m e Hv) as [_ [_ Hm]].
    assert (Hint : forall k : positive, 0 <= e -> Zpos k = Zpos m * 2 ^ e ->
              SFfin (Prim2SF match Qnum (Qround_ndigits (inject_Z (Zpos k)) 2) with
                             | 0 => PrimFloat.mul y zero
                             | _ => of_Q (Qround_ndigits (inject_Z (Zpos k)) 2)
                             end) = true).
    { intros k He Hk. unfold Qround_ndigits.
      change (inject_Z (Zpos (Nat.iter 2 (Pos.mul 10) 1%positive))) with (inject_Z 100).
      change (Nat.iter 2 (Pos.mul 10) 1%positive) with 100%positive.
      rewrite round_half_even_inject. cbn [Qnum].
      change (Zpos k * 100) with (Zpos (k * 100)). cbv iota.
      apply (of_Q_below _ m e Hv He). rewrite Pos2Z.inj_mul, Hk. lia. }
    destruct e as [| p | p].
    + apply (Hint m); [lia | cbn; lia].
    + assert (Hk : Zpos m * 2 ^ Zpos p = Zpos (m * 2 ^ p)).
      { now rewrite Pos2Z.inj_mul, Pos2Z.inj_pow. }
      match goal with
      | |- context [inject_Z ?t] => change t with (Zpos m * 2 ^ Zpos p)
      end.
      rewrite Hk. apply Hint; [lia | now rewrite Hk].
    + set (q := (Zpos m # 2 ^ p)%Q).
      assert (Hq : (0 <= q <= inject_Z (2 ^ 53))%Q).
      { subst q. split; unfold Qle; cbn [Qnum Qden inject_Z]; [lia |].
        assert (1 <= Zpos (2 ^ p)) by lia. nia. }
      clearbody q.
      destruct (Qround_2_num q (proj1 Hq)) as [Hr Hd].
      assert (Hn : Qnum (Qround_ndigits q 2) <= 100 * 2 ^ 53).
      { unfold Qround_ndigits. cbn [Qnum].
        change (inject_Z (Zpos (Nat.iter 2 (Pos.mul 10) 1%positive))) with (100 # 1)%Q.
        destruct (ExactFormulas.round_half_even_spec (q * (100 # 1))) as [[Hlo _] _].
        cbv zeta in Hlo.
        set (N := round_half_even (q * (100 # 1))) in *. clearbody N.
        change (inject_Z (2 ^ 53)) with (9007199254740992 # 1)%Q in Hq.
        assert (HN : (inject_Z N < 900719925474099201 # 1)%Q).
        { destruct Hq as [_ Hq]. revert Hlo. generalize (inject_Z N). intros x Hlo. lra. }
        unfold Qlt in HN. cbn [Qnum Qden inject_Z] in HN.
        change (2 ^ 53) with 9007199254740992. lia. }
      destruct (Qnum (Qround_ndigits q 2)) as [| n | n] eqn:HN; [| | lia].
      * apply (Hzero false). right. eauto.
      * assert (Hform : Qround_ndigits q 2 = (Zpos n # 100)%Q).
        { destruct (Qround_ndigits q 2) as [a b]. cbn [Qnum Qden] in *. congruence. }
        rewrite Hform.
        apply (of_Q_below _ 4503599627370496 8); [reflexivity | lia |].
        change (2 ^ 53) with 9007199254740992 in Hn. change (2 ^ 8) with 256. lia.
Qed.

(** Rounding to two decimals returns a negative float exactly below
    half a hundredth under zero. *)
Lemma b64_round_neg (z : float) (q : Q) :
  to_Q z = Some q -> (q < - (1 # 200))%Q ->
  SFneg (Prim2SF (b64_round z 2)) = true.
Proof.
  intros Hq Hlt. unfold b64_round. rewrite Hq.
  apply ExactFormulas.round_2_neg in Hlt. cbn [py_round Exact.Q_PyFloat] in Hlt.
  assert (Hn : Qnum (Qround_ndigits q 2) < 0).
  { unfold Qlt in Hlt. cbn [Qnum Qden] in Hlt. lia. }
  rewrite (Qround_2_form q).
  destruct (Qnum (Qround_ndigits q 2)) as [| n | n]; try lia.
  apply of_Q_neg_shape.
Qed.

Lemma b64_round_not_neg (z : float) (q : Q) :
  to_Q z = Some q -> (- (1 # 200) <= q)%Q ->
  SFneg (Prim2SF (b64_round z 2)) = false.
Proof.
  intros Hq Hge. unfold b64_round. rewrite Hq.
  assert (Hn : 0 <= Qnum (Qround_ndigits q 2)).
  { destruct (Z_lt_le_dec (Qnum (Qround_ndigits q 2)) 0) as [Hneg | Hpos]; [| exact Hpos].
    assert (Hlt : (Qround_ndigits q 2 < 0)%Q).
    { unfold Qlt. cbn [Qnum Qden]. lia. }
    apply (proj1 (ExactFormulas.round_2_neg q)) in Hlt. lra. }
  rewrite (Qround_2_form q).
  destruct (Qnum (Qround_ndigits q 2)) as [| n | n]; try lia; cbn [Qnum].
  - rewrite mul_spec. unfold SF64mul.
    replace (Prim2SF zero) with (S754_zero false) by (vm_compute; reflexivity).
    unfold to_Q in Hq.
    destruct (Prim2SF z) as [s | s | | s m e]; try discriminate; reflexivity.
  - rewrite (of_Q_pos (Zpos n # 100) n eq_refl).
    apply SFge0_not_neg, SFdiv_pos_shape.
Qed.

(** Rounding to two decimals keeps a float that is not positive so. *)
Lemma b64_round_le0 (z : float) :
  SFle0 (Prim2SF z) = true -> SFle0 (Prim2SF (b64_round z 2)) = true.
Proof.
  intro Hz. unfold b64_round. destruct (to_Q z) as [q |] eqn:Hq; [| exact Hz].
  pose proof (to_Q_nonpos z q Hz Hq) as Hq0.
  assert (Hn : Qnum (Qround_ndigits q 2) <= 0).
  { unfold Qround_ndigits. cbn [Qnum].
    change (inject_Z (Zpos (Nat.iter 2 (Pos.mul 10) 1%positive))) with (100 # 1)%Q.
    destruct (ExactFormulas.round_half_even_spec (q * (100 # 1))) as [[Hlo _] _].
    cbv zeta in Hlo.
    set (N := round_half_even (q * (100 # 1))) in *. clearbody N.
    assert (HN : (inject_Z N < 1 # 1)%Q).
    { revert Hlo. generalize (inject_Z N). intros x Hlo. lra. }
    unfold Qlt in HN. cbn [Qnum Qden inject_Z] in HN. lia. }
  rewrite (Qround_2_form q).
  destruct (Qnum (Qround_ndigits q 2)) as [| n | n]; try lia; cbn [Qnum].
  - rewrite mul_spec. unfold SF64mul.
    replace (Prim2SF zero) with (S754_zero false) by (vm_compute; reflexivity).
    unfold to_Q in Hq.
    destruct (Prim2SF z) as [s | s | | [] m e]; try discriminate; reflexivity.
  - rewrite (of_Q_neg (Zneg n # 100) n eq_refl). apply SFdiv_neg_shape.
Qed.

End Binary64Rounding.

(** ** The formulas in binary64

    The indices and the metrics on floats: their range, their sign and
    their thresholds, for all floats. *)

Module Binary64Formulas.

Import Binary64 Binary64Rounding.
Local Open Scope Z_scope.

(** *** The floats of the programs *)

(** The floats [1.0] and [2.5], the float nearest [7.83], [10] and [100],
    as [lit] reads the literals of the programs. *)
Local Abbreviation SF_one := (S754_finite false 4503599627370496 (-52)).

Local Abbreviation SF_tolerance := (S754_finite false 5629499534213120 (-51)).

Local Abbreviation SF_resonance := (S754_finite false 8815796270577746 (-50)).

Local Abbreviation SF_ten := (S754_finite false 5629499534213120 (-49)).

Local Abbreviation SF_hundred := (S754_finite false 7036874417766400 (-46)).

(** *** [clamp] *)

(** [clamp] passes NaN through and sends every other float into [[0,1]]. *)
Lemma clamp_binary64 (x : float) :
  (is_nan x = true /\ clamp x = x) \/ (is_nan x = false /\ in_unit (clamp x)).
Proof.
  unfold clamp, clamp_between, py_max, py_min. cbn [ltb lit b64_PyFloat].
  replace (of_Q 1.0) with 1%float by (vm_compute; reflexivity).
  replace (of_Q 0.0) with 0%float by (vm_compute; reflexivity).
  destruct (is_nan x) eqn:Hnan.
  - left. split; [reflexivity |].
    rewrite (ltb_nan_r 1 x Hnan), (ltb_nan_l x 0 Hnan). reflexivity.
  - right. split; [reflexivity |]. unfold in_unit.
    destruct (PrimFloat.ltb 1 x) eqn:H1.
    + vm_compute. split; reflexivity.
    + destruct (PrimFloat.ltb x 0) eqn:H0.
      * vm_compute. split; reflexivity.
      * split; apply ltb_false_leb; (assumption || reflexivity).
Qed.

Lemma clamp_nan_or_unit (x : float) : nan_or_unit (clamp x).
Proof.
  destruct (clamp_binary64 x) as [[Hnan Hx] | [_ Hu]].
  - left. now rewrite Hx.
  - now right.
Qed.

(** What compares at most equal to zero is clamped to a zero; what is
    no NaN is clamped into [[0,1]]. *)
Lemma clamp_le0 (p : float) :
  SFle0 (Prim2SF p) = true -> PrimFloat.eqb (clamp p) 0 = true.
Proof.
  intro Hp. unfold clamp, clamp_between, py_max, py_min. cbn [ltb lit b64_PyFloat].
  replace (of_Q 1.0) with 1%float by (vm_compute; reflexivity).
  replace (of_Q 0.0) with 0%float by (vm_compute; reflexivity).
  assert (H1 : PrimFloat.ltb 1 p = false).
  { rewrite ltb_spec. replace (Prim2SF 1) with SF_one by (vm_compute; reflexivity).
    destruct (Prim2SF p) as [s | [] | | [] m e]; try discriminate; reflexivity. }
  rewrite H1.
  destruct (PrimFloat.ltb p 0) eqn:H0; [reflexivity |].
  rewrite ltb_spec in H0. rewrite eqb_spec.
  replace (Prim2SF 0) with (S754_zero false) in * by (vm_compute; reflexivity).
  destruct (Prim2SF p) as [s | [] | | [] m e]; try discriminate; reflexivity.
Qed.

Lemma clamp_not_nan (p : float) : Prim2SF p <> S754_nan -> in_unit (clamp p).
Proof.
  intro Hp. destruct (clamp_binary64 p) as [[Hnan _] | [_ Hu]]; [| exact Hu].
  apply is_nan_spec in Hnan. contradiction.
Qed.

Lemma in_unit_finite (x : float) : in_unit x -> is_finite x = true.
Proof.
  intros [H0 H1]. rewrite is_finite_spec. rewrite leb_spec in H0, H1.
  replace (Prim2SF 0) with (S754_zero false) in H0 by (vm_compute; reflexivity).
  replace (Prim2SF 1) with SF_one in H1 by (vm_compute; reflexivity).
  destruct (Prim2SF x) as [s | [] | | s m e]; try discriminate; reflexivity.
Qed.

(** *** Squares of clamped values *)

(** The square of a float of [[0,1]] does not overflow. *)
Lemma SFmul_square_unit (m : positive) (e : Z) (s : bool) :
  bounded prec emax m e = true -> e <= - 52 ->
  SFmul prec emax (S754_finite false m e) (S754_finite false m e) <> S754_infinity s.
Proof.
  intros Hb He Hinf. cbn [SFmul] in Hinf.
  apply binary_round_aux_infinity in Hinf; [| lia].
  pose proof (bounded_digits m e Hb) as Hd.
  pose proof (Zdigits2_mul (Zpos m) (Zpos m) eq_refl eq_refl) as Hmul.
  change (Zpos m * Zpos m) with (Zpos (m * m)) in Hmul.
  cbv zeta in Hinf. unfold fexp, SpecFloat.emin, prec, emax in *. lia.
Qed.

Lemma square_unit_finite (y : float) :
  in_unit y -> is_infinity (PrimFloat.mul y y) = false.
Proof.
  intros [H0 H1]. apply not_true_is_false. rewrite is_infinity_spec.
  intros [s Hs]. rewrite mul_spec in Hs.
  rewrite leb_spec in H0, H1.
  replace (Prim2SF 0) with (S754_zero false) in H0 by (vm_compute; reflexivity).
  replace (Prim2SF 1) with (S754_finite false 4503599627370496 (-52)) in H1
    by (vm_compute; reflexivity).
  pose proof (Prim2SF_valid y) as Hv.
  destruct (Prim2SF y) as [sy | sy | | sy m e].
  - cbn in Hs. discriminate Hs.
  - destruct sy; cbn in H0, H1; discriminate.
  - cbn in H0. discriminate.
  - destruct sy; [cbn in H0; discriminate |].
    revert Hs. apply SFmul_square_unit; [exact Hv |].
    unfold SFleb in H1. cbn [SFcompare] in H1.
    destruct (e ?= -52) eqn:Hc; try discriminate.
    + apply Z.compare_eq in Hc. lia.
    + assert (Hlt : e < -52) by exact Hc. lia.
Qed.

Lemma pow_2_clamp (x : float) :
  pow_2 (clamp x) = Ok (PrimFloat.mul (clamp x) (clamp x)).
Proof.
  cbn [pow_2 b64_PyFloat]. unfold b64_pow_2.
  destruct (clamp_binary64 x) as [[Hnan Hx] | [Hnan Hu]].
  - rewrite Hx. unfold is_finite. rewrite Hnan. reflexivity.
  - rewrite (square_unit_finite _ Hu). now rewrite andb_false_r.
Qed.

#[export] Instance b64_ClampedSquares : ClampedSquares float.
Proof. intro x. eexists. apply pow_2_clamp. Qed.

(** On a float that is no clamped value the square can be out of range,
    and [calculate_BVI] raises; the program only ever passes it a result
    of [calculate_MCI]. *)
Lemma calculate_BVI_out_of_range :
  calculate_BVI (lit 1e200 : float) = Raise OverflowError.
Proof. vm_compute. reflexivity. Qed.

(** *** The factors of [calculate_MCI] *)

(** [d / 2.5] is at most [1] when [d <= 2.5]. *)
Lemma SFdiv_tolerance (m : positive) (e : Z) :
  bounded prec emax m e = true ->
  SFleb (S754_finite false m e) SF_tolerance = true ->
  below false (SFdiv prec emax (S754_finite false m e) SF_tolerance) 4503599627370496 (-52).
Proof.
  intros Hb Hle. apply SFleb_finite in Hle.
  destruct (bounded_canonical m e Hb) as [_ [_ Hm]].
  pose proof (bounded_digits m e Hb) as Hd.
  change false with (xorb false false).
  apply SFdiv_below; [reflexivity | |].
  - change (Zdigits2 5629499534213120) with 53.
    unfold fexp, SpecFloat.emin, prec, emax in *. lia.
  - change (Zdigits2 5629499534213120) with 53.
    set (e' := Z.min _ _).
    assert (He' : e' <= -53 /\ e' <= e + 51).
    { subst e'. unfold fexp, SpecFloat.emin, prec, emax in *. lia. }
    assert (Hmle : Zpos m <= 5629499534213120 * 2 ^ (-51 - e)).
    { destruct Hle as [Hlt | [-> Hle]].
      - assert (2 ^ 1 <= 2 ^ (-51 - e)) by (apply Z.pow_le_mono_r; lia). lia.
      - cbn. lia. }
    replace (e - -51 - e') with (e + 51 - e') by lia.
    assert (H1 : 0 < 2 ^ (e + 51 - e')) by (apply Z.pow_pos_nonneg; lia).
    assert (H2 : 2 ^ (-51 - e) * 2 ^ (e + 51 - e') = 4503599627370496 * 2 ^ (-52 - e')).
    { rewrite <- pow2_add by lia. change 4503599627370496 with (2 ^ 52).
      rewrite <- pow2_add by lia. f_equal. lia. }
    nia.
Qed.

Lemma SFsub_one_below (mq : positive) (eq : Z) :
  eq <= -52 -> Zpos mq <= 4503599627370496 * 2 ^ (-52 - eq) ->
  SFnonneg (SFsub prec emax SF_one (S754_finite false mq eq)) = true.
Proof.
  intros He Hm. rewrite SFsub_finite. cbv zeta.
  replace (Z.min (-52) eq) with eq by lia.
  rewrite Z.sub_diag. cbn [cond_Zopp]. rewrite Z.pow_0_r, Z.mul_1_r.
  set (D := _ - _).
  assert (HD : 0 <= D) by (subst D; lia).
  destruct (Z.eq_dec D 0) as [-> | Hne]; [reflexivity |].
  assert (Hbel : below (if D =? 0 then false else D <? 0)
                       (binary_normalize prec emax D eq false) 4503599627370496 (-52)).
  { apply binary_normalize_below; [reflexivity | exact He |]. subst D. lia. }
  replace (D =? 0) with false in Hbel by (symmetry; apply Z.eqb_neq; exact Hne).
  replace (D <? 0) with false in Hbel by (symmetry; apply Z.ltb_ge; exact HD).
  apply (below_shape false) in Hbel. apply Hbel.
Qed.

(** The score is a zero or a positive finite float, whatever [freq]. *)
Lemma score_nonneg (y : float) :
  SFnonneg (Prim2SF (if PrimFloat.leb (abs y) (lit 2.5)
                     then PrimFloat.sub (lit 1) (PrimFloat.div (abs y) (lit 2.5))
                     else lit 0)) = true.
Proof.
  destruct (PrimFloat.leb (abs y) (lit 2.5)) eqn:Hle; [| reflexivity].
  rewrite leb_spec in Hle. rewrite sub_spec, div_spec. unfold SF64sub, SF64div.
  pose proof (Prim2SF_valid (abs y)) as Hv.
  rewrite abs_spec in *.
  replace (Prim2SF (lit 2.5)) with SF_tolerance in * by (vm_compute; reflexivity).
  replace (Prim2SF (lit 1)) with SF_one by (vm_compute; reflexivity).
  destruct (Prim2SF y) as [s | s | | s m e]; cbn [SFabs] in *; try discriminate.
  - reflexivity.
  - destruct (SFdiv_tolerance m e Hv Hle) as [-> | (mq & eq & -> & He & Hm)].
    + reflexivity.
    + apply SFsub_one_below; assumption.
Qed.

(** [1 - emf] is a zero or a negative finite float when [1 <= emf]. *)
Lemma SFsub_one_ge (m : positive) (e : Z) :
  bounded prec emax m e = true ->
  SFleb SF_one (S754_finite false m e) = true ->
  SFnonpos (SFsub prec emax SF_one (S754_finite false m e)) = true.
Proof.
  intros Hb Hle. apply SFleb_finite in Hle.
  assert (Hm : -52 <= e /\ 2 ^ 52 <= Zpos m).
  { destruct Hle as [Hlt | [<- Hle]]; [| lia].
    split; [lia |]. apply (bounded_normal m e Hb). lia. }
  destruct Hm as [He Hm].
  rewrite SFsub_finite. cbv zeta.
  replace (Z.min (-52) e) with (-52) by lia.
  rewrite Z.sub_diag. cbn [cond_Zopp]. rewrite Z.pow_0_r, Z.mul_1_r.
  set (D := _ - _).
  assert (Hp : 0 < 2 ^ (e - -52)) by (apply Z.pow_pos_nonneg; lia).
  assert (HD : D <= 0) by (subst D; nia).
  destruct (Z.eq_dec D 0) as [-> | Hne]; [reflexivity |].
  assert (Hbel : below (if D =? 0 then false else D <? 0)
                       (binary_normalize prec emax D (-52) false) (Zpos m) e).
  { apply binary_normalize_below; [exact Hb | exact He |]. subst D. lia. }
  replace (D =? 0) with false in Hbel by (symmetry; apply Z.eqb_neq; exact Hne).
  replace (D <? 0) with true in Hbel by (symmetry; apply Z.ltb_lt; lia).
  apply (below_shape true) in Hbel. apply Hbel.
Qed.

(** [1 - emf] is finite whenever [emf] is. *)
Lemma SFsub_one_fin (x : spec_float) :
  valid_binary x = true -> SFfin x = true -> SFfin (SFsub prec emax SF_one x) = true.
Proof.
  intros Hv Hf. destruct x as [s | s | | s m e]; try discriminate; [reflexivity |].
  cbn [valid_binary] in Hv.
  destruct (bounded_canonical m e Hv) as [_ [He971 Hm53]].
  rewrite SFsub_finite. cbv zeta.
  destruct (Z_le_gt_dec e (-52)) as [He | He].
  - (* below 2 in magnitude: the difference is below 4 *)
    replace (Z.min (-52) e) with e by lia.
    rewrite Z.sub_diag, Z.pow_0_r, Z.mul_1_r.
    apply (below_fin _ _ 4503599627370496 (-50)); [reflexivity | lia |].
    assert (H1 : 2 ^ 0 <= 2 ^ (-52 - e)) by (apply Z.pow_le_mono_r; lia).
    assert (H2 : 2 ^ (-50 - e) = 4 * 2 ^ (-52 - e)).
    { replace (-50 - e) with (2 + (-52 - e)) by lia. now rewrite pow2_add by lia. }
    rewrite H2. change (2 ^ 0) with 1 in H1.
    destruct s; cbn [cond_Zopp]; lia.
  - replace (Z.min (-52) e) with (-52) by lia.
    rewrite Z.sub_diag, Z.pow_0_r, Z.mul_1_r.
    pose proof (bounded_normal m e Hv ltac:(lia)) as Hm.
    assert (H1 : 2 ^ 1 <= 2 ^ (e - -52)) by (apply Z.pow_le_mono_r; lia).
    change (2 ^ 1) with 2 in H1.
    destruct s; cbn [cond_Zopp].
    + (* emf negative: the difference is their sum *)
      destruct (Z_lt_le_dec e 971) as [Hlt | Hge].
      * apply (below_fin _ _ m (e + 1)); [apply bounded_double; [exact Hv | lia] | lia |].
        replace (e + 1 - -52) with (1 + (e - -52)) by lia.
        rewrite pow2_add by lia. change (2 ^ 1) with 2. nia.
      * assert (e = 971) by lia. subst e.
        destruct (Z.eq_dec (Zpos m) (2 ^ 53 - 1)) as [Htop | Hntop].
        -- injection Htop as ->. vm_compute. reflexivity.
        -- apply (below_fin _ _ 9007199254740991 971); [reflexivity | lia |].
           assert (H3 : 4503599627370496 <= 2 ^ (971 - -52)) by (vm_compute; discriminate).
           change (2 ^ 53) with 9007199254740992 in *. nia.
    + apply (below_fin _ _ m e); [exact Hv | lia |]. nia.
Qed.

(** [calculate_MCI] on floats, operation by operation. *)
Lemma calculate_MCI_factors (freq emf : float) :
  calculate_MCI freq emf =
  clamp (PrimFloat.mul
           (if PrimFloat.leb (abs (PrimFloat.sub freq (lit 7.83))) (lit 2.5)
            then PrimFloat.sub (lit 1) (PrimFloat.div (abs (PrimFloat.sub freq (lit 7.83))) (lit 2.5))
            else lit 0)
           (PrimFloat.sub (lit 1) emf)).
Proof. reflexivity. Qed.

Lemma one_minus_fin (emf : float) :
  is_finite emf = true -> SFfin (Prim2SF (PrimFloat.sub (lit 1) emf)) = true.
Proof.
  intro Hf. rewrite is_finite_spec in Hf. rewrite sub_spec. unfold SF64sub.
  replace (Prim2SF (lit 1)) with SF_one by (vm_compute; reflexivity).
  apply SFsub_one_fin; [apply Prim2SF_valid | exact Hf].
Qed.

Lemma one_minus_nonpos (emf : float) :
  is_finite emf = true -> PrimFloat.leb 1 emf = true ->
  SFnonpos (Prim2SF (PrimFloat.sub (lit 1) emf)) = true.
Proof.
  intros Hf Hle. rewrite is_finite_spec in Hf. rewrite leb_spec in Hle.
  rewrite sub_spec. unfold SF64sub.
  replace (Prim2SF (lit 1)) with SF_one by (vm_compute; reflexivity).
  replace (Prim2SF 1) with SF_one in Hle by (vm_compute; reflexivity).
  pose proof (Prim2SF_valid emf) as Hv.
  destruct (Prim2SF emf) as [s | s | | [] m e]; try discriminate.
  apply SFsub_one_ge; assumption.
Qed.

(** A float whose value is more than [2.5] away from the decimal [7.83]
    is at least the float [2.5] away from the float nearest [7.83]. *)
Lemma diff_above (freq : float) (q : Q) :
  to_Q freq = Some q -> (2.5 < Qabs (q - 7.83))%Q ->
  above false (Prim2SF (abs (PrimFloat.sub freq (lit 7.83)))) 5629499534213120 (-51).
Proof.
  intros Hq Hout. rewrite abs_spec, sub_spec. unfold SF64sub.
  replace (Prim2SF (lit 7.83)) with SF_resonance by (vm_compute; reflexivity).
  pose proof (Prim2SF_valid freq) as Hv.
  destruct (Prim2SF freq) as [s | s | | s m e] eqn:Hx.
  - cbn [SFsub SFabs negb]. right. eexists _, _. split; [reflexivity |]. left. lia.
  - unfold to_Q in Hq. rewrite Hx in Hq. discriminate.
  - unfold to_Q in Hq. rewrite Hx in Hq. discriminate.
  - cbn [valid_binary] in Hv. destruct (bounded_canonical m e Hv) as [_ [_ Hm53]].
    rewrite SFsub_finite. cbv zeta. cbn [cond_Zopp].
    set (D := cond_Zopp s _ - _).
    apply (above_abs (D <? 0)). apply binary_normalize_above; [reflexivity |].
    destruct (Z_le_gt_dec (-50) e) as [He | He].
    + subst D. replace (Z.min e (-50)) with (-50) by lia.
      replace (Z.min (-50) (-51)) with (-51) by lia.
      pose proof (to_Q_finite freq s m e q 50 Hx Hq ltac:(lia) ltac:(lia)) as HN.
      replace (cond_Zopp s (Zpos m * 2 ^ (e - -50)))
        with (cond_Zopp s (Zpos m) * 2 ^ (e + 50))
        by (replace (e - -50) with (e + 50) by lia; destruct s; cbn [cond_Zopp]; lia).
      set (N := cond_Zopp s (Zpos m) * 2 ^ (e + 50)) in *. clearbody N.
      change (inject_Z (2 ^ 50)) with (1125899906842624 # 1)%Q in HN.
      assert (HZ : 100 * N < 600104650347118592 \/ 1163054603768430592 < 100 * N).
      { destruct (Qlt_le_dec (q - 7.83) 0) as [Hneg | Hpos].
        - left. rewrite Qabs_neg in Hout by lra.
          assert (H : (inject_Z N * 100 < 600104650347118592 # 1)%Q) by lra.
          unfold Qlt in H. cbn [Qnum Qden inject_Z Qmult] in H. lia.
        - right. rewrite Qabs_pos in Hout by lra.
          assert (H : ((1163054603768430592 # 1) < inject_Z N * 100)%Q) by lra.
          unfold Qlt in H. cbn [Qnum Qden inject_Z Qmult] in H. lia. }
      change (2 ^ (-50 - -50)) with 1. change (2 ^ (-51 - -51)) with 1.
      change (2 ^ (-50 - -51)) with 2. lia.
    + subst D. replace (Z.min e (-50)) with e by lia.
      replace (Z.min e (-51)) with e by lia.
      rewrite !Z.sub_diag, Z.pow_0_r, !Z.mul_1_r.
      replace (-50 - e) with (1 + (-51 - e)) by lia.
      rewrite pow2_add by lia. change (2 ^ 1) with 2.
      assert (HP : 0 < 2 ^ (-51 - e)) by (apply Z.pow_pos_nonneg; lia).
      set (P := 2 ^ (-51 - e)) in *. clearbody P.
      change (2 ^ 53) with 9007199254740992 in Hm53.
      destruct s; cbn [cond_Zopp]; lia.
Qed.

(** The score is a zero when the difference is at least the tolerance. *)
Lemma score_zero (d : float) :
  above false (Prim2SF d) 5629499534213120 (-51) ->
  exists s, Prim2SF (if PrimFloat.leb d (lit 2.5)
                     then PrimFloat.sub (lit 1) (PrimFloat.div d (lit 2.5))
                     else lit 0) = S754_zero s.
Proof.
  intro Hab. destruct (PrimFloat.leb d (lit 2.5)) eqn:Hle; [| now exists false].
  rewrite leb_spec in Hle.
  replace (Prim2SF (lit 2.5)) with SF_tolerance in Hle by (vm_compute; reflexivity).
  assert (Hd : Prim2SF d = SF_tolerance).
  { destruct Hab as [Hinf | (m & e & Hd & Hge)].
    - rewrite Hinf in Hle. discriminate.
    - rewrite Hd in Hle |- *. apply SFleb_finite in Hle.
      assert (e = -51 /\ Zpos m = 5629499534213120) as [-> Hm] by lia.
      now injection Hm as ->. }
  assert (Heq : d = lit 2.5).
  { apply Prim2SF_inj. rewrite Hd. vm_compute. reflexivity. }
  rewrite Heq. exists false. vm_compute. reflexivity.
Qed.

(** *** The indices of pipeline A *)

(** With a finite [emf >= 1] the index compares equal to zero. *)
Lemma calculate_MCI_zero_b64 (freq emf : float) :
  is_finite emf = true -> PrimFloat.leb 1 emf = true ->
  PrimFloat.eqb (calculate_MCI freq emf) 0 = true.
Proof.
  intros Hf Hle. rewrite calculate_MCI_factors. apply clamp_le0.
  rewrite mul_spec. unfold SF64mul.
  apply SFmul_signs; [apply score_nonneg | now apply one_minus_nonpos].
Qed.

(** Outside the tolerance the index compares equal to zero. *)
Lemma calculate_MCI_out_of_tolerance_b64 (freq emf : float) (q : Q) :
  to_Q freq = Some q -> (2.5 < Qabs (q - 7.83))%Q -> is_finite emf = true ->
  PrimFloat.eqb (calculate_MCI freq emf) 0 = true.
Proof.
  intros Hq Hout Hf. rewrite calculate_MCI_factors. apply clamp_le0.
  rewrite mul_spec. unfold SF64mul.
  destruct (score_zero _ (diff_above freq q Hq Hout)) as [s ->].
  apply SFmul_zero_fin. now apply one_minus_fin.
Qed.

(** The indices are floats of [[0,1]] on finite arguments. *)
Lemma calculate_MCI_in_unit (freq emf : float) :
  is_finite emf = true -> in_unit (calculate_MCI freq emf).
Proof.
  intro Hf. rewrite calculate_MCI_factors. apply clamp_not_nan.
  rewrite mul_spec. unfold SF64mul.
  apply SFmul_fin_not_nan; [apply SFnonneg_fin, score_nonneg | now apply one_minus_fin].
Qed.

Lemma calculate_BVI_in_unit (MCI bvi : float) :
  is_nan MCI = false -> calculate_BVI MCI = Ok bvi -> in_unit bvi.
Proof.
  intros Hn Hb. unfold calculate_BVI in Hb. cbn [pow_2 b64_PyFloat] in Hb.
  unfold b64_pow_2 in Hb.
  destruct (is_finite MCI && is_infinity (PrimFloat.mul MCI MCI)); [discriminate |].
  injection Hb as <-. apply clamp_not_nan.
  rewrite mul_spec. unfold SF64mul.
  apply SFmul_square_not_nan. now apply is_nan_false.
Qed.

Lemma weighted_fin (w x : float) (mc : positive) (ec : Z) :
  Prim2SF w = S754_finite false mc ec -> ec <= 0 -> Zpos mc <= 2 ^ (- ec) ->
  is_finite x = true -> SFfin (Prim2SF (PrimFloat.mul w x)) = true.
Proof.
  intros Hw Hec Hmc Hf. rewrite is_finite_spec in Hf.
  rewrite mul_spec. unfold SF64mul. rewrite Hw.
  apply SFmul_weight; try assumption. apply Prim2SF_valid.
Qed.

Lemma calculate_HS_in_unit (MCI BVI env_factor : float) :
  is_finite MCI = true -> is_finite BVI = true -> is_finite env_factor = true ->
  in_unit (calculate_HS MCI BVI env_factor).
Proof.
  intros Hm Hb He. unfold calculate_HS. cbn [add mul b64_PyFloat].
  apply clamp_not_nan. rewrite !add_spec. unfold SF64add.
  assert (Wm : SFfin (Prim2SF (PrimFloat.mul (lit 0.5) MCI)) = true).
  { apply (weighted_fin _ _ 4503599627370496 (-53));
      [reflexivity | lia | vm_compute; discriminate | exact Hm]. }
  assert (Wb : SFfin (Prim2SF (PrimFloat.mul (lit 0.4) BVI)) = true).
  { apply (weighted_fin _ _ 7205759403792794 (-54));
      [reflexivity | lia | vm_compute; discriminate | exact Hb]. }
  assert (We : SFfin (Prim2SF (PrimFloat.mul (lit 0.1) env_factor)) = true).
  { apply (weighted_fin _ _ 7205759403792794 (-56));
      [reflexivity | lia | vm_compute; discriminate | exact He]. }
  apply SFadd_not_nan; [| exact We].
  apply SFadd_not_nan; [| exact Wb].
  intro Hnan. rewrite Hnan in Wm. discriminate.
Qed.

(** The three indices of a row, computed in order from finite slider
    values. *)
Lemma pipeline_in_unit (freq emf env_factor : float) :
  is_finite emf = true -> is_finite env_factor = true ->
  exists bvi : float,
    calculate_BVI (calculate_MCI freq emf) = Ok bvi /\
    in_unit (calculate_MCI freq emf) /\ in_unit bvi /\
    in_unit (calculate_HS (calculate_MCI freq emf) bvi env_factor).
Proof.
  intros Hemf Henv.
  pose proof (calculate_MCI_in_unit freq emf Hemf) as Hm.
  assert (Hb : calculate_BVI (calculate_MCI freq emf) =
               Ok (clamp (PrimFloat.mul (calculate_MCI freq emf) (calculate_MCI freq emf)))).
  { unfold calculate_BVI, calculate_MCI. now rewrite pow_2_clamp. }
  eexists. split; [exact Hb |].
  assert (Hbu : in_unit (clamp (PrimFloat.mul (calculate_MCI freq emf)
                                              (calculate_MCI freq emf)))).
  { apply (calculate_BVI_in_unit (calculate_MCI freq emf)); [| exact Hb].
    pose proof (in_unit_finite _ Hm) as Hf. unfold is_finite in Hf.
    destruct (is_nan (calculate_MCI freq emf)); [discriminate | reflexivity]. }
  split; [exact Hm | split; [exact Hbu |]].
  apply calculate_HS_in_unit; [| | exact Henv]; now apply in_unit_finite.
Qed.

(** *** [calculate_mcr] and [calculate_bvi] *)

(** On finite inputs that are not negative the two metrics are not
    negative; [calculate_mcr] is finite as well, so that its product with
    a zero pressure is a zero. *)
Lemma calculate_mcr_nonneg (magnetic_field : float) :
  is_finite magnetic_field = true -> PrimFloat.leb 0 magnetic_field = true ->
  SFnonneg (Prim2SF (calculate_mcr magnetic_field)) = true.
Proof.
  intros Hf Hle. pose proof (finite_nonneg _ Hf Hle) as Hnn.
  unfold calculate_mcr. cbn [py_round div b64_PyFloat].
  assert (Hx : SFnonneg (Prim2SF (PrimFloat.div magnetic_field (lit 100))) = true).
  { rewrite div_spec. unfold SF64div.
    replace (Prim2SF (lit 100)) with (S754_finite false 7036874417766400 (-46))
      by (vm_compute; reflexivity).
    pose proof (Prim2SF_valid magnetic_field) as Hv.
    destruct (Prim2SF magnetic_field) as [s | s | | [] m e]; try discriminate.
    - reflexivity.
    - apply SFdiv_shrinks; [exact Hv | lia | vm_compute; discriminate
                            | vm_compute; discriminate]. }
  rewrite SFnonneg_spec. apply andb_true_intro. split.
  - now apply b64_round_fin.
  - apply b64_round_ge0. rewrite SFnonneg_spec in Hx. now apply andb_prop in Hx.
Qed.

Lemma calculate_bvi_nonneg (mcr atmospheric_pressure : float) :
  SFnonneg (Prim2SF mcr) = true ->
  is_finite atmospheric_pressure = true -> PrimFloat.leb 0 atmospheric_pressure = true ->
  SFge0 (Prim2SF (calculate_bvi mcr atmospheric_pressure)) = true.
Proof.
  intros Hm Hf Hle. pose proof (finite_nonneg _ Hf Hle) as Hnn.
  unfold calculate_bvi. cbn [py_round div mul b64_PyFloat].
  apply b64_round_ge0. rewrite div_spec, mul_spec. unfold SF64div, SF64mul.
  replace (Prim2SF (lit 50000)) with (S754_finite false 6871947673600000 (-37))
    by (vm_compute; reflexivity).
  apply SFdiv_ge0. now apply SFmul_nonneg.
Qed.

Lemma metrics_nonneg_b64 (magnetic_field atmospheric_pressure : float) :
  is_finite magnetic_field = true -> PrimFloat.leb 0 magnetic_field = true ->
  is_finite atmospheric_pressure = true -> PrimFloat.leb 0 atmospheric_pressure = true ->
  PrimFloat.leb 0 (calculate_mcr magnetic_field) = true /\
  PrimFloat.leb 0 (calculate_bvi (calculate_mcr magnetic_field) atmospheric_pressure) = true.
Proof.
  intros Hmf Hm0 Hap Ha0.
  pose proof (calculate_mcr_nonneg _ Hmf Hm0) as Hmcr.
  rewrite !leb_0_spec. split.
  - rewrite SFnonneg_spec in Hmcr. now apply andb_prop in Hmcr.
  - now apply calculate_bvi_nonneg.
Qed.

(** *** [calculate_gei] *)

Lemma calculate_gei_b64 (solar_flux : float) :
  calculate_gei solar_flux =
  b64_round (PrimFloat.sub (lit 100) (PrimFloat.div solar_flux (lit 10))) 2.
Proof. reflexivity. Qed.

(** The quotient by ten of a normal float, cut on its own grid. *)
Lemma SFdiv_ten_above (m : positive) (e : Z) (pB : positive) (eB : Z) :
  bounded prec emax m e = true -> -1070 <= e ->
  bounded prec emax pB eB = true ->
  (e - 4 <= eB -> Zpos pB * 2 ^ (eB - (e - 4)) * 5629499534213120 <= Zpos m * 2 ^ 53) ->
  (eB < e - 4 -> Zpos pB * 5629499534213120 <= Zpos m * 2 ^ 53) ->
  above false (SFdiv prec emax (S754_finite false m e) SF_ten) pB eB.
Proof.
  intros Hb He HB Hfine Hcoarse.
  destruct (bounded_canonical m e Hb) as [Hc _].
  assert (Hd : Zdigits2 (Zpos m) = 53).
  { unfold fexp, SpecFloat.emin, prec, emax in Hc. lia. }
  change false with (xorb false false).
  apply SFdiv_above; [exact HB |].
  change (Zdigits2 5629499534213120) with 53. rewrite Hd.
  replace (Z.min (fexp prec emax (53 + e - (53 + -49))) (e - -49)) with (e - 4)
    by (unfold fexp, SpecFloat.emin, prec, emax; lia).
  replace (e - -49 - (e - 4)) with 53 by lia.
  set (qq := Zpos m * 2 ^ 53 / 5629499534213120).
  destruct (Z_le_gt_dec (e - 4) eB) as [Hle | Hgt].
  - replace (Z.min (e - 4) eB) with (e - 4) by lia.
    rewrite Z.sub_diag, Z.pow_0_r, Z.mul_1_r.
    subst qq. apply Z.div_le_lower_bound; [lia |]. specialize (Hfine Hle). lia.
  - replace (Z.min (e - 4) eB) with eB by lia.
    rewrite Z.sub_diag, Z.pow_0_r, Z.mul_1_r.
    assert (Hq : Zpos pB <= qq).
    { subst qq. apply Z.div_le_lower_bound; [lia |]. specialize (Hcoarse ltac:(lia)). lia. }
    assert (0 < 2 ^ (e - 4 - eB)) by (apply Z.pow_pos_nonneg; lia). nia.
Qed.

(** Above a flux of [1000] the index is never positive. *)
Lemma calculate_gei_le0 (solar_flux : float) :
  PrimFloat.ltb 1000 solar_flux = true ->
  PrimFloat.leb (calculate_gei solar_flux) 0 = true.
Proof.
  intro Hlt. rewrite leb_le0_spec, calculate_gei_b64. apply b64_round_le0.
  rewrite sub_spec, div_spec. unfold SF64sub, SF64div.
  replace (Prim2SF (lit 100)) with SF_hundred by (vm_compute; reflexivity).
  replace (Prim2SF (lit 10)) with SF_ten by (vm_compute; reflexivity).
  rewrite ltb_spec in Hlt.
  replace (Prim2SF 1000) with (S754_finite false 8796093022208000 (-43)) in Hlt
    by (vm_compute; reflexivity).
  pose proof (Prim2SF_valid solar_flux) as Hv.
  destruct (Prim2SF solar_flux) as [s | [] | | [] m e]; try discriminate.
  - reflexivity.
  - apply SFltb_finite in Hlt. cbn [valid_binary] in Hv.
    pose proof (bounded_normal m e Hv ltac:(lia)) as Hm.
    assert (Hab : above false (SFdiv prec emax (S754_finite false m e) SF_ten)
                        7036874417766400 (-46)).
    { apply SFdiv_ten_above; [exact Hv | lia | reflexivity | |].
      - intro Hfine. assert (He : e = -43 \/ e = -42) by lia.
        destruct He as [-> | ->].
        + change (2 ^ (-46 - (-43 - 4))) with 2.
          change (2 ^ 53) with 9007199254740992. lia.
        + change (2 ^ (-46 - (-42 - 4))) with 1.
          change (2 ^ 53) with 9007199254740992. change (2 ^ 52) with 4503599627370496 in Hm.
          lia.
      - intros _. change (2 ^ 53) with 9007199254740992.
        change (2 ^ 52) with 4503599627370496 in Hm. lia. }
    pose proof (SFdiv_valid false false m 5629499534213120 e (-49)) as Hvy.
    destruct Hab as [-> | (my & ey & Hy & Hge)]; [reflexivity |].
    rewrite Hy in *. cbn [valid_binary] in Hvy.
    rewrite SFsub_finite. cbv zeta. apply binary_normalize_neg.
    replace (Z.min (-46) ey) with (-46) by lia.
    rewrite Z.sub_diag, Z.pow_0_r, Z.mul_1_r. cbn [cond_Zopp].
    destruct Hge as [Hgt | [-> Hge]].
    + pose proof (bounded_normal my ey Hvy ltac:(lia)) as Hmy.
      assert (2 ^ 1 <= 2 ^ (ey - -46)) by (apply Z.pow_le_mono_r; lia).
      change (2 ^ 1) with 2 in *. change (2 ^ 52) with 4503599627370496 in Hmy. nia.
    + rewrite Z.sub_diag, Z.pow_0_r. lia.
Qed.

(** *** The threshold of [calculate_gei] *)

Lemma to_Q_grid_43 (x : float) (m : positive) (e : Z) (q : Q) :
  Prim2SF x = S754_finite false m e -> to_Q x = Some q -> -43 <= e ->
  (q * (8796093022208 # 1) == inject_Z (Zpos m * 2 ^ (e + 43)))%Q.
Proof.
  intros Hx Hq He.
  apply (to_Q_finite x false m e q 43 Hx Hq); lia.
Qed.

(** The floats above [1000.05] start at the mantissa [8796532826859111]
    of exponent [-43]; the floats up to it end one mantissa below. *)
Lemma flux_above_threshold (x : float) (m : positive) (e : Z) (q : Q) :
  Prim2SF x = S754_finite false m e -> bounded prec emax m e = true ->
  to_Q x = Some q -> (1000.05 < q)%Q ->
  -43 < e \/ (e = -43 /\ 8796532826859111 <= Zpos m).
Proof.
  intros Hx Hb Hq Hlt.
  destruct (bounded_canonical m e Hb) as [_ [_ Hm]].
  change (2 ^ 53) with 9007199254740992 in Hm.
  destruct (Z_lt_le_dec e (-43)) as [Hlow | Hhigh].
  - exfalso. unfold to_Q in Hq. rewrite Hx in Hq. injection Hq as <-.
    destruct e as [| p | p]; try lia.
    unfold Qlt in Hlt. cbn [Qnum Qden] in Hlt. rewrite Pos2Z.inj_pow in Hlt.
    assert (2 ^ 44 <= 2 ^ Zpos p) by (apply Z.pow_le_mono_r; lia).
    change (2 ^ 44) with 17592186044416 in *. lia.
  - destruct (Z.eq_dec e (-43)) as [-> | Hne]; [right | left; lia].
    split; [reflexivity |].
    pose proof (to_Q_grid_43 x m (-43) q Hx Hq ltac:(lia)) as HN.
    change (2 ^ (-43 + 43)) with 1 in HN. rewrite Z.mul_1_r in HN.
    assert (H : ((43982664134295552 # 5) < inject_Z (Zpos m))%Q).
    { revert HN. generalize (inject_Z (Zpos m)). intros y HN. lra. }
    unfold Qlt in H. cbn [Qnum Qden inject_Z] in H. lia.
Qed.

Lemma flux_below_threshold (x : float) (m : positive) (e : Z) (q : Q) :
  Prim2SF x = S754_finite false m e -> bounded prec emax m e = true ->
  to_Q x = Some q -> (q <= 1000.05)%Q ->
  e < -43 \/ (e = -43 /\ Zpos m <= 8796532826859110).
Proof.
  intros Hx Hb Hq Hle.
  destruct (Z_lt_le_dec e (-43)) as [Hlow | Hhigh]; [now left | right].
  pose proof (to_Q_grid_43 x m e q Hx Hq Hhigh) as HN.
  pose proof (bounded_normal m e Hb ltac:(lia)) as Hm.
  change (2 ^ 52) with 4503599627370496 in Hm.
  assert (H : (inject_Z (Zpos m * 2 ^ (e + 43)) <= (43982664134295552 # 5))%Q).
  { revert HN. generalize (inject_Z (Zpos m * 2 ^ (e + 43))). intros y HN. lra. }
  unfold Qle in H. cbn [Qnum Qden inject_Z] in H.
  destruct (Z.eq_dec e (-43)) as [-> | Hne].
  - change (2 ^ (-43 + 43)) with 1 in H. split; [reflexivity | lia].
  - exfalso. assert (2 ^ 1 <= 2 ^ (e + 43)) by (apply Z.pow_le_mono_r; lia).
    change (2 ^ 1) with 2 in *. nia.
Qed.

(** The floats beyond [-0.005000000000009663] are below half a
    hundredth under zero, the floats within [-0.0049999999999954525] are
    not. *)
Lemma to_Q_beyond_half_hundredth (z : float) (mz : positive) (ez : Z) :
  Prim2SF z = S754_finite true mz ez -> bounded prec emax mz ez = true ->
  -60 < ez \/ (ez = -60 /\ 5764607523045376 <= Zpos mz) ->
  exists q : Q, to_Q z = Some q /\ (q < - (1 # 200))%Q.
Proof.
  intros Hz Hb Hge. unfold to_Q. rewrite Hz. eexists. split; [reflexivity |].
  destruct ez as [| p | p].
  - unfold Qlt. cbn [Qnum Qden inject_Z Qopp]. lia.
  - unfold Qlt. cbn [Qnum Qden inject_Z Qopp].
    match goal with
    | |- (?t * _ < _)%Z => change t with (Zneg mz * 2 ^ Zpos p)
    end.
    assert (0 < 2 ^ Zpos p) by (apply Z.pow_pos_nonneg; lia). nia.
  - unfold Qlt. cbn [Qnum Qden Qopp]. rewrite Pos2Z.inj_pow.
    destruct Hge as [Hgt | [Heq Hm]].
    + pose proof (bounded_normal mz (Zneg p) Hb ltac:(lia)) as Hm.
      assert (2 ^ Zpos p <= 2 ^ 59) by (apply Z.pow_le_mono_r; lia).
      change (2 ^ 59) with 576460752303423488 in *.
      change (2 ^ 52) with 4503599627370496 in *. lia.
    + injection Heq as ->. change (2 ^ 60) with 1152921504606846976. lia.
Qed.

Lemma to_Q_within_half_hundredth (z : float) :
  below true (Prim2SF z) 5764607523028992 (-60) ->
  exists q : Q, to_Q z = Some q /\ (- (1 # 200) <= q)%Q.
Proof.
  intros [Hz | (mz & ez & Hz & He & Hm)]; unfold to_Q; rewrite Hz.
  - exists 0%Q. split; [reflexivity | discriminate].
  - eexists. split; [reflexivity |].
    destruct ez as [| p | p]; try lia.
    unfold Qle. cbn [Qnum Qden Qopp]. rewrite Pos2Z.inj_pow.
    replace (Zpos p) with (60 + (-60 - Zneg p)) by lia.
    rewrite pow2_add by lia.
    assert (0 < 2 ^ (-60 - Zneg p)) by (apply Z.pow_pos_nonneg; lia).
    change (2 ^ 60) with 1152921504606846976. nia.
Qed.

(** From the second float above [1000.05] on, every step of the
    computation is on the far side of its bound. *)
Lemma calculate_gei_above (solar_flux : float) (m : positive) (e : Z) :
  Prim2SF solar_flux = S754_finite false m e -> bounded prec emax m e = true ->
  -43 < e \/ (e = -43 /\ 8796532826859112 <= Zpos m) ->
  SFneg (Prim2SF (calculate_gei solar_flux)) = true.
Proof.
  intros Hx Hv He. rewrite calculate_gei_b64.
  set (y := PrimFloat.div solar_flux (lit 10)).
  set (z := PrimFloat.sub (lit 100) y).
  pose proof (bounded_normal m e Hv ltac:(lia)) as Hm.
  change (2 ^ 52) with 4503599627370496 in Hm.
  assert (Hy : above false (Prim2SF y) 7037226261487289 (-46)).
  { subst y. rewrite div_spec. unfold SF64div. rewrite Hx.
    replace (Prim2SF (lit 10)) with SF_ten by (vm_compute; reflexivity).
    apply SFdiv_ten_above; [exact Hv | lia | reflexivity | |].
    - intro Hfine. assert (He' : e = -43 \/ e = -42) by lia.
      destruct He' as [-> | ->].
      + change (2 ^ (-46 - (-43 - 4))) with 2.
        change (2 ^ 53) with 9007199254740992. lia.
      + change (2 ^ (-46 - (-42 - 4))) with 1.
        change (2 ^ 53) with 9007199254740992. lia.
    - intros _. change (2 ^ 53) with 9007199254740992. lia. }
  assert (Hz : above true (Prim2SF z) 5764607523045376 (-60)).
  { subst z. rewrite sub_spec. unfold SF64sub.
    replace (Prim2SF (lit 100)) with SF_hundred by (vm_compute; reflexivity).
    pose proof (Prim2SF_valid y) as Hvy.
    destruct Hy as [Hy | (my & ey & Hy & Hge)]; rewrite Hy in *.
    - now left.
    - cbn [valid_binary] in Hvy. rewrite SFsub_finite. cbv zeta.
      replace (Z.min (-46) ey) with (-46) by lia.
      rewrite Z.sub_diag, Z.pow_0_r, Z.mul_1_r. cbn [cond_Zopp].
      set (D := 7036874417766400 - Zpos my * 2 ^ (ey - -46)).
      assert (HD : D <= -351843720889).
      { subst D. destruct Hge as [Hgt | [-> Hge]].
        - pose proof (bounded_normal my ey Hvy ltac:(lia)) as Hmy.
          assert (2 ^ 1 <= 2 ^ (ey - -46)) by (apply Z.pow_le_mono_r; lia).
          change (2 ^ 1) with 2 in *. change (2 ^ 52) with 4503599627370496 in Hmy. nia.
        - rewrite Z.sub_diag, Z.pow_0_r. lia. }
      replace true with (D <? 0) by (apply Z.ltb_lt; lia).
      apply binary_normalize_above; [reflexivity |].
      change (Z.min (-46) (-60)) with (-60).
      change (2 ^ (-60 - -60)) with 1. change (2 ^ (-46 - -60)) with 16384. lia. }
  destruct Hz as [Hz | (mz & ez & Hz & Hge)].
  - unfold b64_round, to_Q. rewrite Hz. now rewrite Hz.
  - pose proof (Prim2SF_valid z) as Hvz. rewrite Hz in Hvz. cbn [valid_binary] in Hvz.
    destruct (to_Q_beyond_half_hundredth z mz ez Hz Hvz Hge) as (qz & Hqz & Hlt).
    exact (b64_round_neg z qz Hqz Hlt).
Qed.

(** Above a flux of [1000.05] the index is negative. *)
Lemma calculate_gei_neg_b64 (solar_flux : float) (q : Q) :
  to_Q solar_flux = Some q -> (1000.05 < q)%Q ->
  PrimFloat.ltb (calculate_gei solar_flux) 0 = true.
Proof.
  intros Hq Hlt. rewrite ltb_0_spec.
  destruct (to_Q_positive solar_flux q Hq ltac:(lra)) as (m & e & Hx).
  pose proof (Prim2SF_valid solar_flux) as Hv. rewrite Hx in Hv. cbn [valid_binary] in Hv.
  pose proof (flux_above_threshold solar_flux m e q Hx Hv Hq Hlt) as He.
  destruct (Z.eq_dec (Zpos m) 8796532826859111) as [Hm1 | Hm1];
    [destruct (Z.eq_dec e (-43)) as [He1 | He1] |].
  - (* the first float above the threshold *)
    injection Hm1 as ->. subst e.
    rewrite <- (SF2Prim_Prim2SF solar_flux), Hx. vm_compute. reflexivity.
  - apply (calculate_gei_above solar_flux m e Hx Hv). lia.
  - apply (calculate_gei_above solar_flux m e Hx Hv). lia.
Qed.

Lemma SFsub_hundred_nonpos (y : spec_float) :
  SFle0 y = true -> SFge0 (SFsub prec emax SF_hundred y) = true.
Proof.
  destruct y as [s | [] | | [] my ey]; try discriminate; intros _; try reflexivity.
  rewrite SFsub_finite. cbv zeta. apply binary_normalize_pos. cbn [cond_Zopp].
  assert (0 < 2 ^ (-46 - Z.min (-46) ey)) by (apply Z.pow_pos_nonneg; lia).
  assert (0 < 2 ^ (ey - Z.min (-46) ey)) by (apply Z.pow_pos_nonneg; lia).
  nia.
Qed.

(** Up to a flux of [1000.05] the difference [100 - flux/10] is positive,
    a zero, or within half a hundredth below zero. *)
Lemma calculate_gei_difference (solar_flux : float) (q : Q) :
  to_Q solar_flux = Some q -> (q <= 1000.05)%Q ->
  let z := Prim2SF (PrimFloat.sub (lit 100) (PrimFloat.div solar_flux (lit 10))) in
  SFge0 z = true \/ below true z 5764607523028992 (-60).
Proof.
  intros Hq Hle. cbv zeta. rewrite sub_spec, div_spec. unfold SF64sub, SF64div.
  replace (Prim2SF (lit 100)) with SF_hundred by (vm_compute; reflexivity).
  replace (Prim2SF (lit 10)) with SF_ten by (vm_compute; reflexivity).
  pose proof (Prim2SF_valid solar_flux) as Hv.
  destruct (Prim2SF solar_flux) as [s | s | | [] m e] eqn:Hx.
  - left. reflexivity.
  - unfold to_Q in Hq. rewrite Hx in Hq. discriminate.
  - unfold to_Q in Hq. rewrite Hx in Hq. discriminate.
  - left. apply SFsub_hundred_nonpos, SFdiv_neg_shape.
  - cbn [valid_binary] in Hv.
    destruct (bounded_canonical m e Hv) as [_ [_ Hm]].
    change (2 ^ 53) with 9007199254740992 in Hm.
    pose proof (bounded_digits m e Hv) as Hd. unfold prec in Hd.
    pose proof (flux_below_threshold solar_flux m e q Hx Hv Hq Hle) as He.
    assert (Hy : below false (SFdiv prec emax (S754_finite false m e) SF_ten)
                       7037226261487288 (-46)).
    { change false with (xorb false false) at 1.
      apply SFdiv_below; [reflexivity | |].
      - change (Zdigits2 5629499534213120) with 53.
        unfold fexp, SpecFloat.emin, prec, emax. lia.
      - change (Zdigits2 5629499534213120) with 53.
        set (e' := Z.min _ _).
        assert (He' : e' <= -47 /\ e' <= e + 49).
        { subst e'. unfold fexp, SpecFloat.emin, prec, emax. lia. }
        set (t := -46 - e').
        replace (e - -49 - e') with ((e + 95) + t) by (subst t; lia).
        destruct (Z_le_gt_dec 0 (e + 95)) as [Hpos | Hneg].
        + rewrite pow2_add by (subst t; lia).
          assert (Ht : 0 < 2 ^ t) by (apply Z.pow_pos_nonneg; subst t; lia).
          assert (Hp : Zpos m * 2 ^ (e + 95) <= 8796532826859110 * 2 ^ 52).
          { destruct He as [Hlt | [-> Hmle]].
            - assert (2 ^ (e + 95) <= 2 ^ 51) by (apply Z.pow_le_mono_r; lia).
              assert (0 < 2 ^ (e + 95)) by (apply Z.pow_pos_nonneg; lia).
              change (2 ^ 51) with 2251799813685248 in *.
              change (2 ^ 52) with 4503599627370496. nia.
            - change (2 ^ (-43 + 95)) with 4503599627370496.
              change (2 ^ 52) with 4503599627370496. lia. }
          change (2 ^ 52) with 4503599627370496 in Hp. nia.
        + assert (Hs : 0 <= e + 95 + t) by (subst t; lia).
          assert (Ht : 2 ^ (e + 95 + t) <= 2 ^ t)
            by (apply Z.pow_le_mono_r; subst t; lia).
          assert (0 < 2 ^ (e + 95 + t)) by (apply Z.pow_pos_nonneg; lia).
          nia. }
    destruct Hy as [-> | (my & ey & -> & Hey & Hmy)]; [left; reflexivity |].
    rewrite SFsub_finite. cbv zeta. cbn [cond_Zopp].
    replace (Z.min (-46) ey) with ey by lia.
    rewrite Z.sub_diag, Z.pow_0_r, Z.mul_1_r.
    set (P := 2 ^ (-46 - ey)) in *.
    assert (HP : 0 < P) by (apply Z.pow_pos_nonneg; lia).
    set (D := 7036874417766400 * P - Zpos my).
    destruct (Z_le_gt_dec 0 D) as [HD | HD].
    + left. now apply binary_normalize_pos.
    + right.
      assert (Hb : below (if D =? 0 then false else D <? 0)
                         (binary_normalize prec emax D ey false)
                         5764607523028992 (-60)).
      { apply binary_normalize_below_min; [reflexivity |].
        assert (HDabs : Z.abs D <= 351843720888 * P) by (subst D; lia).
        destruct (Z_le_gt_dec ey (-60)) as [Hfine | Hcoarse].
        - replace (Z.min ey (-60)) with ey by lia.
          rewrite Z.sub_diag, Z.pow_0_r, Z.mul_1_r.
          assert (HPs : P = 16384 * 2 ^ (-60 - ey)).
          { subst P. replace (-46 - ey) with (14 + (-60 - ey)) by lia.
            now rewrite pow2_add by lia. }
          lia.
        - replace (Z.min ey (-60)) with (-60) by lia.
          change (2 ^ (-60 - -60)) with 1.
          assert (HPs : P * 2 ^ (ey - -60) = 16384).
          { subst P. rewrite <- pow2_add by lia.
            replace (-46 - ey + (ey - -60)) with 14 by lia. reflexivity. }
          assert (0 < 2 ^ (ey - -60)) by (apply Z.pow_pos_nonneg; lia).
          nia. }
      replace (D =? 0) with false in Hb by (symmetry; apply Z.eqb_neq; lia).
      replace (D <? 0) with true in Hb by (symmetry; apply Z.ltb_lt; lia).
      exact Hb.
Qed.

(** Up to a flux of [1000.05] the index is not negative. *)
Lemma calculate_gei_not_neg_b64 (solar_flux : float) (q : Q) :
  to_Q solar_flux = Some q -> (q <= 1000.05)%Q ->
  PrimFloat.ltb (calculate_gei solar_flux) 0 = false.
Proof.
  intros Hq Hle. rewrite ltb_0_spec, calculate_gei_b64.
  destruct (calculate_gei_difference solar_flux q Hq Hle) as [Hz | Hz].
  - apply SFge0_not_neg, b64_round_ge0. exact Hz.
  - destruct (to_Q_within_half_hundredth _ Hz) as (qz & Hqz & Hge).
    exact (b64_round_not_neg _ qz Hqz Hge).
Qed.

(** The index is negative exactly above a flux of [1000.05]. *)
Lemma calculate_gei_threshold_b64 (solar_flux : float) (q : Q) :
  to_Q solar_flux = Some q ->
  PrimFloat.ltb (calculate_gei solar_flux) 0 = true <-> (1000.05 < q)%Q.
Proof.
  intro Hq. split.
  - intro Hneg. destruct (Qlt_le_dec 1000.05 q) as [Hlt | Hle]; [exact Hlt |].
    rewrite (calculate_gei_not_neg_b64 solar_flux q Hq Hle) in Hneg. discriminate.
  - now apply calculate_gei_neg_b64.
Qed.

End Binary64Formulas.

(** ** Pipeline A: the three indices *)

Import Exact Binary64.

(* Decimal literals of floats stand for the nearest binary64 value. *)
#[local] Set Warnings "-inexact-float".

Section PipelineA.

Import ExactFormulas Binary64Formulas.
Local Open Scope Q_scope.

(** The test values of the specification, in both arithmetics. *)
Example clamp_values :
  (clamp (1.5 : Q) == 1 /\ clamp (-0.3 : Q) == 0 /\ clamp (0.25 : Q) == 0.25) /\
  (clamp (lit 1.5 : float) = 1%float /\ clamp (lit (-0.3) : float) = 0%float /\
   clamp (lit 0.25 : float) = 0.25%float).
Proof. repeat split; vm_compute; reflexivity. Qed.

Example calculate_BVI_half :
  (exists bvi : Q, calculate_BVI (0.5 : Q) = Ok bvi /\ bvi == 0.25) /\
  calculate_BVI (lit 0.5 : float) = Ok 0.25%float.
Proof.
  split; [eexists; split; [reflexivity |] |]; vm_compute; reflexivity.
Qed.

Example calculate_HS_ends :
  (calculate_HS (1 : Q) 1 1 == 1 /\ calculate_HS (0 : Q) 0 0 == 0) /\
  (calculate_HS (lit 1.0 : float) (lit 1.0) (lit 1.0) = 1%float /\
   calculate_HS (lit 0 : float) (lit 0) (lit 0) = 0%float).
Proof. repeat split; vm_compute; reflexivity. Qed.

(** C1. [calculate_MCI freq emf] is the formula of the specification:
    with [diff = |freq - 7.83|], the score is [1 - diff/2.5] when
    [diff <= 2.5] and [0] otherwise, and the result is the score times
    [1 - emf] saturated into [[0,1]].  Outside the tolerance the result
    is [0] whatever [emf] is, and [calculate_MCI 7.83 0] is [1].  On
    binary64 floats the same operations are taken in the same order, each
    one rounded; the result compares equal to [0] for every float [freq]
    whose value is more than [2.5] away from [7.83] and every finite
    [emf], and the two point values of the specification,
    [calculate_MCI 7.83 0 = 1.0] and [calculate_MCI 15.0 0 = 0], are what
    binary64 computes. *)
Theorem calculate_MCI_formula :
  (forall freq emf : Q, calculate_MCI freq emf == Spec.MCI freq emf) /\
  (forall freq emf : Q, 2.5 < Qabs (freq - 7.83) -> calculate_MCI freq emf == 0) /\
  calculate_MCI (7.83 : Q) 0 == 1 /\
  (forall freq emf : float,
      let diff := abs (PrimFloat.sub freq 7.83) in
      let score :=
        if PrimFloat.leb diff 2.5
        then PrimFloat.sub 1 (PrimFloat.div diff 2.5) else 0%float in
      calculate_MCI freq emf = clamp (PrimFloat.mul score (PrimFloat.sub 1 emf))) /\
  (forall (freq emf : float) (q : Q),
      to_Q freq = Some q -> 2.5 < Qabs (q - 7.83) -> is_finite emf = true ->
      PrimFloat.eqb (calculate_MCI freq emf) 0 = true) /\
  calculate_MCI (lit 7.83 : float) (lit 0) = 1%float /\
  calculate_MCI (lit 15.0 : float) (lit 0) = 0%float.
Proof.
  split; [| split; [| split; [| split; [| split; [| split]]]]].
  - intros freq emf. rewrite calculate_MCI_unfold, clamp_saturate.
    unfold Spec.MCI. now rewrite score_spec.
  - intros freq emf Hout. rewrite calculate_MCI_unfold.
    rewrite (score_out_of_tolerance freq Hout).
    apply clamp_nonpos. lra.
  - vm_compute. reflexivity.
  - intros freq emf. apply calculate_MCI_factors.
  - exact calculate_MCI_out_of_tolerance_b64.
  - vm_compute. reflexivity.
  - vm_compute. reflexivity.
Qed.

Lemma calculate_MCI_formula_witness :
  (2.5 < Qabs (15.0 - 7.83) /\ calculate_MCI (15.0 : Q) 0 == 0) /\
  (to_Q 15%float = Some (8444249301319680 # 562949953421312) /\
   2.5 < Qabs ((8444249301319680 # 562949953421312) - 7.83) /\
   is_finite 0.5%float = true /\
   PrimFloat.eqb (calculate_MCI 15%float 0.5%float) 0 = true).
Proof.
  split.
  - split.
    + vm_compute. reflexivity.
    + apply (proj1 (proj2 calculate_MCI_formula)). vm_compute. reflexivity.
  - split; [vm_compute; reflexivity | split; [vm_compute; reflexivity |]].
    split; [reflexivity |].
    apply (proj1 (proj2 (proj2 (proj2 (proj2 calculate_MCI_formula)))) _ _
             (8444249301319680 # 562949953421312));
      vm_compute; reflexivity.
Defined.

(** C3. Whatever the inputs, in range or not, each of [calculate_MCI],
    [calculate_BVI] and [calculate_HS] returns a value of [[0,1]]: so it
    is for all rationals.  On binary64 floats the three indices of a row,
    computed in order as [generate_results] does, are floats of [[0,1]]
    for every frequency and all finite [emf] and [env_factor];
    [calculate_BVI] returns a float of [[0,1]] whenever it returns and its
    argument is no NaN, and [calculate_HS] does on finite arguments.  On
    every float, NaN and the infinities included, each result is in
    [[0,1]] or NaN, which [clamp] passes through. *)
Theorem scores_in_unit_interval :
  (forall freq emf MCI BVI env_factor : Q,
      0 <= calculate_MCI freq emf <= 1 /\
      (exists bvi : Q, calculate_BVI MCI = Ok bvi /\ 0 <= bvi <= 1) /\
      0 <= calculate_HS MCI BVI env_factor <= 1) /\
  (forall freq emf env_factor : float,
      is_finite emf = true -> is_finite env_factor = true ->
      exists bvi : float,
        calculate_BVI (calculate_MCI freq emf) = Ok bvi /\
        in_unit (calculate_MCI freq emf) /\ in_unit bvi /\
        in_unit (calculate_HS (calculate_MCI freq emf) bvi env_factor)) /\
  (forall MCI BVI env_factor bvi : float,
      (is_nan MCI = false -> calculate_BVI MCI = Ok bvi -> in_unit bvi) /\
      (is_finite MCI = true -> is_finite BVI = true -> is_finite env_factor = true ->
       in_unit (calculate_HS MCI BVI env_factor))) /\
  (forall freq emf MCI BVI env_factor : float,
      nan_or_unit (calculate_MCI freq emf) /\
      (forall bvi : float, calculate_BVI MCI = Ok bvi -> nan_or_unit bvi) /\
      nan_or_unit (calculate_HS MCI BVI env_factor)).
Proof.
  split; [| split; [| split]].
  - intros freq emf MCI BVI env_factor. split; [| split].
    + apply clamp_range.
    + exists (clamp (MCI * MCI)). split; [reflexivity | apply clamp_range].
    + apply clamp_range.
  - exact pipeline_in_unit.
  - intros MCI BVI env_factor bvi. split.
    + apply calculate_BVI_in_unit.
    + apply calculate_HS_in_unit.
  - intros freq emf MCI BVI env_factor. split; [| split].
    + apply clamp_nan_or_unit.
    + intros bvi Hbvi. unfold calculate_BVI in Hbvi.
      destruct (pow_2 MCI) as [sq | e]; [| discriminate Hbvi].
      injection Hbvi as <-. apply clamp_nan_or_unit.
    + apply clamp_nan_or_unit.
Qed.

Lemma scores_in_unit_interval_witness :
  is_finite 0.2%float = true /\ is_finite 0.9%float = true /\
  exists bvi : float,
    calculate_BVI (calculate_MCI 7.83%float 0.2%float) = Ok bvi /\
    in_unit (calculate_MCI 7.83%float 0.2%float) /\ in_unit bvi /\
    in_unit (calculate_HS (calculate_MCI 7.83%float 0.2%float) bvi 0.9%float).
Proof.
  split; [reflexivity | split; [reflexivity |]].
  apply (proj1 (proj2 scores_in_unit_interval)); reflexivity.
Defined.

(** The infinities are no real values: with an infinite [emf] the product
    of a zero score and [1 - emf] is NaN. *)
Example calculate_MCI_infinite_noise :
  is_nan (calculate_MCI (lit 15.0) infinity) = true.
Proof. vm_compute. reflexivity. Qed.

(** C9. With [emf >= 1], also beyond the documented range, the index is
    [0] at every frequency: the score is not negative, [1 - emf] is not
    positive, and [clamp] raises the product to [0].  So it is for all
    rationals, and on binary64 floats for every finite [emf >= 1] and
    every [freq], where the result compares equal to [0]. *)
Theorem calculate_MCI_full_noise :
  (forall freq emf : Q, 1 <= emf -> calculate_MCI freq emf == 0) /\
  (forall freq emf : float,
      is_finite emf = true -> PrimFloat.leb 1 emf = true ->
      PrimFloat.eqb (calculate_MCI freq emf) 0 = true).
Proof.
  split.
  - intros freq emf Hemf. rewrite calculate_MCI_unfold. apply clamp_nonpos.
    pose proof (score_range freq) as [Hlo Hhi]. nra.
  - exact calculate_MCI_zero_b64.
Qed.

Lemma calculate_MCI_full_noise_witness :
  (1 <= 1.5 /\ calculate_MCI (7.83 : Q) 1.5 == 0) /\
  (is_finite 1.5%float = true /\ PrimFloat.leb 1 1.5 = true /\
   PrimFloat.eqb (calculate_MCI 7.83%float 1.5%float) 0 = true).
Proof.
  split.
  - split.
    + vm_compute. discriminate.
    + apply (proj1 calculate_MCI_full_noise). vm_compute. discriminate.
  - split; [reflexivity | split; [reflexivity |]].
    apply (proj2 calculate_MCI_full_noise); reflexivity.
Defined.

End PipelineA.

(** ** Pipeline B: the three metrics *)

Section PipelineB.

Import ExactFormulas.
Local Open Scope Q_scope.

Lemma calculate_gei_unfold (solar_flux : Q) :
  calculate_gei solar_flux = py_round (100 - solar_flux / 10) 2.
Proof. reflexivity. Qed.

Lemma div_10 (x : Q) : x / 10 == x * (1 # 10).
Proof. field. Qed.

Lemma div_100 (x : Q) : x / 100 == x * (1 # 100).
Proof. field. Qed.

Lemma div_50000 (x : Q) : x / 50000 == x * (1 # 50000).
Proof. field. Qed.

Lemma calculate_gei_neg (solar_flux : Q) :
  calculate_gei solar_flux < 0 <-> 1000.05 < solar_flux.
Proof.
  rewrite calculate_gei_unfold, round_2_neg, div_10. split; intro; lra.
Qed.

Lemma calculate_gei_near (solar_flux : Q) :
  Qabs (100 - solar_flux / 10 - calculate_gei solar_flux) <= 1 # 200.
Proof. apply (round_2_rounded (100 - solar_flux / 10)). Qed.

(** C5. The point values of the three formulas of pipeline B, in exact
    arithmetic and in binary64: [calculate_mcr 50.0 = 0.5],
    [calculate_bvi 0.5 101325 = round (50662.5 / 50000) 2 = 1.01] and
    [calculate_gei 1361 = round (100 - 136.1) 2 = -36.1]. *)
Theorem pipeline_B_points :
  (calculate_mcr (50.0 : Q) == 0.5 /\
   (0.5 * 101325 == 50662.5 /\
    calculate_bvi (0.5 : Q) 101325 == py_round (50662.5 / 50000) 2 /\
    calculate_bvi (0.5 : Q) 101325 == 1.01) /\
   (1361 / 10 == 136.1 /\
    calculate_gei (1361 : Q) == py_round (100 - 136.1) 2 /\
    calculate_gei (1361 : Q) == -36.1)) /\
  (calculate_mcr (lit 50.0 : float) = 0.5%float /\
   calculate_bvi (lit 0.5 : float) (lit 101325) = 1.01%float /\
   calculate_gei (lit 1361 : float) = (-36.1)%float).
Proof.
  repeat split; vm_compute; reflexivity.
Qed.

(** C6 (as amended). [calculate_gei solar_flux] is [100 - solar_flux/10]
    rounded to two decimals.  It is not confined to [[0,1]] and has no
    bound on either side.  It is never positive once [solar_flux > 1000],
    and it is negative exactly when [solar_flux > 1000.05]: up to there
    the rounding returns zero.  So it is for all rationals; on binary64
    floats the same two operations and the rounding are taken in order,
    the result is never positive for a float above [1000], and it is
    negative exactly for the floats whose value is above [1000.05]. *)
Theorem calculate_gei_rounded_unbounded :
  (forall solar_flux : Q,
      Spec.rounded_2 (100 - solar_flux / 10) (calculate_gei solar_flux)) /\
  (forall solar_flux : Q, calculate_gei solar_flux < 0 <-> 1000.05 < solar_flux) /\
  (forall solar_flux : Q, 1000 < solar_flux -> calculate_gei solar_flux <= 0) /\
  (forall bound : Q, exists solar_flux : Q,
      0 <= solar_flux /\ calculate_gei solar_flux < bound) /\
  (forall bound : Q, exists solar_flux : Q, bound < calculate_gei solar_flux) /\
  calculate_gei (0 : Q) == 100 /\
  (forall solar_flux : float,
      calculate_gei solar_flux =
      b64_round (PrimFloat.sub 100 (PrimFloat.div solar_flux 10)) 2) /\
  (forall (solar_flux : float) (q : Q),
      to_Q solar_flux = Some q ->
      PrimFloat.ltb (calculate_gei solar_flux) 0 = true <-> 1000.05 < q) /\
  (forall solar_flux : float,
      PrimFloat.ltb 1000 solar_flux = true ->
      PrimFloat.leb (calculate_gei solar_flux) 0 = true) /\
  calculate_gei 0%float = 100%float /\
  calculate_gei 1e300%float = (-1e299)%float.
Proof.
  split; [| split; [| split; [| split; [| split; [| split; [| split; [| split;
    [| split; [| split]]]]]]]]].
  - intro solar_flux. apply round_2_rounded.
  - apply calculate_gei_neg.
  - intros solar_flux Hflux.
    pose proof (calculate_gei_near solar_flux) as Hnear.
    apply Qabs_Qle_condition in Hnear. rewrite div_10 in Hnear.
    destruct (Qlt_le_dec 0 (calculate_gei solar_flux)) as [Hpos | Hle];
      [exfalso | exact Hle].
    destruct (round_2_rounded (100 - solar_flux / 10)) as [[n Hn] _].
    fold (calculate_gei solar_flux) in Hn.
    assert (Hn1 : (1 <= n)%Z).
    { rewrite Hn in Hpos. unfold Qlt in Hpos. simpl in Hpos. lia. }
    assert (Hq : 1 # 100 <= calculate_gei solar_flux).
    { rewrite Hn. unfold Qle. simpl. lia. }
    lra.
  - intro bound. exists (1000 + 10 * Qabs bound + 10). split.
    + pose proof (Qabs_nonneg bound). lra.
    + pose proof (calculate_gei_near (1000 + 10 * Qabs bound + 10)) as Hnear.
      apply Qabs_Qle_condition in Hnear. rewrite div_10 in Hnear.
      pose proof (Qle_Qabs bound). pose proof (Qle_Qabs (- bound)) as Hopp.
      rewrite Qabs_opp in Hopp. lra.
  - intro bound. exists (- (10 * Qabs bound) - 10).
    pose proof (calculate_gei_near (- (10 * Qabs bound) - 10)) as Hnear.
    apply Qabs_Qle_condition in Hnear. rewrite div_10 in Hnear.
    pose proof (Qle_Qabs bound). lra.
  - vm_compute. reflexivity.
  - intro solar_flux. apply Binary64Formulas.calculate_gei_b64.
  - exact Binary64Formulas.calculate_gei_threshold_b64.
  - exact Binary64Formulas.calculate_gei_le0.
  - vm_compute. reflexivity.
  - vm_compute. reflexivity.
Qed.

Lemma calculate_gei_rounded_unbounded_witness :
  (1000.05 < 1361 /\ calculate_gei (1361 : Q) < 0) /\
  (to_Q 1361%float = Some (5985741301612544 # 4398046511104) /\
   1000.05 < 5985741301612544 # 4398046511104 /\
   PrimFloat.ltb (calculate_gei 1361%float) 0 = true) /\
  (PrimFloat.ltb 1000 1361 = true /\
   PrimFloat.leb (calculate_gei 1361%float) 0 = true).
Proof.
  split; [| split].
  - split.
    + vm_compute. reflexivity.
    + apply (proj1 (proj2 calculate_gei_rounded_unbounded)). vm_compute. reflexivity.
  - split; [vm_compute; reflexivity | split; [vm_compute; reflexivity |]].
    apply (proj1 (proj2 (proj2 (proj2 (proj2 (proj2 (proj2
             (proj2 calculate_gei_rounded_unbounded))))))) 1361%float
             (5985741301612544 # 4398046511104)).
    + vm_compute. reflexivity.
    + vm_compute. reflexivity.
  - split; [reflexivity |].
    apply (proj1 (proj2 (proj2 (proj2 (proj2 (proj2 (proj2 (proj2
             (proj2 calculate_gei_rounded_unbounded))))))))).
    reflexivity.
Defined.

(** C6 does not hold as stated: a solar flux of 1000.01 is above 1000 and
    [calculate_gei] returns zero there, in exact arithmetic and in
    binary64 (where it is the negative zero, which is not below [0]). *)
Lemma calculate_gei_zero_above_1000 :
  1000 < 1000.01 /\
  ~ calculate_gei (1000.01 : Q) < 0 /\
  calculate_gei (1000.01 : Q) == 0 /\
  calculate_gei (lit 1000.01 : float) = (-0)%float /\
  PrimFloat.ltb (calculate_gei (lit 1000.01 : float)) 0%float = false.
Proof.
  repeat split; try (vm_compute; reflexivity).
  vm_compute. discriminate.
Qed.

(** C10. On the non-negative inputs the page lets through,
    [calculate_mcr] and [calculate_bvi] after it are not negative; of
    the three metrics only [calculate_gei] goes below zero there.  So it
    is for all rationals, and on binary64 floats for all finite inputs
    that compare at least equal to zero. *)
Theorem mcr_bvi_nonneg :
  (forall magnetic_field atmospheric_pressure : Q,
      0 <= magnetic_field -> 0 <= atmospheric_pressure ->
      0 <= calculate_mcr magnetic_field /\
      0 <= calculate_bvi (calculate_mcr magnetic_field) atmospheric_pressure) /\
  (forall magnetic_field atmospheric_pressure : float,
      is_finite magnetic_field = true -> PrimFloat.leb 0 magnetic_field = true ->
      is_finite atmospheric_pressure = true ->
      PrimFloat.leb 0 atmospheric_pressure = true ->
      PrimFloat.leb 0 (calculate_mcr magnetic_field) = true /\
      PrimFloat.leb 0 (calculate_bvi (calculate_mcr magnetic_field)
                                     atmospheric_pressure) = true) /\
  (exists solar_flux : Q, 0 <= solar_flux /\ calculate_gei solar_flux < 0) /\
  (exists solar_flux : float,
      PrimFloat.leb 0 solar_flux = true /\
      PrimFloat.ltb (calculate_gei solar_flux) 0 = true).
Proof.
  split; [| split; [| split]].
  - intros magnetic_field atmospheric_pressure Hmf Hap.
    assert (Hmcr : 0 <= calculate_mcr magnetic_field).
    { unfold calculate_mcr. apply round_2_nonneg.
      change (0 <= magnetic_field / 100). rewrite div_100. lra. }
    split; [exact Hmcr |].
    unfold calculate_bvi. apply round_2_nonneg.
    change (0 <= calculate_mcr magnetic_field * atmospheric_pressure / 50000).
    rewrite div_50000. nra.
  - exact Binary64Formulas.metrics_nonneg_b64.
  - exists 1361. split.
    + vm_compute. discriminate.
    + apply calculate_gei_neg. vm_compute. reflexivity.
  - exists 1361%float. split; vm_compute; reflexivity.
Qed.

Lemma mcr_bvi_nonneg_witness :
  (0 <= 50.0 /\ 0 <= 101325 /\
   0 <= calculate_mcr (50.0 : Q) /\
   0 <= calculate_bvi (calculate_mcr (50.0 : Q)) 101325) /\
  (is_finite 50%float = true /\ PrimFloat.leb 0 50 = true /\
   is_finite 101325%float = true /\ PrimFloat.leb 0 101325 = true /\
   PrimFloat.leb 0 (calculate_mcr 50%float) = true /\
   PrimFloat.leb 0 (calculate_bvi (calculate_mcr 50%float) 101325%float) = true).
Proof.
  split.
  - split; [vm_compute; discriminate | split; [vm_compute; discriminate |]].
    apply (proj1 mcr_bvi_nonneg); vm_compute; discriminate.
  - split; [reflexivity | split; [reflexivity | split; [reflexivity |]]].
    split; [reflexivity |].
    apply (proj1 (proj2 mcr_bvi_nonneg)); reflexivity.
Defined.

End PipelineB.

(** ** The store: allocation is fresh, objects are updated in place *)

Section Frame.

Context {F : Type}.
Local Open Scope nat_scope.

Lemma nth_error_shift (h k : heap F) (i : nat) :
  nth_error (h ++ k) (List.length h + i) = nth_error k i.
Proof. induction h as [| d h IH]; [reflexivity | exact IH]. Qed.

Lemma nth_error_old (h k : heap F) (l : loc) (d : dict F) :
  nth_error h l = Some d -> nth_error (h ++ k) l = Some d.
Proof.
  intro Hl. rewrite nth_error_app1; [exact Hl |].
  apply nth_error_Some. rewrite Hl. discriminate.
Qed.

Lemma heap_set_shift (h k : heap F) (i : nat) (d : dict F) :
  heap_set (h ++ k) (List.length h + i) d = h ++ heap_set k i d.
Proof.
  induction h as [| d0 h IH]; [reflexivity |].
  cbn [List.length Nat.add app heap_set]. now rewrite IH.
Qed.

(** A computation on the dictionary at a shifted address leaves the
    objects below the shift alone. *)
Lemma at_loc_frame {A} (h k : heap F) (i : nat) (m : State (dict F) A) :
  at_loc (List.length h + i) m (h ++ k) =
  let (r, k') := at_loc i m k in (r, h ++ k').
Proof.
  unfold at_loc. rewrite nth_error_shift.
  destruct (nth_error k i) as [d |]; [| reflexivity].
  destruct (m d) as [r d']. now rewrite heap_set_shift.
Qed.

Lemma load_frame (h k : heap F) (i : nat) :
  load (List.length h + i) (h ++ k) = let (r, k') := load i k in (r, h ++ k').
Proof.
  unfold load. rewrite nth_error_shift.
  now destruct (nth_error k i).
Qed.

Lemma for_each_frame (body : State (dict F) unit) (h : heap F) :
  forall (xs : list loc) (k : heap F),
    for_each (map (Nat.add (List.length h)) xs) (fun env => at_loc env body) (h ++ k) =
    let (r, k') := for_each xs (fun env => at_loc env body) k in (r, h ++ k').
Proof.
  induction xs as [| x xs IH]; intro k; [reflexivity |].
  cbn [map for_each]. unfold bind. rewrite at_loc_frame.
  destruct (at_loc x body k) as [[[] | e] k1]; [apply IH | reflexivity].
Qed.

Lemma pd_DataFrame_frame (h : heap F) :
  forall (xs : list loc) (k : heap F),
    pd_DataFrame (map (Nat.add (List.length h)) xs) (h ++ k) =
    let (r, k') := pd_DataFrame xs k in (r, h ++ k').
Proof.
  induction xs as [| x xs IH]; intro k; [reflexivity |].
  cbn [map pd_DataFrame]. unfold bind. rewrite load_frame.
  destruct (load x k) as [[row | e] k1] eqn:Hload; [| reflexivity].
  rewrite IH. destruct (pd_DataFrame xs k1) as [[rows | e] k2]; reflexivity.
Qed.

(** Reading does not write. *)
Lemma pd_DataFrame_heap (xs : list loc) (k : heap F) :
  snd (pd_DataFrame xs k) = k.
Proof.
  revert k. induction xs as [| x xs IH]; intro k; [reflexivity |].
  cbn [pd_DataFrame]. unfold bind, load.
  destruct (nth_error k x) as [d |]; [| reflexivity].
  specialize (IH k). destruct (pd_DataFrame xs k) as [[rows | e] k2]; exact IH.
Qed.

End Frame.

(** ** [generate_results] *)

Section GenerateResults.

Context {F : Type} `{PyFloat F}.
Local Open Scope nat_scope.

(** [generate_results] allocates its five dictionaries above the
    objects of the caller, works on these alone and leaves every object
    of the caller as it found it. *)
Lemma generate_results_run (h : heap F) (custom_input : loc) (custom : dict F) :
  nth_error h custom_input = Some custom ->
  generate_results custom_input h =
  let (r, k) := score_rows (initial_rows custom) in (r, h ++ k).
Proof.
  intro Hc.
  set (d1 := preset "Earth" (lit 7.83) (lit 0.2) (lit 0.9)).
  set (d2 := preset "Mars" (lit 2.1) (lit 0.05) (lit 0.3)).
  set (d3 := preset "EMRP Bubble" (lit 7.8) (lit 0.01) (lit 1.0)).
  set (d4 := preset "Urban Earth" (lit 6.9) (lit 0.6) (lit 0.7)).
  assert (Hc4 : nth_error ((((h ++ [d1]) ++ [d2]) ++ [d3]) ++ [d4]) custom_input
                = Some custom) by (now repeat apply nth_error_old).
  unfold generate_results, score_rows, initial_rows.
  fold d1 d2 d3 d4.
  unfold bind at 1 2 3 4 5 6, new_dict, load. rewrite Hc4.
  set (d5 := dict_update _ custom).
  match goal with
  | |- context [for_each ?xs _] =>
      replace xs with (map (Nat.add (List.length h)) [0; 1; 2; 3; 4])
  end.
  2:{ rewrite !length_app. cbn [map List.length].
      repeat (apply f_equal2; [lia |]). reflexivity. }
  match goal with
  | |- _ ?hp = _ =>
      replace hp with (h ++ [d1; d2; d3; d4; d5]) by (now rewrite <- !app_assoc)
  end.
  unfold bind. rewrite for_each_frame.
  destruct (for_each [0; 1; 2; 3; 4] _ [d1; d2; d3; d4; d5]) as [[[] | e] k1];
    [apply pd_DataFrame_frame | reflexivity].
Qed.

(** No side effect: the objects that existed before the call, the
    argument among them, are the same after it, whether it returns or
    raises. *)
Lemma generate_results_frame (h : heap F) (custom_input : loc) (custom : dict F) :
  nth_error h custom_input = Some custom ->
  firstn (List.length h) (snd (generate_results custom_input h)) = h.
Proof.
  intro Hc. rewrite (generate_results_run h custom_input custom Hc).
  destruct (score_rows (initial_rows custom)) as [r k]. cbn [snd].
  rewrite firstn_app, Nat.sub_diag, firstn_all. cbn. apply app_nil_r.
Qed.

(** The loop body on a dictionary with the four keys of a preset: the
    three new keys are appended in order, unless the square in
    [calculate_BVI] raises, in which case only [MCI] was set. *)
Lemma score_env_preset (name : string) (freq emf env_factor : F) :
  score_env (preset name freq emf env_factor) =
  match calculate_BVI (calculate_MCI freq emf) with
  | Ok bvi => (Ok tt, scored name freq emf env_factor bvi)
  | Raise e =>
      (Raise e, dict_set (preset name freq emf env_factor) "MCI"
                         (Num (calculate_MCI freq emf)))
  end.
Proof.
  unfold score_env, bind, getitem, setitem, lift, preset, scored.
  cbn [dict_display dict_update fold_left dict_set dict_get fst snd as_num
       String.eqb Ascii.eqb Bool.eqb].
  destruct (calculate_BVI (calculate_MCI freq emf)) as [bvi | e]; reflexivity.
Qed.

(** The fifth display, [{"Environment": "Custom Input", **custom_input}],
    on the dictionary of the three sliders. *)
Lemma custom_row (freq emf env_factor : F) :
  dict_update (dict_display [("Environment", Str "Custom Input")]%string)
              (slider_input freq emf env_factor)
  = preset "Custom Input" freq emf env_factor.
Proof. reflexivity. Qed.

(** The loop and the table on five dictionaries: the rows are scored in
    order, the first exception ends the run. *)
Lemma score_rows_unfold (d1 d2 d3 d4 d5 : dict F) :
  score_rows [d1; d2; d3; d4; d5] =
  match score_env d1 with
  | (Raise e, r1) => (Raise e, [r1; d2; d3; d4; d5])
  | (Ok _, r1) =>
  match score_env d2 with
  | (Raise e, r2) => (Raise e, [r1; r2; d3; d4; d5])
  | (Ok _, r2) =>
  match score_env d3 with
  | (Raise e, r3) => (Raise e, [r1; r2; r3; d4; d5])
  | (Ok _, r3) =>
  match score_env d4 with
  | (Raise e, r4) => (Raise e, [r1; r2; r3; r4; d5])
  | (Ok _, r4) =>
  match score_env d5 with
  | (Raise e, r5) => (Raise e, [r1; r2; r3; r4; r5])
  | (Ok _, r5) => (Ok [r1; r2; r3; r4; r5], [r1; r2; r3; r4; r5])
  end end end end end.
Proof.
  unfold score_rows, for_each, bind, at_loc. cbn [nth_error].
  destruct (score_env d1) as [[[] | e1] r1]; [| reflexivity]. cbn [heap_set nth_error].
  destruct (score_env d2) as [[[] | e2] r2]; [| reflexivity]. cbn [heap_set nth_error].
  destruct (score_env d3) as [[[] | e3] r3]; [| reflexivity]. cbn [heap_set nth_error].
  destruct (score_env d4) as [[[] | e4] r4]; [| reflexivity]. cbn [heap_set nth_error].
  destruct (score_env d5) as [[[] | e5] r5]; reflexivity.
Qed.

(** When [generate_results] returns, the table has five rows and the
    first four are the scored presets. *)
Lemma generate_results_returns
      (h h' : heap F) (custom_input : loc) (custom : dict F) (table : DataFrame F) :
  nth_error h custom_input = Some custom ->
  generate_results custom_input h = (Ok table, h') ->
  exists r1 r2 r3 r4 r5 : dict F,
    table = [r1; r2; r3; r4; r5] /\
    h' = h ++ table /\
    is_scored "Earth" (lit 7.83) (lit 0.2) (lit 0.9) r1 /\
    is_scored "Mars" (lit 2.1) (lit 0.05) (lit 0.3) r2 /\
    is_scored "EMRP Bubble" (lit 7.8) (lit 0.01) (lit 1.0) r3 /\
    is_scored "Urban Earth" (lit 6.9) (lit 0.6) (lit 0.7) r4 /\
    score_env (dict_update (dict_display [("Environment", Str "Custom Input")]%string)
                           custom) = (Ok tt, r5).
Proof.
  intros Hc. rewrite (generate_results_run h custom_input custom Hc).
  unfold initial_rows. rewrite score_rows_unfold, !score_env_preset.
  unfold is_scored.
  destruct (calculate_BVI (calculate_MCI (lit 7.83) (lit 0.2))) as [b1 | e1];
    [| discriminate].
  destruct (calculate_BVI (calculate_MCI (lit 2.1) (lit 0.05))) as [b2 | e2];
    [| discriminate].
  destruct (calculate_BVI (calculate_MCI (lit 7.8) (lit 0.01))) as [b3 | e3];
    [| discriminate].
  destruct (calculate_BVI (calculate_MCI (lit 6.9) (lit 0.6))) as [b4 | e4];
    [| discriminate].
  destruct (score_env _) as [[[] | e5] r5]; [| discriminate].
  intro Hrun. injection Hrun as <- <-.
  exists (scored "Earth" (lit 7.83) (lit 0.2) (lit 0.9) b1),
         (scored "Mars" (lit 2.1) (lit 0.05) (lit 0.3) b2),
         (scored "EMRP Bubble" (lit 7.8) (lit 0.01) (lit 1.0) b3),
         (scored "Urban Earth" (lit 6.9) (lit 0.6) (lit 0.7) b4), r5.
  repeat split; eauto.
Qed.

End GenerateResults.

(** ** The table of [generate_results] *)

Import ExactFormulas Binary64Formulas.

Section Table.

Context {F : Type} `{ClampedSquares F}.
Local Open Scope string_scope.
Local Open Scope list_scope.

(** An index is a clamped value, so its square does not raise and every
    row can be scored. *)
Lemma scored_row (name : string) (freq emf env_factor : F) :
  exists row : dict F, is_scored name freq emf env_factor row.
Proof.
  destruct (square_of_clamped
              (mul (if leb (py_abs (sub freq SCHUMANN_RESONANCE)) MAX_FREQ_TOLERANCE
                    then sub (lit 1) (div (py_abs (sub freq SCHUMANN_RESONANCE))
                                          MAX_FREQ_TOLERANCE)
                    else lit 0)
                   (sub (lit 1) emf))) as [sq Hsq].
  exists (scored name freq emf env_factor (clamp sq)), (clamp sq).
  split; [| reflexivity].
  unfold calculate_BVI, calculate_MCI. cbv zeta. now rewrite Hsq.
Qed.

(** C7. The custom input is the dictionary of the three slider values.
    Whatever these are, [generate_results] returns a table of exactly
    five rows: Earth, Mars, EMRP Bubble and Urban Earth
    with their fixed parameters, then Custom Input with the values
    passed in; each row holds [calculate_MCI], [calculate_BVI] and
    [calculate_HS] applied in that order to its own frequency, noise and
    environment factor.  The table is a function of the slider values
    alone, and the call leaves behind nothing but its own five
    dictionaries: every object of the caller, the argument included, is
    as it was.  This holds in exact arithmetic and in binary64. *)
Theorem generate_results_table (freq emf env_factor : F) :
  exists r1 r2 r3 r4 r5 : dict F,
    is_scored "Earth" (lit 7.83) (lit 0.2) (lit 0.9) r1 /\
    is_scored "Mars" (lit 2.1) (lit 0.05) (lit 0.3) r2 /\
    is_scored "EMRP Bubble" (lit 7.8) (lit 0.01) (lit 1.0) r3 /\
    is_scored "Urban Earth" (lit 6.9) (lit 0.6) (lit 0.7) r4 /\
    is_scored "Custom Input" freq emf env_factor r5 /\
    forall (h : heap F) (custom_input : loc),
      nth_error h custom_input = Some (slider_input freq emf env_factor) ->
      generate_results custom_input h =
      (Ok [r1; r2; r3; r4; r5], h ++ [r1; r2; r3; r4; r5]).
Proof.
  destruct (scored_row "Earth" (lit 7.83) (lit 0.2) (lit 0.9)) as [r1 Hr1].
  destruct (scored_row "Mars" (lit 2.1) (lit 0.05) (lit 0.3)) as [r2 Hr2].
  destruct (scored_row "EMRP Bubble" (lit 7.8) (lit 0.01) (lit 1.0)) as [r3 Hr3].
  destruct (scored_row "Urban Earth" (lit 6.9) (lit 0.6) (lit 0.7)) as [r4 Hr4].
  destruct (scored_row "Custom Input" freq emf env_factor) as [r5 Hr5].
  exists r1, r2, r3, r4, r5. repeat (split; [assumption |]).
  intros h custom_input Hc.
  destruct Hr1 as (b1 & Hb1 & ->), Hr2 as (b2 & Hb2 & ->), Hr3 as (b3 & Hb3 & ->),
           Hr4 as (b4 & Hb4 & ->), Hr5 as (b5 & Hb5 & ->).
  rewrite (generate_results_run h custom_input _ Hc).
  unfold initial_rows. rewrite custom_row, score_rows_unfold, !score_env_preset.
  rewrite Hb1, Hb2, Hb3, Hb4, Hb5. reflexivity.
Qed.

End Table.

Lemma generate_results_table_witness :
  exists table : DataFrame float,
    generate_results 0%nat [slider_input (lit 7.83 : float) (lit 0.2) (lit 0.9)]
    = (Ok table, [slider_input (lit 7.83 : float) (lit 0.2) (lit 0.9)] ++ table) /\
    List.length table = 5%nat.
Proof.
  destruct (generate_results_table (lit 7.83 : float) (lit 0.2) (lit 0.9))
    as (r1 & r2 & r3 & r4 & r5 & _ & _ & _ & _ & _ & Hrun).
  exists [r1; r2; r3; r4; r5]. split; [| reflexivity].
  apply Hrun. reflexivity.
Defined.

Section Presets.

Local Open Scope string_scope.
Local Open Scope list_scope.

(** C8. The first four rows do not depend on the custom input: any two
    calls that return agree on them, they are the scored presets Earth
    (7.83, 0.2, 0.9), Mars (2.1, 0.05, 0.3), EMRP Bubble (7.8, 0.01, 1.0)
    and Urban Earth (6.9, 0.6, 0.7), and both tables have five rows, so
    the custom input shows in the fifth row only. *)
Theorem presets_independent_of_custom_input
      {F : Type} `{PyFloat F}
      (h1 h2 h1' h2' : heap F) (custom_input1 custom_input2 : loc)
      (custom1 custom2 : dict F) (table1 table2 : DataFrame F) :
  nth_error h1 custom_input1 = Some custom1 ->
  nth_error h2 custom_input2 = Some custom2 ->
  generate_results custom_input1 h1 = (Ok table1, h1') ->
  generate_results custom_input2 h2 = (Ok table2, h2') ->
  firstn 4%nat table1 = firstn 4%nat table2 /\
  List.length table1 = 5%nat /\ List.length table2 = 5%nat /\
  exists r1 r2 r3 r4 : dict F,
    firstn 4%nat table1 = [r1; r2; r3; r4] /\
    is_scored "Earth" (lit 7.83) (lit 0.2) (lit 0.9) r1 /\
    is_scored "Mars" (lit 2.1) (lit 0.05) (lit 0.3) r2 /\
    is_scored "EMRP Bubble" (lit 7.8) (lit 0.01) (lit 1.0) r3 /\
    is_scored "Urban Earth" (lit 6.9) (lit 0.6) (lit 0.7) r4.
Proof.
  intros Hc1 Hc2 Hrun1 Hrun2.
  destruct (generate_results_returns h1 h1' custom_input1 custom1 table1 Hc1 Hrun1)
    as (r1 & r2 & r3 & r4 & r5 & -> & _ & Hr1 & Hr2 & Hr3 & Hr4 & _).
  destruct (generate_results_returns h2 h2' custom_input2 custom2 table2 Hc2 Hrun2)
    as (s1 & s2 & s3 & s4 & s5 & -> & _ & Hs1 & Hs2 & Hs3 & Hs4 & _).
  assert (Hsame : forall name freq emf env_factor (r s : dict F),
             is_scored name freq emf env_factor r ->
             is_scored name freq emf env_factor s -> r = s).
  { intros name freq emf env_factor r s (b & Hb & ->) (b' & Hb' & ->).
    rewrite Hb in Hb'. now injection Hb' as <-. }
  rewrite (Hsame _ _ _ _ _ _ Hr1 Hs1), (Hsame _ _ _ _ _ _ Hr2 Hs2),
          (Hsame _ _ _ _ _ _ Hr3 Hs3), (Hsame _ _ _ _ _ _ Hr4 Hs4).
  repeat split. exists s1, s2, s3, s4. repeat split; assumption.
Qed.

Lemma presets_independent_of_custom_input_witness :
  exists table1 table2 : DataFrame Q,
    fst (generate_results 0%nat [slider_input (7.83 : Q) 0.2 0.9]) = Ok table1 /\
    fst (generate_results 0%nat [slider_input (0 : Q) 1 0.5]) = Ok table2 /\
    firstn 4%nat table1 = firstn 4%nat table2 /\
    nth 4%nat table1 [] <> nth 4%nat table2 [].
Proof.
  destruct (generate_results 0%nat [slider_input (7.83 : Q) 0.2 0.9])
    as [[table1 | e1] h1'] eqn:Hrun1; [| vm_compute in Hrun1; discriminate Hrun1].
  destruct (generate_results 0%nat [slider_input (0 : Q) 1 0.5])
    as [[table2 | e2] h2'] eqn:Hrun2; [| vm_compute in Hrun2; discriminate Hrun2].
  exists table1, table2. repeat split.
  - apply (presets_independent_of_custom_input
             [slider_input (7.83 : Q) 0.2 0.9] [slider_input (0 : Q) 1 0.5]
             h1' h2' 0%nat 0%nat _ _ table1 table2 eq_refl eq_refl Hrun1 Hrun2).
  - vm_compute in Hrun1. vm_compute in Hrun2.
    injection Hrun1 as <- _. injection Hrun2 as <- _.
    vm_compute. discriminate.
Defined.

(** C2 (as amended). The Earth row of the table, whatever the slider
    values.  In exact arithmetic it holds [MCI = 0.8], [BVI = 0.64] and
    [HS = 0.746].  In binary64 it holds the float nearest to 0.8 for
    [MCI], and for [BVI] and [HS] the floats 0.6400000000000001 and
    0.7460000000000001, one unit in the last place above those nearest
    to 0.64 and 0.746; the three floats are within [1e-15] of 0.8, 0.64
    and 0.746. *)
Theorem earth_row :
  (forall freq emf env_factor : Q,
      exists (earth : dict Q) (rest : DataFrame Q) (mci bvi hs : Q),
        (forall (h : heap Q) (custom_input : loc),
            nth_error h custom_input = Some (slider_input freq emf env_factor) ->
            fst (generate_results custom_input h) = Ok (earth :: rest)) /\
        dict_get earth "Environment" = Some (Str "Earth") /\
        dict_get earth "MCI" = Some (Num mci) /\ (mci == 0.8)%Q /\
        dict_get earth "BVI" = Some (Num bvi) /\ (bvi == 0.64)%Q /\
        dict_get earth "HS" = Some (Num hs) /\ (hs == 0.746)%Q) /\
  (forall freq emf env_factor : float,
      exists (earth : dict float) (rest : DataFrame float),
        (forall (h : heap float) (custom_input : loc),
            nth_error h custom_input = Some (slider_input freq emf env_factor) ->
            fst (generate_results custom_input h) = Ok (earth :: rest)) /\
        dict_get earth "Environment" = Some (Str "Earth") /\
        dict_get earth "MCI" = Some (Num 0.8%float) /\
        dict_get earth "BVI" = Some (Num 0.6400000000000001%float) /\
        dict_get earth "HS" = Some (Num 0.7460000000000001%float)) /\
  (exists mci bvi hs : Q,
      to_Q 0.8%float = Some mci /\ (Qabs (mci - 0.8) < 1e-15)%Q /\
      to_Q 0.6400000000000001%float = Some bvi /\ (Qabs (bvi - 0.64) < 1e-15)%Q /\
      to_Q 0.7460000000000001%float = Some hs /\ (Qabs (hs - 0.746) < 1e-15)%Q) /\
  (next_up 0.64%float = 0.6400000000000001%float /\
   next_up 0.746%float = 0.7460000000000001%float).
Proof.
  split; [| split; [| split]].
  - intros freq emf env_factor.
    destruct (generate_results_table freq emf env_factor)
      as (r1 & r2 & r3 & r4 & r5 & Hr1 & _ & _ & _ & _ & Hrun).
    destruct Hr1 as (b1 & Hb1 & ->).
    vm_compute in Hb1. injection Hb1 as <-.
    eexists _, [r2; r3; r4; r5], _, _, _.
    split; [intros h custom_input Hc; now rewrite (Hrun h custom_input Hc) |].
    repeat (split; [reflexivity |]); vm_compute; reflexivity.
  - intros freq emf env_factor.
    destruct (generate_results_table freq emf env_factor)
      as (r1 & r2 & r3 & r4 & r5 & Hr1 & _ & _ & _ & _ & Hrun).
    destruct Hr1 as (b1 & Hb1 & ->).
    vm_compute in Hb1. injection Hb1 as <-.
    eexists _, [r2; r3; r4; r5].
    split; [intros h custom_input Hc; now rewrite (Hrun h custom_input Hc) |].
    repeat split; vm_compute; reflexivity.
  - do 3 eexists.
    repeat (split; [vm_compute; reflexivity |]). vm_compute. reflexivity.
  - split; vm_compute; reflexivity.
Qed.

Lemma earth_row_witness :
  exists (earth : dict float) (rest : DataFrame float),
    fst (generate_results 0%nat [slider_input (lit 7.83 : float) (lit 0.2) (lit 0.9)])
    = Ok (earth :: rest) /\
    dict_get earth "BVI" = Some (Num 0.6400000000000001%float).
Proof.
  destruct (proj1 (proj2 earth_row) (lit 7.83) (lit 0.2) (lit 0.9))
    as (earth & rest & Hrun & _ & _ & Hbvi & _).
  exists earth, rest. split; [| exact Hbvi].
  apply Hrun. reflexivity.
Defined.

(** C2 does not hold as stated: run in binary64 on the default slider
    values, the Earth row holds a [BVI] that is not the float 0.64 and
    an [HS] that is not the float 0.746. *)
Lemma earth_row_binary64_not_exact :
  exists (earth : dict float) (rest : DataFrame float) (h' : heap float)
         (bvi hs : float),
    generate_results 0%nat [slider_input (lit 7.83 : float) (lit 0.2) (lit 0.9)]
    = (Ok (earth :: rest), h') /\
    dict_get earth "Environment" = Some (Str "Earth") /\
    dict_get earth "BVI" = Some (Num bvi) /\ PrimFloat.eqb bvi 0.64 = false /\
    dict_get earth "HS" = Some (Num hs) /\ PrimFloat.eqb hs 0.746 = false.
Proof.
  do 5 eexists. split; [vm_compute; reflexivity |].
  repeat split; vm_compute; reflexivity.
Qed.

End Presets.

(** ** The session accumulator of [app.py] *)

Section Accumulator.

Context {F : Type} `{PyFloat F}.
Local Open Scope list_scope.

Lemma accumulated_script (w : widgets F) (st : session_state F) :
  accumulated (script w st) =
  accumulated st ++ (if run_simulation w then [simulation_record w] else []).
Proof.
  unfold script, accumulated.
  destruct (run_simulation w); cbn [simulation_results];
    [reflexivity | now rewrite app_nil_r].
Qed.

Lemma accumulated_runs (ws : list (widgets F)) :
  forall st : session_state F,
    accumulated (fold_left (fun st w => script w st) ws st) =
    accumulated st ++ map simulation_record (filter run_simulation ws).
Proof.
  induction ws as [| w ws IH]; intro st; cbn [fold_left filter map].
  - now rewrite app_nil_r.
  - rewrite IH, accumulated_script.
    destruct (run_simulation w); cbn [map]; now rewrite <- app_assoc.
Qed.

Lemma session_snoc (ws : list (widgets F)) (w : widgets F) :
  session (ws ++ [w]) = script w (session ws).
Proof. unfold session. now rewrite fold_left_app. Qed.

(** C4. The accumulator is append-only.  After any sequence of runs of
    the script it holds one record per "Run Simulation" action, in the
    order of the actions; a run changes the sequence only by adding the
    record of its own inputs at the end, so the records already there
    stay as they were; and [n] actions on the same inputs leave [n]
    records of equal value, none merged or dropped. *)
Theorem accumulator_append_only (ws : list (widgets F)) :
  accumulated (session ws) = map simulation_record (filter run_simulation ws) /\
  List.length (accumulated (session ws)) = List.length (filter run_simulation ws) /\
  (forall w : widgets F,
      accumulated (session (ws ++ [w])) =
      accumulated (session ws) ++
      (if run_simulation w then [simulation_record w] else [])) /\
  (forall (w : widgets F) (n : nat),
      run_simulation w = true ->
      accumulated (session (repeat w n)) = repeat (simulation_record w) n).
Proof.
  assert (Hacc : forall vs : list (widgets F),
             accumulated (session vs) = map simulation_record (filter run_simulation vs))
    by (intro vs; apply (accumulated_runs vs new_session)).
  split; [apply Hacc | split; [| split]].
  - now rewrite Hacc, length_map.
  - intro w. rewrite session_snoc. apply accumulated_script.
  - intros w n Hrun. rewrite Hacc.
    induction n as [| n IH]; [reflexivity |].
    cbn [repeat filter]. rewrite Hrun. cbn [map]. now rewrite IH.
Qed.

End Accumulator.

Lemma accumulator_append_only_witness :
  let earth : widgets float :=
    {| planet := "Earth"; magnetic_field := lit 50.0;
       atmospheric_pressure := lit 101325; solar_flux := lit 1361;
       run_simulation := true |} in
  accumulated (session (repeat earth 3)) = repeat (simulation_record earth) 3.
Proof.
  intro earth.
  apply (proj2 (proj2 (proj2 (accumulator_append_only (@nil (widgets float)))))).
  reflexivity.
Defined.


(** * Further properties of the two programs *)

(** ** The order of floats *)

Section Binary64Order.

Import Binary64Rounding.
Local Open Scope Z_scope.

Local Abbreviation SF_one := (S754_finite false 4503599627370496 (-52)).

Lemma leb_ltb_false (x y : float) :
  PrimFloat.leb x y = true -> PrimFloat.ltb y x = false.
Proof.
  rewrite leb_spec, ltb_spec. unfold SFleb, SFltb.
  rewrite (SFcompare_antisym (Prim2SF x) (Prim2SF y)).
  destruct (SFcompare (Prim2SF x) (Prim2SF y)) as [[] |]; cbn; congruence.
Qed.

Lemma leb_false_ltb (x y : float) :
  is_nan x = false -> is_nan y = false ->
  PrimFloat.leb x y = false -> PrimFloat.ltb y x = true.
Proof.
  rewrite !is_nan_false, ltb_spec, leb_spec. intros Hx Hy.
  unfold SFltb, SFleb. rewrite (SFcompare_antisym (Prim2SF x) (Prim2SF y)).
  pose proof (SFcompare_None _ _ Hx Hy) as Hc.
  destruct (SFcompare (Prim2SF x) (Prim2SF y)) as [[] |];
    cbn [option_map CompOpp]; congruence.
Qed.

(** The order of floats is transitive. *)
Lemma SFcompare_trans (a b c : spec_float) :
  SFleb a b = true -> SFltb b c = true -> SFltb a c = true.
Proof.
  unfold SFleb, SFltb.
  destruct a as [sa | sa | | sa ma ea], b as [sb | sb | | sb mb eb],
           c as [sc | sc | | sc mc ec];
    try destruct sa; try destruct sb; try destruct sc;
    cbn [SFcompare]; try discriminate; try reflexivity.
  all: change (Pos.compare_cont Eq) with Pos.compare.
  all: destruct (Z.compare_spec ea eb), (Z.compare_spec eb ec), (Z.compare_spec ea ec);
    cbn [CompOpp]; try discriminate; try reflexivity; try lia.
  all: destruct (Pos.compare_spec ma mb), (Pos.compare_spec mb mc),
         (Pos.compare_spec ma mc); cbn [CompOpp]; try discriminate; try reflexivity; lia.
Qed.

Lemma below_leb (x : spec_float) (pB : positive) (eB : Z) :
  below false x (Zpos pB) eB -> SFleb x (S754_finite false pB eB) = true.
Proof.
  intros [-> | (m & e & -> & He & Hm)]; [reflexivity |].
  unfold SFleb. cbn [SFcompare].
  destruct (Z.compare_spec e eB) as [-> | Hlt | Hgt]; [| reflexivity | lia].
  rewrite Z.sub_diag, Z.pow_0_r, Z.mul_1_r in Hm.
  change (Pos.compare_cont Eq m pB) with (Pos.compare m pB).
  destruct (Pos.compare_spec m pB); try reflexivity. lia.
Qed.

Lemma SFleb_finite_intro (m1 m2 : positive) (e1 e2 : Z) :
  e1 < e2 \/ (e1 = e2 /\ Zpos m1 <= Zpos m2) ->
  SFleb (S754_finite false m1 e1) (S754_finite false m2 e2) = true.
Proof.
  intro H. unfold SFleb. cbn [SFcompare].
  destruct (Z.compare_spec e1 e2) as [He | He | He]; [| reflexivity | lia].
  change (Pos.compare_cont Eq m1 m2) with (Pos.compare m1 m2).
  destruct (Pos.compare_spec m1 m2); try reflexivity. lia.
Qed.

(** A float of [[0,1]] is a zero or a mantissa at most [2 ^ (- e)]. *)
Lemma unit_form (m : positive) (e : Z) :
  bounded prec emax m e = true ->
  SFleb (S754_finite false m e) SF_one = true ->
  e <= -52 /\ Zpos m <= 2 ^ (- e).
Proof.
  intros Hb Hle. apply SFleb_finite in Hle.
  destruct (bounded_canonical m e Hb) as [_ [_ Hm]].
  destruct Hle as [Hlt | [-> Hle]].
  - split; [lia |].
    assert (2 ^ 53 <= 2 ^ (- e)) by (apply Z.pow_le_mono_r; lia). lia.
  - split; [lia |]. exact Hle.
Qed.

Lemma below_one_form (x : spec_float) :
  below false x 4503599627370496 (-52) ->
  (exists s, x = S754_zero s) \/
  exists m e, x = S754_finite false m e /\ e <= -52 /\ Zpos m <= 2 ^ (- e).
Proof.
  intros [-> | (m & e & -> & He & Hm)]; [left; now exists false |].
  right. exists m, e. split; [reflexivity |]. split; [exact He |].
  change 4503599627370496 with (2 ^ 52) in Hm.
  rewrite <- pow2_add in Hm by lia. now replace (52 + (-52 - e)) with (- e) in Hm by lia.
Qed.

(** The product of two floats of [[0,1]] is at most each of them. *)
Lemma SFmul_unit_below (mx my : positive) (ex ey : Z) :
  ex <= -52 -> Zpos mx <= 2 ^ (- ex) ->
  bounded prec emax my ey = true ->
  below false (SFmul prec emax (S754_finite false mx ex) (S754_finite false my ey))
        (Zpos my) ey.
Proof.
  intros Hex Hmx Hb.
  change false with (xorb false false) at 1.
  apply SFmul_below; [exact Hb | lia |].
  replace (ey - (ex + ey)) with (- ex) by lia. nia.
Qed.

End Binary64Order.

(** ** [clamp] *)

Section ClampTheorems.

Import Binary64Rounding.

Lemma leb_not_nan (x y : float) :
  PrimFloat.leb x y = true -> is_nan x = false /\ is_nan y = false.
Proof.
  rewrite leb_spec, !is_nan_false. unfold SFleb.
  destruct (Prim2SF x), (Prim2SF y); cbn [SFcompare]; try discriminate;
    intros _; split; discriminate.
Qed.

Lemma ltb_not_nan (x y : float) :
  PrimFloat.ltb x y = true -> is_nan x = false /\ is_nan y = false.
Proof.
  rewrite ltb_spec, !is_nan_false. unfold SFltb.
  destruct (Prim2SF x), (Prim2SF y); cbn [SFcompare]; try discriminate;
    intros _; split; discriminate.
Qed.

Lemma leb_refl (x : float) : is_nan x = false -> PrimFloat.leb x x = true.
Proof.
  rewrite is_nan_false, leb_spec. intro Hx. unfold SFleb.
  now rewrite SFcompare_refl.
Qed.

Lemma leb_ltb_trans (x y z : float) :
  PrimFloat.leb x y = true -> PrimFloat.ltb y z = true -> PrimFloat.ltb x z = true.
Proof. rewrite leb_spec, !ltb_spec. apply SFcompare_trans. Qed.

Lemma clamp_in_unit (x : float) : in_unit x -> clamp x = x.
Proof.
  intros [H0 H1]. unfold clamp, clamp_between, py_max, py_min. cbn [ltb lit b64_PyFloat].
  replace (of_Q 1.0) with 1%float by (vm_compute; reflexivity).
  replace (of_Q 0.0) with 0%float by (vm_compute; reflexivity).
  now rewrite (leb_ltb_false x 1 H1), (leb_ltb_false 0 x H0).
Qed.

(** X1. [clamp] leaves the values of [[0,1]] as they are, so clamping
    twice is clamping once; in binary64 this holds of every float, NaN
    included. *)
Theorem clamp_fixes_unit_interval :
  (forall x : Q, (0 <= x <= 1)%Q -> clamp x = x) /\
  (forall x : Q, clamp (clamp x) = clamp x) /\
  (forall x : float, in_unit x -> clamp x = x) /\
  (forall x : float, clamp (clamp x) = clamp x).
Proof.
  split; [| split; [| split]].
  - apply clamp_inside.
  - intro x. apply clamp_inside, clamp_range.
  - apply clamp_in_unit.
  - intro x. destruct (clamp_binary64 x) as [[_ Hx] | [_ Hu]].
    + now rewrite !Hx.
    + now apply clamp_in_unit.
Qed.

(** X2. [clamp] with bounds of the caller: when [min_value <= max_value]
    the result lies between the two; when [min_value > max_value] the
    result is [min_value], whatever the value.  In binary64 this holds
    of every value that is no NaN. *)
Theorem clamp_between_bounds :
  (forall v lo hi : Q,
      (lo <= hi)%Q ->
      (lo <= clamp_between v lo hi <= hi)%Q) /\
  (forall v lo hi : Q, (hi < lo)%Q -> clamp_between v lo hi = lo) /\
  (forall v lo hi : float,
      is_nan v = false -> PrimFloat.leb lo hi = true ->
      PrimFloat.leb lo (clamp_between v lo hi) = true /\
      PrimFloat.leb (clamp_between v lo hi) hi = true) /\
  (forall v lo hi : float,
      is_nan v = false -> PrimFloat.ltb hi lo = true ->
      clamp_between v lo hi = lo).
Proof.
  split; [| split; [| split]].
  - intros v lo hi Hle. unfold clamp_between, py_max, py_min.
    cbn [ltb Q_PyFloat]. 
    destruct (QMicromega.Qlt_bool hi v) eqn:H1.
    + apply ExactFormulas.ltb_lt in H1.
      destruct (QMicromega.Qlt_bool hi lo) eqn:H2.
      * apply ExactFormulas.ltb_lt in H2. lra.
      * lra.
    + apply ExactFormulas.ltb_ge in H1.
      destruct (QMicromega.Qlt_bool v lo) eqn:H2.
      * lra.
      * apply ExactFormulas.ltb_ge in H2. lra.
  - intros v lo hi Hlt. unfold clamp_between, py_max, py_min.
    cbn [ltb Q_PyFloat].
    destruct (QMicromega.Qlt_bool hi v) eqn:H1.
    + apply QMicromega.Qlt_bool_iff in Hlt. now rewrite Hlt.
    + apply ExactFormulas.ltb_ge in H1.
      assert (H2 : (v < lo)%Q) by lra.
      apply QMicromega.Qlt_bool_iff in H2. now rewrite H2.
  - intros v lo hi Hv Hle. unfold clamp_between, py_max, py_min.
    cbn [ltb b64_PyFloat].
    destruct (leb_not_nan lo hi Hle) as [Hlo Hhi].
    destruct (PrimFloat.ltb hi v) eqn:H1.
    + rewrite (leb_ltb_false lo hi Hle). split; [exact Hle | now apply leb_refl].
    + apply ltb_false_leb in H1; [| assumption ..].
      destruct (PrimFloat.ltb v lo) eqn:H2.
      * split; [now apply leb_refl | exact Hle].
      * split; [| exact H1]. now apply ltb_false_leb.
  - intros v lo hi Hv Hlt. unfold clamp_between, py_max, py_min.
    cbn [ltb b64_PyFloat].
    destruct (ltb_not_nan hi lo Hlt) as [Hhi Hlo].
    destruct (PrimFloat.ltb hi v) eqn:H1.
    + now rewrite Hlt.
    + apply ltb_false_leb in H1; [| assumption ..].
      now rewrite (leb_ltb_trans v hi lo H1 Hlt).
Qed.

End ClampTheorems.

Lemma clamp_fixes_unit_interval_witness :
  clamp 0.25%float = 0.25%float /\ clamp (1 # 4)%Q = (1 # 4)%Q.
Proof.
  split.
  - apply (proj1 (proj2 (proj2 clamp_fixes_unit_interval))).
    split; vm_compute; reflexivity.
  - apply (proj1 clamp_fixes_unit_interval). split; vm_compute; discriminate.
Defined.

Lemma clamp_between_bounds_witness :
  clamp_between 0.5%float 2%float 1%float = 2%float /\
  clamp_between (1 # 2)%Q 2%Q 1%Q = 2%Q.
Proof.
  split.
  - apply (proj2 (proj2 (proj2 clamp_between_bounds))); vm_compute; reflexivity.
  - apply (proj1 (proj2 clamp_between_bounds)). vm_compute. reflexivity.
Defined.

(** ** [calculate_BVI]: the square *)

Section Squares.

Import Binary64Rounding.
Local Open Scope Z_scope.

Local Abbreviation SF_one := (S754_finite false 4503599627370496 (-52)).

(** The product of two floats of [[0,1]] is a float of [[0,1]]. *)
Lemma SFmul_unit_one (mx my : positive) (ex ey : Z) :
  ex <= -52 -> Zpos mx <= 2 ^ (- ex) ->
  ey <= -52 -> Zpos my <= 2 ^ (- ey) ->
  below false (SFmul prec emax (S754_finite false mx ex) (S754_finite false my ey))
        4503599627370496 (-52).
Proof.
  intros Hex Hmx Hey Hmy.
  change false with (xorb false false) at 1.
  apply SFmul_below; [reflexivity | lia |].
  change 4503599627370496 with (2 ^ 52). rewrite <- pow2_add by lia.
  replace (52 + (-52 - (ex + ey))) with (- ex + - ey) by lia.
  rewrite pow2_add by lia.
  assert (0 < 2 ^ (- ex)) by (apply Z.pow_pos_nonneg; lia).
  assert (0 < 2 ^ (- ey)) by (apply Z.pow_pos_nonneg; lia).
  nia.
Qed.

Lemma below_in_unit (x : float) :
  below false (Prim2SF x) 4503599627370496 (-52) -> in_unit x.
Proof.
  intro Hbel. split.
  - rewrite leb_0_spec. apply below_shape in Hbel. destruct Hbel as [_ Hn].
    rewrite SFnonneg_spec in Hn. now apply andb_prop in Hn.
  - rewrite leb_spec.
    replace (Prim2SF 1) with SF_one by (vm_compute; reflexivity).
    now apply below_leb.
Qed.

(** The square of a float of [[0,1]] is a float of [[0,1]], at most the
    float itself. *)
Lemma square_in_unit (x : float) :
  in_unit x ->
  in_unit (PrimFloat.mul x x) /\ PrimFloat.leb (PrimFloat.mul x x) x = true.
Proof.
  intros [H0 H1]. pose proof (Prim2SF_valid x) as Hv.
  rewrite leb_0_spec in H0. rewrite leb_spec in H1.
  replace (Prim2SF 1) with SF_one in H1 by (vm_compute; reflexivity).
  assert (Hbel : below false (Prim2SF (PrimFloat.mul x x)) 4503599627370496 (-52) /\
                 SFleb (Prim2SF (PrimFloat.mul x x)) (Prim2SF x) = true).
  { rewrite mul_spec. unfold SF64mul.
    destruct (Prim2SF x) as [s | [] | | [] m e]; try discriminate.
    - cbn [SFmul]. rewrite xorb_nilpotent. split; [now left | reflexivity].
    - cbn [valid_binary] in Hv.
      destruct (unit_form m e Hv H1) as [He Hm].
      split; [now apply SFmul_unit_one |].
      apply below_leb. now apply SFmul_unit_below. }
  destruct Hbel as [Hone Hle].
  split; [now apply below_in_unit |]. now rewrite leb_spec.
Qed.

Lemma calculate_BVI_unit (m : float) :
  in_unit m -> calculate_BVI m = Ok (PrimFloat.mul m m).
Proof.
  intro Hm. unfold calculate_BVI. cbn [pow_2 b64_PyFloat]. unfold b64_pow_2.
  rewrite (square_unit_finite m Hm), andb_false_r.
  f_equal. apply clamp_in_unit. now apply square_in_unit.
Qed.


(** The square of a finite float of exponent [460] or more, that is of
    magnitude [2 ^ 512] or more, is out of range. *)
Lemma SFmul_overflow (s : bool) (m : positive) (e : Z) :
  bounded prec emax m e = true -> 460 <= e ->
  SFmul prec emax (S754_finite s m e) (S754_finite s m e) = S754_infinity false.
Proof.
  intros Hb He. cbn [SFmul]. rewrite xorb_nilpotent.
  pose proof (bounded_normal m e Hb ltac:(lia)) as Hm.
  destruct (binary_round_aux_pack false (Zpos (m * m)) (e + e) loc_Exact ltac:(lia))
    as (m1 & Hm1 & _ & _ & _ & ->).
  set (d := Zdigits2 (Zpos (m * m))) in *.
  assert (Hsq : 2 ^ 104 <= Zpos (m * m)).
  { change (2 ^ 104) with (2 ^ 52 * 2 ^ 52). rewrite Pos2Z.inj_mul. nia. }
  assert (Hd : 105 <= d).
  { destruct (Z_lt_le_dec d 105) as [Hlt | Hge]; [| exact Hge].
    assert (Hle : d <= 104) by lia.
    apply (Zdigits2_lt_pow2 (Zpos (m * m)) 104) in Hle; lia. }
  assert (Hlog : 2 ^ (d - 1) <= Zpos (m * m)).
  { subst d. rewrite Zdigits2_log2 by lia.
    replace (Z.log2 (Zpos (m * m)) + 1 - 1) with (Z.log2 (Zpos (m * m))) by lia.
    apply Z.log2_spec. lia. }
  assert (He1 : Z.max (e + e) (fexp prec emax (d + (e + e))) = d + (e + e) - 53).
  { unfold fexp, SpecFloat.emin, prec, emax. lia. }
  rewrite He1 in *.
  replace (d + (e + e) - 53 - (e + e)) with (d - 53) in Hm1 by lia.
  assert (Hm0 : 1 <= Zpos (m * m) / 2 ^ (d - 53)).
  { apply Z.div_le_lower_bound; [apply Z.pow_pos_nonneg; lia |].
    rewrite Z.mul_1_r.
    assert (2 ^ (d - 53) <= 2 ^ (d - 1)) by (apply Z.pow_le_mono_r; lia). lia. }
  unfold pack.
  replace (m1 =? 0) with false by (symmetry; apply Z.eqb_neq; lia).
  replace (d + (e + e) - 53 + 1 <=? 971) with false by (symmetry; apply Z.leb_gt; lia).
  replace (d + (e + e) - 53 <=? 971) with false by (symmetry; apply Z.leb_gt; lia).
  now destruct (m1 =? 2 ^ 53).
Qed.

(** The square of a smaller finite float is finite. *)
Lemma SFmul_no_overflow (s : bool) (m : positive) (e : Z) :
  bounded prec emax m e = true -> e <= 459 ->
  SFfin (SFmul prec emax (S754_finite s m e) (S754_finite s m e)) = true.
Proof.
  intros Hb He.
  destruct (bounded_canonical m e Hb) as [_ [_ Hm]].
  assert (Hbel : below (xorb s s)
                       (SFmul prec emax (S754_finite s m e) (S754_finite s m e))
                       9007199254740991 971).
  { apply SFmul_below; [reflexivity | lia |].
    assert (H53 : 2 ^ 53 <= 2 ^ (971 - (e + e))) by (apply Z.pow_le_mono_r; lia).
    change (2 ^ 53) with 9007199254740992 in *. nia. }
  apply below_shape in Hbel. apply Hbel.
Qed.

(** X4. In binary64 [calculate_BVI] raises [OverflowError] exactly on
    the finite floats of magnitude [2 ^ 512], about [1.34e154], or
    more; on every other float it returns, and in exact arithmetic it
    always returns. *)
Theorem calculate_BVI_overflow :
  (forall x : float,
      calculate_BVI x = Raise OverflowError <->
      is_finite x = true /\
      PrimFloat.leb 1.3407807929942597e154 (abs x) = true) /\
  (forall x : float,
      calculate_BVI x = Raise OverflowError \/ exists y, calculate_BVI x = Ok y) /\
  Prim2SF 1.3407807929942597e154 = S754_finite false (Z.to_pos (2 ^ 52)) (512 - 52) /\
  (forall x : Q, exists y : Q, calculate_BVI x = Ok y).
Proof.
  split; [| split; [| split]].
  - intro x. unfold calculate_BVI. cbn [pow_2 b64_PyFloat]. unfold b64_pow_2.
    rewrite is_finite_spec, leb_spec, abs_spec.
    replace (Prim2SF 1.3407807929942597e154)
      with (S754_finite false 4503599627370496 460) by (vm_compute; reflexivity).
    pose proof (Prim2SF_valid x) as Hv.
    assert (Hinf : is_infinity (PrimFloat.mul x x) = true <->
                   exists s, SFmul prec emax (Prim2SF x) (Prim2SF x) = S754_infinity s).
    { rewrite is_infinity_spec, mul_spec. reflexivity. }
    set (b := is_infinity (PrimFloat.mul x x)) in *. clearbody b.
    destruct (Prim2SF x) as [s | s | | s m e]; cbn [SFfin SFabs andb].
    + split; [| intros [_ Hle]; discriminate].
      destruct b; [| discriminate].
      destruct (proj1 Hinf eq_refl) as [s' Hs']. discriminate.
    + split; [discriminate | intros [Hf _]; discriminate].
    + split; [discriminate | intros [Hf _]; discriminate].
    + cbn [valid_binary] in Hv. split.
      * destruct b; [| discriminate].
        intros _. split; [reflexivity |].
        destruct (proj1 Hinf eq_refl) as [s' Hs'].
        destruct (Z_le_gt_dec e 459) as [Hle | Hgt].
        -- pose proof (SFmul_no_overflow s m e Hv Hle) as Hfin.
           rewrite Hs' in Hfin. discriminate.
        -- pose proof (bounded_normal m e Hv ltac:(lia)) as Hm.
           apply SFleb_finite_intro. change (2 ^ 52) with 4503599627370496 in Hm. lia.
      * intros [_ Hle]. apply SFleb_finite in Hle.
        assert (Hi : b = true).
        { apply Hinf. exists false. apply SFmul_overflow; [exact Hv | lia]. }
        now rewrite Hi.
  - intro x. destruct (calculate_BVI x) as [y | []] eqn:Hb; eauto.
    + unfold calculate_BVI in Hb. cbn [pow_2 b64_PyFloat] in Hb. unfold b64_pow_2 in Hb.
      destruct (_ && _); discriminate.
    + unfold calculate_BVI in Hb. cbn [pow_2 b64_PyFloat] in Hb. unfold b64_pow_2 in Hb.
      destruct (_ && _); discriminate.
  - vm_compute. reflexivity.
  - intro x. eexists. reflexivity.
Qed.

End Squares.


(** ** [calculate_MCI]: the two factors *)

Section NoiseBound.

Import Binary64Rounding.
Local Open Scope Z_scope.

Local Abbreviation SF_one := (S754_finite false 4503599627370496 (-52)).
Local Abbreviation SF_tolerance := (S754_finite false 5629499534213120 (-51)).

(** [1 - q] is a float of [[0,1]] when [q] is. *)
Lemma SFsub_one_unit (mq : positive) (eq : Z) :
  eq <= -52 -> Zpos mq <= 2 ^ (- eq) ->
  below false (SFsub prec emax SF_one (S754_finite false mq eq)) 4503599627370496 (-52).
Proof.
  intros He Hm. rewrite SFsub_finite. cbv zeta.
  replace (Z.min (-52) eq) with eq by lia.
  rewrite Z.sub_diag. cbn [cond_Zopp]. rewrite Z.pow_0_r, Z.mul_1_r.
  assert (H2 : 4503599627370496 * 2 ^ (-52 - eq) = 2 ^ (- eq)).
  { change 4503599627370496 with (2 ^ 52). rewrite <- pow2_add by lia. f_equal. lia. }
  set (D := _ - _).
  assert (HD : 0 <= D) by (subst D; lia).
  pose proof (binary_normalize_below D eq false 4503599627370496 (-52) eq_refl He
                ltac:(subst D; lia)) as Hbel.
  replace (if D =? 0 then false else D <? 0) with false in Hbel; [exact Hbel |].
  destruct (D =? 0); [reflexivity | symmetry; apply Z.ltb_ge; exact HD].
Qed.

Lemma SF_one_unit : below false SF_one 4503599627370496 (-52).
Proof. right. exists 4503599627370496%positive, (-52). repeat split; lia. Qed.

Lemma SFsub_one_below_one (x : spec_float) :
  valid_binary x = true -> below false x 4503599627370496 (-52) ->
  below false (SFsub prec emax SF_one x) 4503599627370496 (-52).
Proof.
  intros Hv Hx. destruct (below_one_form x Hx) as [[s ->] | (m & e & -> & He & Hm)].
  - destruct Hx as [Hx | (m & e & Hx & _)]; [| discriminate].
    injection Hx as ->. apply SF_one_unit.
  - now apply SFsub_one_unit.
Qed.

(** The score is a float of [[0,1]], whatever [freq]. *)
Lemma score_unit (y : float) :
  below false
        (Prim2SF (if PrimFloat.leb (abs y) (lit 2.5)
                  then PrimFloat.sub (lit 1) (PrimFloat.div (abs y) (lit 2.5))
                  else lit 0))
        4503599627370496 (-52).
Proof.
  destruct (PrimFloat.leb (abs y) (lit 2.5)) eqn:Hle; [| now left].
  rewrite leb_spec in Hle. rewrite sub_spec, div_spec. unfold SF64sub, SF64div.
  pose proof (Prim2SF_valid (abs y)) as Hv.
  rewrite abs_spec in *.
  replace (Prim2SF (lit 2.5)) with SF_tolerance in * by (vm_compute; reflexivity).
  replace (Prim2SF (lit 1)) with SF_one by (vm_compute; reflexivity).
  destruct (Prim2SF y) as [s | s | | s m e]; cbn [SFabs] in *; try discriminate.
  - apply SF_one_unit.
  - apply SFsub_one_below_one; [apply SFdiv_valid | now apply SFdiv_tolerance].
Qed.

Lemma one_minus_unit (emf : float) :
  in_unit emf -> below false (Prim2SF (PrimFloat.sub (lit 1) emf)) 4503599627370496 (-52).
Proof.
  intros [H0 H1]. rewrite leb_0_spec in H0. rewrite leb_spec in H1.
  replace (Prim2SF 1) with SF_one in H1 by (vm_compute; reflexivity).
  pose proof (Prim2SF_valid emf) as Hv.
  rewrite sub_spec. unfold SF64sub.
  replace (Prim2SF (lit 1)) with SF_one by (vm_compute; reflexivity).
  destruct (Prim2SF emf) as [s | [] | | [] m e]; try discriminate.
  - apply SF_one_unit.
  - cbn [valid_binary] in Hv. destruct (unit_form m e Hv H1) as [He Hm].
    now apply SFsub_one_unit.
Qed.

(** The product of two floats of [[0,1]] is a float of [[0,1]], at most
    the second. *)
Lemma SFmul_units (x y : spec_float) :
  below false x 4503599627370496 (-52) -> below false y 4503599627370496 (-52) ->
  valid_binary y = true ->
  below false (SFmul prec emax x y) 4503599627370496 (-52) /\
  SFleb (SFmul prec emax x y) y = true.
Proof.
  intros Hx Hy Hv.
  assert (Hx0 : x = S754_zero false \/
                exists m e, x = S754_finite false m e /\ e <= -52 /\ Zpos m <= 2 ^ (- e)).
  { destruct (below_one_form x Hx) as [[s ->] | Hfin]; [| now right].
    destruct Hx as [Hx | (m & e & Hx & _)]; [now left | discriminate]. }
  assert (Hy0 : y = S754_zero false \/
                exists m e, y = S754_finite false m e /\ e <= -52 /\ Zpos m <= 2 ^ (- e)).
  { destruct (below_one_form y Hy) as [[s ->] | Hfin]; [| now right].
    destruct Hy as [Hy | (m & e & Hy & _)]; [now left | discriminate]. }
  destruct Hx0 as [-> | (mx & ex & -> & Hex & Hmx)],
           Hy0 as [-> | (my & ey & -> & Hey & Hmy)].
  - split; [now left | reflexivity].
  - split; [now left | reflexivity].
  - split; [now left | reflexivity].
  - cbn [valid_binary] in Hv. split; [now apply SFmul_unit_one |].
    apply below_leb. now apply SFmul_unit_below.
Qed.

(** [1 * t] is [t]. *)
Lemma SFmul_one_l (s : bool) (m : positive) (e : Z) :
  bounded prec emax m e = true ->
  SFmul prec emax SF_one (S754_finite s m e) = S754_finite s m e.
Proof.
  intro Hb. cbn [SFmul xorb].
  destruct (bounded_canonical m e Hb) as [Hc [He Hm]].
  destruct (binary_round_aux_pack s (Zpos (4503599627370496 * m)) (-52 + e) loc_Exact
              ltac:(lia)) as (m1 & Hm1 & _ & Hlow & _ & ->).
  assert (Hmx : Zpos (4503599627370496 * m) = Zpos m * 2 ^ 52)
    by (rewrite Pos2Z.inj_mul; change (2 ^ 52) with 4503599627370496; lia).
  rewrite Hmx in *.
  rewrite Zdigits2_mul_pow2 in * by lia.
  replace (Zdigits2 (Zpos m) + 52 + (-52 + e)) with (Zdigits2 (Zpos m) + e) in * by lia.
  rewrite Hc in *.
  replace (Z.max (-52 + e) e) with e in * by lia.
  replace (e - (-52 + e)) with 52 in * by lia.
  rewrite Z.div_mul in Hm1 by (apply Z.pow_nonzero; lia).
  rewrite Z.div_mul in Hlow by (apply Z.pow_nonzero; lia).
  assert (Hm1' : m1 = Zpos m).
  { apply Hlow; [lia |]. apply Z.mul_pow2_bits_low. lia. }
  subst m1. unfold pack.
  replace (Zpos m =? 0) with false by (symmetry; apply Z.eqb_neq; lia).
  replace (Zpos m =? 2 ^ 53) with false by (symmetry; apply Z.eqb_neq; lia).
  replace (e <=? 971) with true by (symmetry; apply Z.leb_le; lia).
  reflexivity.
Qed.

Lemma mul_one_l (t : float) : PrimFloat.mul 1 t = t.
Proof.
  apply Prim2SF_inj. rewrite mul_spec. unfold SF64mul.
  replace (Prim2SF 1) with SF_one by (vm_compute; reflexivity).
  pose proof (Prim2SF_valid t) as Hv.
  destruct (Prim2SF t) as [s | s | | s m e]; try reflexivity.
  now apply SFmul_one_l.
Qed.

(** [t * 1] is [t]. *)
Lemma SFmul_one_r (s : bool) (m : positive) (e : Z) :
  bounded prec emax m e = true ->
  SFmul prec emax (S754_finite s m e) SF_one = S754_finite s m e.
Proof.
  intro Hb. cbn [SFmul]. rewrite xorb_false_r.
  destruct (bounded_canonical m e Hb) as [Hc [He Hm]].
  destruct (binary_round_aux_pack s (Zpos (m * 4503599627370496)) (e + -52) loc_Exact
              ltac:(lia)) as (m1 & Hm1 & _ & Hlow & _ & ->).
  assert (Hmx : Zpos (m * 4503599627370496) = Zpos m * 2 ^ 52)
    by (rewrite Pos2Z.inj_mul; change (2 ^ 52) with 4503599627370496; lia).
  rewrite Hmx in *.
  rewrite Zdigits2_mul_pow2 in * by lia.
  replace (Zdigits2 (Zpos m) + 52 + (e + -52)) with (Zdigits2 (Zpos m) + e) in * by lia.
  rewrite Hc in *.
  replace (Z.max (e + -52) e) with e in * by lia.
  replace (e - (e + -52)) with 52 in * by lia.
  rewrite Z.div_mul in Hm1 by (apply Z.pow_nonzero; lia).
  rewrite Z.div_mul in Hlow by (apply Z.pow_nonzero; lia).
  assert (Hm1' : m1 = Zpos m).
  { apply Hlow; [lia |]. apply Z.mul_pow2_bits_low. lia. }
  subst m1. unfold pack.
  replace (Zpos m =? 0) with false by (symmetry; apply Z.eqb_neq; lia).
  replace (Zpos m =? 2 ^ 53) with false by (symmetry; apply Z.eqb_neq; lia).
  replace (e <=? 971) with true by (symmetry; apply Z.leb_le; lia).
  reflexivity.
Qed.

Lemma mul_one_r (t : float) : PrimFloat.mul t 1 = t.
Proof.
  apply Prim2SF_inj. rewrite mul_spec. unfold SF64mul.
  replace (Prim2SF 1) with SF_one by (vm_compute; reflexivity).
  pose proof (Prim2SF_valid t) as Hv.
  destruct (Prim2SF t) as [s | s | | s m e];
    [cbn [SFmul]; now rewrite xorb_false_r .. | reflexivity | now apply SFmul_one_r].
Qed.

(** The product of two floats of [[0,1]] is at most the first. *)
Lemma SFmul_units_l (x y : spec_float) :
  below false x 4503599627370496 (-52) -> below false y 4503599627370496 (-52) ->
  valid_binary x = true ->
  SFleb (SFmul prec emax x y) x = true.
Proof.
  intros Hx Hy Hv.
  assert (Hx0 : x = S754_zero false \/
                exists m e, x = S754_finite false m e /\ e <= -52 /\ Zpos m <= 2 ^ (- e)).
  { destruct (below_one_form x Hx) as [[s ->] | Hfin]; [| now right].
    destruct Hx as [Hx | (m & e & Hx & _)]; [now left | discriminate]. }
  assert (Hy0 : y = S754_zero false \/
                exists m e, y = S754_finite false m e /\ e <= -52 /\ Zpos m <= 2 ^ (- e)).
  { destruct (below_one_form y Hy) as [[s ->] | Hfin]; [| now right].
    destruct Hy as [Hy | (m & e & Hy & _)]; [now left | discriminate]. }
  destruct Hx0 as [-> | (mx & ex & -> & Hex & Hmx)],
           Hy0 as [-> | (my & ey & -> & Hey & Hmy)]; try reflexivity.
  cbn [valid_binary] in Hv. apply below_leb.
  change false with (xorb false false) at 1.
  apply SFmul_below; [exact Hv | lia |].
  replace (ex - (ex + ey)) with (- ey) by lia. nia.
Qed.

(** Without noise the index is the score. *)
Lemma calculate_MCI_no_noise (freq : float) :
  calculate_MCI freq (lit 0) =
  (if PrimFloat.leb (abs (PrimFloat.sub freq (lit 7.83))) (lit 2.5)
   then PrimFloat.sub (lit 1) (PrimFloat.div (abs (PrimFloat.sub freq (lit 7.83))) (lit 2.5))
   else lit 0).
Proof.
  rewrite calculate_MCI_factors.
  replace (PrimFloat.sub (lit 1) (lit 0)) with 1%float by (vm_compute; reflexivity).
  rewrite mul_one_r. apply clamp_in_unit, below_in_unit, score_unit.
Qed.

(** X5. Noise caps the index: for a noise level [emf] of [[0,1]],
    [calculate_MCI] is at most [1 - emf] at every frequency, and it is
    [1 - emf] at the resonance 7.83; it is also at most the index of
    the same frequency without noise.  In binary64 [1 - emf] is the
    rounded difference. *)
Theorem calculate_MCI_noise_bound :
  (forall freq emf : Q,
      (0 <= emf <= 1)%Q -> (calculate_MCI freq emf <= 1 - emf)%Q) /\
  (forall emf : Q,
      (0 <= emf <= 1)%Q -> (calculate_MCI 7.83 emf == 1 - emf)%Q) /\
  (forall freq emf : Q,
      (0 <= emf <= 1)%Q -> (calculate_MCI freq emf <= calculate_MCI freq 0)%Q) /\
  (forall freq emf : float,
      in_unit emf ->
      PrimFloat.leb (calculate_MCI freq emf) (PrimFloat.sub (lit 1) emf) = true) /\
  (forall emf : float,
      in_unit emf -> calculate_MCI (lit 7.83) emf = PrimFloat.sub (lit 1) emf) /\
  (forall freq emf : float,
      in_unit emf ->
      PrimFloat.leb (calculate_MCI freq emf) (calculate_MCI freq (lit 0)) = true).
Proof.
  split; [| split; [| split; [| split; [| split]]]].
  - intros freq emf Hemf. rewrite calculate_MCI_unfold.
    pose proof (score_range freq) as Hs.
    set (s := if Qle_bool _ _ then _ else _) in *. clearbody s.
    rewrite clamp_inside by nra. nra.
  - intros emf Hemf. rewrite calculate_MCI_unfold.
    set (s := if Qle_bool _ _ then _ else _).
    assert (Hs : (s == 1)%Q) by (vm_compute; reflexivity).
    clearbody s. rewrite clamp_inside by nra. nra.
  - intros freq emf Hemf. rewrite !calculate_MCI_unfold.
    pose proof (score_range freq) as Hs.
    set (s := if Qle_bool _ _ then _ else _) in *. clearbody s.
    rewrite !clamp_inside by nra. nra.
  - intros freq emf Hemf. rewrite calculate_MCI_factors.
    set (s := if PrimFloat.leb _ _ then _ else _).
    destruct (SFmul_units (Prim2SF s) (Prim2SF (PrimFloat.sub (lit 1) emf)))
      as [Hone Hle];
      [apply score_unit | now apply one_minus_unit | apply Prim2SF_valid |].
    assert (Hp : Prim2SF (PrimFloat.mul s (PrimFloat.sub (lit 1) emf)) =
                 SFmul prec emax (Prim2SF s) (Prim2SF (PrimFloat.sub (lit 1) emf)))
      by (now rewrite mul_spec).
    rewrite clamp_in_unit by (apply below_in_unit; now rewrite Hp).
    now rewrite leb_spec, Hp.
  - intros emf Hemf. rewrite calculate_MCI_factors.
    replace (if PrimFloat.leb (abs (PrimFloat.sub (lit 7.83) (lit 7.83))) (lit 2.5)
             then PrimFloat.sub (lit 1)
                    (PrimFloat.div (abs (PrimFloat.sub (lit 7.83) (lit 7.83))) (lit 2.5))
             else lit 0) with 1%float by (vm_compute; reflexivity).
    rewrite mul_one_l. apply clamp_in_unit, below_in_unit. now apply one_minus_unit.
  - intros freq emf Hemf. rewrite calculate_MCI_no_noise, calculate_MCI_factors.
    set (s := if PrimFloat.leb _ _ then _ else _).
    destruct (SFmul_units (Prim2SF s) (Prim2SF (PrimFloat.sub (lit 1) emf)))
      as [Hone _];
      [apply score_unit | now apply one_minus_unit | apply Prim2SF_valid |].
    assert (Hp : Prim2SF (PrimFloat.mul s (PrimFloat.sub (lit 1) emf)) =
                 SFmul prec emax (Prim2SF s) (Prim2SF (PrimFloat.sub (lit 1) emf)))
      by (now rewrite mul_spec).
    rewrite clamp_in_unit by (apply below_in_unit; now rewrite Hp).
    rewrite leb_spec, Hp.
    apply SFmul_units_l;
      [apply score_unit | now apply one_minus_unit | apply Prim2SF_valid].
Qed.

(** X6. For a frequency within the tolerance and a noise level of
    [[0,1]] the [clamp] of [calculate_MCI] changes nothing: the index is
    the product [(1 - diff / 2.5) * (1 - emf)] itself, which in
    binary64 is the rounded product of the rounded factors. *)
Theorem calculate_MCI_product :
  (forall freq emf : Q,
      (Qabs (freq - 7.83) <= 2.5)%Q -> (0 <= emf <= 1)%Q ->
      calculate_MCI freq emf = ((1 - Qabs (freq - 7.83) / 2.5) * (1 - emf))%Q) /\
  (forall freq emf : float,
      PrimFloat.leb (abs (PrimFloat.sub freq (lit 7.83))) (lit 2.5) = true ->
      in_unit emf ->
      calculate_MCI freq emf =
      PrimFloat.mul
        (PrimFloat.sub (lit 1) (PrimFloat.div (abs (PrimFloat.sub freq (lit 7.83))) (lit 2.5)))
        (PrimFloat.sub (lit 1) emf)).
Proof.
  split.
  - intros freq emf Hd Hemf. rewrite calculate_MCI_unfold.
    pose proof (score_range freq) as Hs.
    apply Qle_bool_iff in Hd. rewrite Hd in *.
    apply clamp_inside. nra.
  - intros freq emf Hd Hemf. rewrite calculate_MCI_factors, Hd.
    pose proof (score_unit (PrimFloat.sub freq (lit 7.83))) as Hs. rewrite Hd in Hs.
    destruct (SFmul_units _ _ Hs (one_minus_unit emf Hemf) (Prim2SF_valid _))
      as [Hone _].
    apply clamp_in_unit, below_in_unit. now rewrite mul_spec.
Qed.

End NoiseBound.

Lemma calculate_MCI_noise_bound_witness :
  calculate_MCI (lit 7.83) (lit 0.2 : float) = PrimFloat.sub (lit 1) (lit 0.2).
Proof.
  apply (proj1 (proj2 (proj2 (proj2 (proj2 calculate_MCI_noise_bound))))).
  split; vm_compute; reflexivity.
Defined.

Lemma calculate_MCI_product_witness :
  calculate_MCI (lit 6.9) (lit 0.6 : float) =
  PrimFloat.mul
    (PrimFloat.sub (lit 1) (PrimFloat.div (abs (PrimFloat.sub (lit 6.9) (lit 7.83))) (lit 2.5)))
    (PrimFloat.sub (lit 1) (lit 0.6)).
Proof.
  apply (proj2 calculate_MCI_product); [| split]; vm_compute; reflexivity.
Defined.

(** ** [calculate_MCI]: where the index is positive *)

Section Positive.

Import Binary64Rounding.
Local Open Scope Z_scope.

Local Abbreviation SF_one := (S754_finite false 4503599627370496 (-52)).
Local Abbreviation SF_tolerance := (S754_finite false 5629499534213120 (-51)).

Lemma ltb_0_pos (x : float) : PrimFloat.ltb 0 x = SFpos (Prim2SF x).
Proof.
  rewrite ltb_spec.
  replace (Prim2SF 0) with (S754_zero false) by (vm_compute; reflexivity).
  destruct (Prim2SF x) as [s | [] | | [] m e]; reflexivity.
Qed.

Lemma ltb_leb (x y : float) : PrimFloat.ltb x y = true -> PrimFloat.leb x y = true.
Proof.
  rewrite ltb_spec, leb_spec. unfold SFltb, SFleb.
  destruct (SFcompare (Prim2SF x) (Prim2SF y)) as [[] |]; congruence.
Qed.

(** [clamp] keeps what is positive so, and nothing else. *)
Lemma clamp_pos (p : float) :
  PrimFloat.ltb 0 (clamp p) = SFpos (Prim2SF p).
Proof.
  unfold clamp, clamp_between, py_max, py_min. cbn [ltb lit b64_PyFloat].
  replace (of_Q 1.0) with 1%float by (vm_compute; reflexivity).
  replace (of_Q 0.0) with 0%float by (vm_compute; reflexivity).
  destruct (PrimFloat.ltb 1 p) eqn:H1.
  - rewrite ltb_spec in H1.
    replace (Prim2SF 1) with SF_one in H1 by (vm_compute; reflexivity).
    replace (PrimFloat.ltb 1 0) with false by (vm_compute; reflexivity).
    replace (PrimFloat.ltb 0 1) with true by (vm_compute; reflexivity).
    destruct (Prim2SF p) as [s | [] | | [] m e]; try discriminate; reflexivity.
  - rewrite ltb_0_spec.
    destruct (SFneg (Prim2SF p)) eqn:Hn.
    + replace (PrimFloat.ltb 0 0) with false by (vm_compute; reflexivity).
      destruct (Prim2SF p) as [s | [] | | [] m e]; try discriminate; reflexivity.
    + apply ltb_0_pos.
Qed.

(** [d / 2.5] is below [1] when [d] is below [2.5]. *)
Lemma SFdiv_tolerance_lt (m : positive) (e : Z) :
  bounded prec emax m e = true ->
  SFltb (S754_finite false m e) SF_tolerance = true ->
  below false (SFdiv prec emax (S754_finite false m e) SF_tolerance)
        9007199254740991 (-53).
Proof.
  intros Hb Hlt. apply SFltb_finite in Hlt.
  destruct (bounded_canonical m e Hb) as [_ [_ Hm]].
  pose proof (bounded_digits m e Hb) as Hd.
  change false with (xorb false false).
  apply SFdiv_below; [reflexivity | |].
  - change (Zdigits2 5629499534213120) with 53.
    unfold fexp, SpecFloat.emin, prec, emax in *. lia.
  - change (Zdigits2 5629499534213120) with 53.
    set (e' := Z.min _ _).
    assert (He' : e' <= -53 /\ e' <= e + 51).
    { subst e'. unfold fexp, SpecFloat.emin, prec, emax in *. lia. }
    replace (e - -51 - e') with (e + 51 - e') by lia.
    change (2 ^ 53) with 9007199254740992 in Hm.
    assert (HP : 0 < 2 ^ (-53 - e')) by (apply Z.pow_pos_nonneg; lia).
    destruct Hlt as [Hlt | [-> Hlt]].
    + assert (H1 : 2 ^ (e + 51 - e') <= 2 ^ (52 + (-53 - e')))
        by (apply Z.pow_le_mono_r; lia).
      rewrite pow2_add in H1 by lia. change (2 ^ 52) with 4503599627370496 in H1.
      assert (0 < 2 ^ (e + 51 - e')) by (apply Z.pow_pos_nonneg; lia).
      nia.
    + replace (-51 + 51 - e') with (53 + (-53 - e')) by lia.
      rewrite pow2_add by lia. change (2 ^ 53) with 9007199254740992. nia.
Qed.

(** [1 - q] is a positive float of exponent [-105] at least when [q]
    is below [1]. *)
Lemma SFsub_one_pos (mq : positive) (eq : Z) :
  eq <= -53 -> Zpos mq <= 9007199254740991 * 2 ^ (-53 - eq) ->
  exists ms es,
    SFsub prec emax SF_one (S754_finite false mq eq) = S754_finite false ms es /\
    -105 <= es <= -52 /\ Zpos ms <= 2 ^ (- es).
Proof.
  intros He Hm.
  assert (HP : 0 < 2 ^ (-53 - eq)) by (apply Z.pow_pos_nonneg; lia).
  assert (H2 : 2 ^ (- eq) = 9007199254740992 * 2 ^ (-53 - eq)).
  { change 9007199254740992 with (2 ^ 53). rewrite <- pow2_add by lia. f_equal. lia. }
  assert (Hunit : below false (SFsub prec emax SF_one (S754_finite false mq eq))
                        4503599627370496 (-52)).
  { apply SFsub_one_unit; [lia |]. rewrite H2. lia. }
  assert (Habove : above false (SFsub prec emax SF_one (S754_finite false mq eq))
                         4503599627370496 (-105)).
  { rewrite SFsub_finite. cbv zeta.
    replace (Z.min (-52) eq) with eq by lia.
    rewrite Z.sub_diag. cbn [cond_Zopp]. rewrite Z.pow_0_r, Z.mul_1_r.
    assert (H3 : 4503599627370496 * 2 ^ (-52 - eq) = 2 ^ (- eq)).
    { change 4503599627370496 with (2 ^ 52). rewrite <- pow2_add by lia. f_equal. lia. }
    rewrite H3, H2.
    set (D := _ - _).
    assert (HD : 2 ^ (-53 - eq) <= D) by (subst D; lia).
    replace false with (D <? 0) at 1 by (apply Z.ltb_ge; lia).
    apply binary_normalize_above; [reflexivity |].
    rewrite Z.abs_eq by lia.
    destruct (Z_le_gt_dec eq (-105)) as [Hle | Hgt].
    - replace (Z.min eq (-105)) with eq by lia.
      rewrite Z.sub_diag, Z.pow_0_r, Z.mul_1_r.
      replace (2 ^ (-53 - eq)) with (4503599627370496 * 2 ^ (-105 - eq)) in HD; [exact HD |].
      change 4503599627370496 with (2 ^ 52). rewrite <- pow2_add by lia. f_equal. lia.
    - replace (Z.min eq (-105)) with (-105) by lia.
      rewrite Z.sub_diag, Z.pow_0_r, Z.mul_1_r.
      assert (H4 : 2 ^ (-53 - eq) * 2 ^ (eq - -105) = 4503599627370496).
      { rewrite <- pow2_add by lia. replace (-53 - eq + (eq - -105)) with 52 by lia.
        reflexivity. }
      assert (0 < 2 ^ (eq - -105)) by (apply Z.pow_pos_nonneg; lia).
      nia. }
  destruct Habove as [Hinf | (ms & es & Hs & Hes)].
  - rewrite Hinf in Hunit. destruct Hunit as [Hz | (m' & e' & Hx & _)]; discriminate.
  - exists ms, es. split; [exact Hs |].
    rewrite Hs in Hunit.
    destruct (below_one_form _ Hunit) as [[s Hz] | (m' & e' & Hx & He' & Hm')];
      [discriminate |].
    injection Hx as <- <-. split; [lia | exact Hm'].
Qed.

(** The score is such a float when the difference is below the
    tolerance. *)
Lemma score_pos (d : float) :
  SFge0 (Prim2SF d) = true -> PrimFloat.ltb d (lit 2.5) = true ->
  exists ms es,
    Prim2SF (if PrimFloat.leb d (lit 2.5)
             then PrimFloat.sub (lit 1) (PrimFloat.div d (lit 2.5))
             else lit 0) = S754_finite false ms es /\
    -105 <= es <= -52 /\ Zpos ms <= 2 ^ (- es).
Proof.
  intros Hge Hlt. rewrite (ltb_leb _ _ Hlt).
  rewrite ltb_spec in Hlt. rewrite sub_spec, div_spec. unfold SF64sub, SF64div.
  pose proof (Prim2SF_valid d) as Hv.
  replace (Prim2SF (lit 2.5)) with SF_tolerance in * by (vm_compute; reflexivity).
  replace (Prim2SF (lit 1)) with SF_one by (vm_compute; reflexivity).
  destruct (Prim2SF d) as [s | [] | | [] m e]; try discriminate.
  - exists 4503599627370496%positive, (-52). cbn. repeat split; lia.
  - cbn [valid_binary] in Hv.
    destruct (SFdiv_tolerance_lt m e Hv Hlt) as [-> | (mq & eq & -> & He & Hm)].
    + exists 4503599627370496%positive, (-52). cbn. repeat split; lia.
    + now apply SFsub_one_pos.
Qed.

(** [1 - emf] is positive, of exponent [-105] at least, when [emf] is
    below [1]. *)
Lemma one_minus_pos (emf : float) :
  PrimFloat.ltb emf 1 = true ->
  Prim2SF (PrimFloat.sub (lit 1) emf) = S754_infinity false \/
  exists mt et,
    Prim2SF (PrimFloat.sub (lit 1) emf) = S754_finite false mt et /\ -105 <= et.
Proof.
  intro Hlt. rewrite ltb_spec in Hlt.
  replace (Prim2SF 1) with SF_one in Hlt by (vm_compute; reflexivity).
  pose proof (Prim2SF_valid emf) as Hv.
  rewrite sub_spec. unfold SF64sub.
  replace (Prim2SF (lit 1)) with SF_one by (vm_compute; reflexivity).
  assert (Hab : forall x, above false x 4503599627370496 (-105) ->
             x = S754_infinity false \/
             exists mt et, x = S754_finite false mt et /\ -105 <= et).
  { intros x [-> | (mt & et & -> & Het)]; [now left |].
    right. exists mt, et. split; [reflexivity | lia]. }
  destruct (Prim2SF emf) as [s | [] | | [] m e]; try discriminate.
  - right. exists 4503599627370496%positive, (-52). split; [reflexivity | lia].
  - now left.
  - (* emf negative: the difference is a sum *)
    apply Hab. rewrite SFsub_finite. cbv zeta. cbn [cond_Zopp].
    set (ez := Z.min (-52) e).
    set (D := _ - _).
    assert (Hez : ez <= -52) by (subst ez; lia).
    assert (Hp1 : 0 < 2 ^ (e - ez)) by (apply Z.pow_pos_nonneg; subst ez; lia).
    assert (H1 : 4503599627370496 * 2 ^ (-52 - ez) = 2 ^ (- ez)).
    { change 4503599627370496 with (2 ^ 52). rewrite <- pow2_add by lia. f_equal. lia. }
    assert (HD : 2 ^ (- ez) <= D) by (subst D; rewrite H1; lia).
    assert (0 < 2 ^ (- ez)) by (apply Z.pow_pos_nonneg; lia).
    replace false with (D <? 0) at 1 by (apply Z.ltb_ge; lia).
    apply binary_normalize_above; [reflexivity |].
    rewrite Z.abs_eq by lia.
    destruct (Z_le_gt_dec ez (-105)) as [Hle | Hgt].
    + replace (Z.min ez (-105)) with ez by lia.
      rewrite Z.sub_diag, Z.pow_0_r, Z.mul_1_r.
      assert (H2 : 4503599627370496 * 2 ^ (-105 - ez) <= 2 ^ (- ez)).
      { change 4503599627370496 with (2 ^ 52). rewrite <- pow2_add by lia.
        apply Z.pow_le_mono_r; lia. }
      lia.
    + replace (Z.min ez (-105)) with (-105) by lia.
      rewrite Z.sub_diag, Z.pow_0_r, Z.mul_1_r.
      assert (H2 : 2 ^ 52 <= 2 ^ (- ez) * 2 ^ (ez - -105)).
      { rewrite <- pow2_add by lia. apply Z.pow_le_mono_r; lia. }
      assert (0 < 2 ^ (ez - -105)) by (apply Z.pow_pos_nonneg; lia).
      change (2 ^ 52) with 4503599627370496 in H2. nia.
  - (* emf positive and below 1 *)
    cbn [valid_binary] in Hv. apply SFltb_finite in Hlt.
    destruct (bounded_canonical m e Hv) as [_ [_ Hm]].
    assert (He : e <= -53).
    { destruct Hlt as [Hlt | [-> Hlt]]; [lia |].
      pose proof (bounded_normal m (-52) Hv ltac:(lia)). lia. }
    apply Hab. rewrite SFsub_finite. cbv zeta. cbn [cond_Zopp].
    replace (Z.min (-52) e) with e by lia.
    rewrite Z.sub_diag, Z.pow_0_r, Z.mul_1_r.
    assert (HP : 0 < 2 ^ (-53 - e)) by (apply Z.pow_pos_nonneg; lia).
    assert (H1 : 4503599627370496 * 2 ^ (-52 - e) = 9007199254740992 * 2 ^ (-53 - e)).
    { change 4503599627370496 with (2 ^ 52). change 9007199254740992 with (2 ^ 53).
      rewrite <- !pow2_add by lia. f_equal. lia. }
    rewrite H1. change (2 ^ 53) with 9007199254740992 in Hm.
    set (D := _ - _).
    assert (HD : 2 ^ (-53 - e) <= D) by (subst D; nia).
    replace false with (D <? 0) at 1 by (apply Z.ltb_ge; lia).
    apply binary_normalize_above; [reflexivity |].
    rewrite Z.abs_eq by lia.
    destruct (Z_le_gt_dec e (-105)) as [Hle | Hgt].
    + replace (Z.min e (-105)) with e by lia.
      rewrite Z.sub_diag, Z.pow_0_r, Z.mul_1_r.
      replace (2 ^ (-53 - e)) with (4503599627370496 * 2 ^ (-105 - e)) in HD; [exact HD |].
      change 4503599627370496 with (2 ^ 52). rewrite <- pow2_add by lia. f_equal. lia.
    + replace (Z.min e (-105)) with (-105) by lia.
      rewrite Z.sub_diag, Z.pow_0_r, Z.mul_1_r.
      assert (H4 : 2 ^ (-53 - e) * 2 ^ (e - -105) = 4503599627370496).
      { rewrite <- pow2_add by lia. replace (-53 - e + (e - -105)) with 52 by lia.
        reflexivity. }
      assert (0 < 2 ^ (e - -105)) by (apply Z.pow_pos_nonneg; lia).
      nia.
Qed.

(** The product of two positive floats whose exponents are not too
    small is positive. *)
Lemma SFmul_pos (ms mt : positive) (es et : Z) :
  -1074 <= es + et ->
  SFpos (SFmul prec emax (S754_finite false ms es) (S754_finite false mt et)) = true.
Proof.
  intro He. cbn [SFmul xorb].
  assert (Hab : above false
                  (binary_round_aux prec emax false (Zpos (ms * mt)) (es + et) loc_Exact)
                  1 (-1074)).
  { apply binary_round_aux_above; [lia | reflexivity |].
    replace (Z.min (es + et) (-1074)) with (-1074) by lia.
    rewrite Z.sub_diag, Z.pow_0_r.
    assert (0 < 2 ^ (es + et - -1074)) by (apply Z.pow_pos_nonneg; lia).
    nia. }
  destruct Hab as [-> | (m & e & -> & _)]; reflexivity.
Qed.

End Positive.

Section PositiveIndex.

Import Binary64Rounding.
Local Open Scope Z_scope.

Local Abbreviation SF_one := (S754_finite false 4503599627370496 (-52)).
Local Abbreviation SF_tolerance := (S754_finite false 5629499534213120 (-51)).
Local Abbreviation score d :=
  (if PrimFloat.leb d (lit 2.5)
   then PrimFloat.sub (lit 1) (PrimFloat.div d (lit 2.5))
   else lit 0).

Lemma SFle0_not_pos (x : spec_float) : SFle0 x = true -> SFpos x = false.
Proof. now destruct x as [s | [] | | [] m e]. Qed.

Lemma abs_ge0 (x : float) :
  is_nan (abs x) = false -> SFge0 (Prim2SF (abs x)) = true.
Proof.
  rewrite is_nan_false, abs_spec.
  destruct (Prim2SF x) as [s | s | | s m e]; cbn [SFabs]; try reflexivity.
  intro Hn. now elim Hn.
Qed.

Lemma calculate_MCI_pos_b64 (freq emf : float) :
  PrimFloat.ltb (abs (PrimFloat.sub freq (lit 7.83))) (lit 2.5) = true ->
  PrimFloat.ltb emf 1 = true ->
  PrimFloat.ltb 0 (calculate_MCI freq emf) = true.
Proof.
  intros Hd He. rewrite calculate_MCI_factors, clamp_pos, mul_spec. unfold SF64mul.
  set (d := abs (PrimFloat.sub freq (lit 7.83))) in *.
  assert (Hge : SFge0 (Prim2SF d) = true)
    by (apply abs_ge0, (ltb_not_nan _ _ Hd)).
  destruct (score_pos d Hge Hd) as (ms & es & -> & Hes & _).
  destruct (one_minus_pos emf He) as [-> | (mt & et & -> & Het)].
  - reflexivity.
  - apply SFmul_pos. lia.
Qed.

Lemma calculate_MCI_not_pos_freq (freq emf : float) :
  PrimFloat.ltb (abs (PrimFloat.sub freq (lit 7.83))) (lit 2.5) = false ->
  PrimFloat.ltb 0 (calculate_MCI freq emf) = false.
Proof.
  intro Hd. rewrite calculate_MCI_factors, clamp_pos, mul_spec. unfold SF64mul.
  set (d := abs (PrimFloat.sub freq (lit 7.83))) in *.
  assert (Hz : exists s, Prim2SF (score d) = S754_zero s).
  { destruct (is_nan d) eqn:Hn.
    - exists false.
      assert (Hle : PrimFloat.leb d (lit 2.5) = false).
      { rewrite leb_spec. apply is_nan_spec in Hn. now rewrite Hn. }
      now rewrite Hle.
    - apply score_zero.
      pose proof (abs_ge0 _ Hn) as Hge. fold d in Hge.
      apply ltb_false_leb in Hd; [| exact Hn | reflexivity].
      rewrite leb_spec in Hd.
      replace (Prim2SF (lit 2.5)) with SF_tolerance in Hd by (vm_compute; reflexivity).
      destruct (Prim2SF d) as [s | [] | | [] m e]; try discriminate.
      + now left.
      + right. exists m, e. split; [reflexivity |].
        apply SFleb_finite in Hd. lia. }
  destruct Hz as [s ->].
  now destruct (Prim2SF (PrimFloat.sub (lit 1) emf)) as [s' | s' | | s' m e].
Qed.

Lemma calculate_MCI_not_pos_emf (freq emf : float) :
  PrimFloat.ltb emf 1 = false ->
  PrimFloat.ltb 0 (calculate_MCI freq emf) = false.
Proof.
  intro He. rewrite calculate_MCI_factors, clamp_pos, mul_spec. unfold SF64mul.
  pose proof (score_nonneg (PrimFloat.sub freq (lit 7.83))) as Hs.
  set (s := score _) in *.
  destruct (is_nan emf) eqn:Hn.
  - rewrite sub_spec. apply is_nan_spec in Hn. rewrite Hn.
    replace (Prim2SF (lit 1)) with SF_one by (vm_compute; reflexivity).
    now destruct (Prim2SF s) as [s' | s' | | s' m e].
  - apply ltb_false_leb in He; [| exact Hn | reflexivity].
    destruct (is_finite emf) eqn:Hf.
    + apply SFle0_not_pos, SFmul_signs; [exact Hs | now apply one_minus_nonpos].
    + rewrite is_finite_spec in Hf. rewrite leb_spec in He. rewrite sub_spec.
      replace (Prim2SF 1) with SF_one in He by (vm_compute; reflexivity).
      replace (Prim2SF (lit 1)) with SF_one by (vm_compute; reflexivity).
      destruct (Prim2SF emf) as [s' | [] | | s' m e]; try discriminate.
      now destruct (Prim2SF s) as [s' | s' | | [] m e].
Qed.

(** X7. [calculate_MCI] is positive exactly when the frequency is
    less than the tolerance 2.5 away from the resonance and the noise
    is below 1; in binary64 the distance is the one the function
    computes, and a NaN or infinite frequency gives no positive index. *)
Theorem calculate_MCI_positive :
  (forall freq emf : Q,
      (0 < calculate_MCI freq emf)%Q <-> (Qabs (freq - 7.83) < 2.5 /\ emf < 1)%Q) /\
  (forall freq emf : float,
      PrimFloat.ltb 0 (calculate_MCI freq emf) = true <->
      PrimFloat.ltb (abs (PrimFloat.sub freq (lit 7.83))) (lit 2.5) = true /\
      PrimFloat.ltb emf 1 = true).
Proof.
  split.
  - intros freq emf. rewrite calculate_MCI_unfold.
    pose proof (Qabs_nonneg (freq - 7.83)) as Ha.
    set (a := Qabs (freq - 7.83)) in *. clearbody a.
    assert (Hdiv : (a / 2.5 == a * (2 # 5))%Q) by apply div_tolerance.
    assert (Hclamp : forall x : Q, (0 < clamp x <-> 0 < x)%Q).
    { intro x.
      destruct (clamp_cases x) as [[Hx Hc] | [[Hx Hc] | [Hx Hc]]];
        rewrite Hc; split; intros; lra. }
    rewrite Hclamp.
    destruct (Qle_bool a 2.5) eqn:Hle.
    + apply Qle_bool_iff in Hle. rewrite Hdiv.
      set (s := (1 - a * (2 # 5))%Q).
      assert (Hs : (0 <= s)%Q) by (subst s; lra).
      assert (Hs0 : (0 < s <-> a < 2.5)%Q) by (subst s; split; intros; lra).
      clearbody s.
      destruct (Qlt_le_dec emf 1) as [He | He], (Qlt_le_dec 0 s) as [Hp | Hp].
      * split; [intros _; split; [now apply Hs0 | exact He] | intros _; nra].
      * split; [intro Hx; nra | intros [Ha' _]; apply Hs0 in Ha'; lra].
      * split; [intro Hx; nra | intros [_ Hx]; lra].
      * split; [intro Hx; nra | intros [_ Hx]; lra].
    + assert (Hgt : (2.5 < a)%Q).
      { apply Qnot_le_lt. intro Hc. apply Qle_bool_iff in Hc. congruence. }
      split; [intro Hx; lra | intros [Hx _]; lra].
  - intros freq emf. split.
    + intro Hpos.
      destruct (PrimFloat.ltb (abs (PrimFloat.sub freq (lit 7.83))) (lit 2.5)) eqn:Hd.
      * destruct (PrimFloat.ltb emf 1) eqn:He; [now split |].
        rewrite (calculate_MCI_not_pos_emf freq emf He) in Hpos. discriminate.
      * rewrite (calculate_MCI_not_pos_freq freq emf Hd) in Hpos. discriminate.
    + intros [Hd He]. now apply calculate_MCI_pos_b64.
Qed.

End PositiveIndex.

(** ** [calculate_HS]: the weighted sum *)

Section WeightedSum.

Import Binary64Rounding.
Local Open Scope Z_scope.

Local Abbreviation SF_one := (S754_finite false 4503599627370496 (-52)).

Lemma below_at_most (x : spec_float) (mB eB : Z) :
  below false x mB eB -> at_most x mB eB.
Proof. intros [-> | Hfin]; [left; now exists false | now right]. Qed.

Lemma at_most_weaken (x : spec_float) (mB eB mB' eB' : Z) :
  at_most x mB eB -> eB <= eB' -> mB <= mB' * 2 ^ (eB' - eB) ->
  at_most x mB' eB'.
Proof.
  intros [Hz | (m & e & -> & He & Hm)] HeB HmB; [now left |].
  right. exists m, e. split; [reflexivity |]. split; [lia |].
  replace (eB' - e) with (eB' - eB + (eB - e)) by lia.
  rewrite pow2_add by lia.
  assert (0 < 2 ^ (eB - e)) by (apply Z.pow_pos_nonneg; lia).
  nia.
Qed.

Lemma in_unit_at_most (x : float) :
  in_unit x -> at_most (Prim2SF x) 4503599627370496 (-52).
Proof.
  intros [H0 H1]. rewrite leb_0_spec in H0. rewrite leb_spec in H1.
  replace (Prim2SF 1) with SF_one in H1 by (vm_compute; reflexivity).
  pose proof (Prim2SF_valid x) as Hv.
  destruct (Prim2SF x) as [s | [] | | [] m e]; try discriminate.
  - left. now exists s.
  - cbn [valid_binary] in Hv. destruct (unit_form m e Hv H1) as [He Hm].
    right. exists m, e. split; [reflexivity |]. split; [exact He |].
    change 4503599627370496 with (2 ^ 52). rewrite <- pow2_add by lia.
    now replace (52 + (-52 - e)) with (- e) by lia.
Qed.

Lemma at_most_in_unit (x : float) :
  at_most (Prim2SF x) 4503599627370496 (-52) -> in_unit x.
Proof.
  intros [[s Hz] | (m & e & Hx & He & Hm)]; split;
    rewrite ?leb_0_spec, ?leb_spec;
    replace (Prim2SF 1) with SF_one by (vm_compute; reflexivity).
  - now rewrite Hz.
  - rewrite Hz. now destruct s.
  - now rewrite Hx.
  - rewrite Hx. apply SFleb_finite_intro.
    destruct (Z.eq_dec e (-52)) as [-> | Hne]; [| lia].
    right. split; [reflexivity |]. rewrite Z.sub_diag, Z.pow_0_r in Hm. lia.
Qed.

(** A weight times a float of [[0,1]] is at most the weight. *)
Lemma SFmul_weight_at_most (mc : positive) (ec : Z) (x : spec_float) :
  bounded prec emax mc ec = true ->
  at_most x 4503599627370496 (-52) ->
  at_most (SFmul prec emax (S754_finite false mc ec) x) (Zpos mc) ec.
Proof.
  intros Hb [[s ->] | (m & e & -> & He & Hm)].
  - left. now exists (xorb false s).
  - apply below_at_most. change false with (xorb false false) at 1.
    apply SFmul_below; [exact Hb | lia |].
    replace (ec - (ec + e)) with (- e) by lia.
    change 4503599627370496 with (2 ^ 52) in Hm. rewrite <- pow2_add in Hm by lia.
    replace (52 + (-52 - e)) with (- e) in Hm by lia. nia.
Qed.

(** A sum of two such floats is at most a float that bounds the sum of
    their bounds. *)
Lemma SFadd_at_most (x y : spec_float) (pX pY pB : positive) (eX eY eB : Z) :
  at_most x (Zpos pX) eX -> at_most y (Zpos pY) eY ->
  bounded prec emax pB eB = true -> eX <= eB -> eY <= eB ->
  Zpos pX * 2 ^ (eX - Z.min eX eY) + Zpos pY * 2 ^ (eY - Z.min eX eY)
  <= Zpos pB * 2 ^ (eB - Z.min eX eY) ->
  at_most (SFadd prec emax x y) (Zpos pB) eB.
Proof.
  intros Hx Hy Hb HeX HeY Hsum.
  set (k := Z.min eX eY) in *.
  assert (HpX : 0 < 2 ^ (eX - k)) by (apply Z.pow_pos_nonneg; subst k; lia).
  assert (HpY : 0 < 2 ^ (eY - k)) by (apply Z.pow_pos_nonneg; subst k; lia).
  assert (HBX : 2 ^ (eB - k) = 2 ^ (eB - eX) * 2 ^ (eX - k)).
  { rewrite <- pow2_add by (subst k; lia). f_equal. lia. }
  assert (HBY : 2 ^ (eB - k) = 2 ^ (eB - eY) * 2 ^ (eY - k)).
  { rewrite <- pow2_add by (subst k; lia). f_equal. lia. }
  assert (0 < 2 ^ (eB - eX)) by (apply Z.pow_pos_nonneg; lia).
  assert (0 < 2 ^ (eB - eY)) by (apply Z.pow_pos_nonneg; lia).
  destruct Hx as [[sx ->] | (mx & ex & -> & Hex & Hmx)],
           Hy as [[sy ->] | (my & ey & -> & Hey & Hmy)].
  - left. cbn [SFadd]. destruct sx, sy; eexists; reflexivity.
  - cbn [SFadd]. apply (at_most_weaken _ (Zpos pY) eY); [| exact HeY | nia].
    right. exists my, ey. repeat split; assumption.
  - cbn [SFadd]. apply (at_most_weaken _ (Zpos pX) eX); [| exact HeX | nia].
    right. exists mx, ex. repeat split; assumption.
  - rewrite SFadd_finite. cbv zeta. cbn [cond_Zopp].
    set (ez := Z.min ex ey). set (D := _ + _).
    assert (Hez : ez <= k) by (subst ez k; lia).
    assert (H1 : 2 ^ (eX - ex) * 2 ^ (ex - ez) = 2 ^ (eX - k) * 2 ^ (k - ez)).
    { rewrite <- !pow2_add by (subst ez k; lia). f_equal. lia. }
    assert (H2 : 2 ^ (eY - ey) * 2 ^ (ey - ez) = 2 ^ (eY - k) * 2 ^ (k - ez)).
    { rewrite <- !pow2_add by (subst ez k; lia). f_equal. lia. }
    assert (H3 : 2 ^ (eB - ez) = 2 ^ (eB - k) * 2 ^ (k - ez)).
    { rewrite <- pow2_add by (subst ez k; lia). f_equal. lia. }
    assert (Hp1 : 0 < 2 ^ (ex - ez)) by (apply Z.pow_pos_nonneg; subst ez; lia).
    assert (Hp2 : 0 < 2 ^ (ey - ez)) by (apply Z.pow_pos_nonneg; subst ez; lia).
    assert (Hp3 : 0 < 2 ^ (k - ez)) by (apply Z.pow_pos_nonneg; lia).
    assert (HD : 0 < D <= Zpos pB * 2 ^ (eB - ez)).
    { subst D. split; [nia |]. rewrite H3.
      assert (Zpos mx * 2 ^ (ex - ez) <= Zpos pX * (2 ^ (eX - k) * 2 ^ (k - ez)))
        by (rewrite <- H1; nia).
      assert (Zpos my * 2 ^ (ey - ez) <= Zpos pY * (2 ^ (eY - k) * 2 ^ (k - ez)))
        by (rewrite <- H2; nia).
      nia. }
    apply below_at_most.
    pose proof (binary_normalize_below D ez false pB eB Hb ltac:(lia) ltac:(lia)) as Hbel.
    replace (if D =? 0 then false else D <? 0) with false in Hbel; [exact Hbel |].
    destruct (D =? 0); [reflexivity | symmetry; apply Z.ltb_ge; lia].
Qed.

(** A sum that exceeds [1] by [2 ^ -55] at most rounds to [1]. *)
Lemma binary_normalize_just_above_one (D ez : Z) :
  ez <= -56 -> 2 ^ (- ez) < D -> D <= 2 ^ (- ez) + 2 ^ (-55 - ez) ->
  binary_normalize prec emax D ez false = SF_one.
Proof.
  intros Hez Hlo Hhi.
  assert (Hp : 0 < 2 ^ (- ez)) by (apply Z.pow_pos_nonneg; lia).
  destruct D as [| p | p]; try lia. cbn [binary_normalize]. unfold binary_round.
  set (k := -52 - ez).
  assert (Hk : 4 <= k) by (subst k; lia).
  assert (E1 : 2 ^ (- ez) = 2 ^ 52 * 2 ^ k).
  { rewrite <- pow2_add by lia. f_equal. subst k. lia. }
  assert (E2 : 2 ^ k = 8 * 2 ^ (-55 - ez)).
  { change 8 with (2 ^ 3). rewrite <- pow2_add by lia. f_equal. subst k. lia. }
  assert (E3 : 2 ^ k = 2 * 2 ^ (k - 1)).
  { change 2 with (2 ^ 1) at 2. rewrite <- pow2_add by lia. f_equal. lia. }
  assert (E4 : 2 ^ (k - 1) = 4 * 2 ^ (-55 - ez)).
  { change 4 with (2 ^ 2). rewrite <- pow2_add by lia. f_equal. subst k. lia. }
  assert (HP : 0 < 2 ^ (-55 - ez)) by (apply Z.pow_pos_nonneg; lia).
  assert (Hd : Zdigits2 (Zpos p) = - ez + 1).
  { assert (Hle : Zdigits2 (Zpos p) <= - ez + 1).
    { apply Zdigits2_lt_pow2; [lia | lia |].
      replace (- ez + 1) with (1 + - ez) by lia. rewrite pow2_add by lia.
      change (2 ^ 1) with 2. change (2 ^ 52) with 4503599627370496 in E1. nia. }
    destruct (Z_le_gt_dec (Zdigits2 (Zpos p)) (- ez)) as [Hc | Hc]; [| lia].
    apply (Zdigits2_lt_pow2 (Zpos p) (- ez)) in Hc; lia. }
  pose proof (shl_align_spec p ez (fexp prec emax (Zpos (digits2_pos p) + ez))) as [Hs Hf].
  change (Zpos (digits2_pos p)) with (Zdigits2 (Zpos p)) in *.
  replace (Zdigits2 (Zpos p) + ez) with 1 in * by lia.
  change (fexp prec emax 1) with (-52) in *.
  destruct (shl_align p ez (-52)) as [mz ez'].
  cbn [fst snd] in Hs, Hf.
  replace (Z.min ez (-52)) with ez in * by lia. subst ez'.
  rewrite Z.sub_diag, Z.pow_0_r, Z.mul_1_r in Hf.
  destruct (binary_round_aux_pack false (Zpos mz) ez loc_Exact ltac:(lia))
    as (m1 & Hm1 & _ & Hlow & _ & ->).
  rewrite Hf in *.
  replace (Zdigits2 (Zpos p) + ez) with 1 in * by lia.
  change (fexp prec emax 1) with (-52) in *.
  replace (Z.max ez (-52)) with (-52) in * by lia.
  fold k in Hm1, Hlow.
  set (r := Zpos p - 2 ^ 52 * 2 ^ k).
  assert (Hr : 0 < r <= 2 ^ (-55 - ez)) by (subst r; lia).
  assert (Hm0 : Zpos p / 2 ^ k = 2 ^ 52).
  { symmetry. apply (Z.div_unique _ _ _ r); [left; lia | subst r; lia]. }
  assert (Hbit : Z.testbit (Zpos p) (k - 1) = false).
  { apply Z.testbit_false; [lia |].
    assert (Hq : Zpos p / 2 ^ (k - 1) = 2 ^ 53).
    { symmetry. apply (Z.div_unique _ _ _ r); [left; lia |].
      subst r. change (2 ^ 53) with (2 * 2 ^ 52). lia. }
    rewrite Hq. reflexivity. }
  assert (Hm1' : m1 = 2 ^ 52) by (rewrite <- Hm0; apply Hlow; [lia | exact Hbit]).
  subst m1. reflexivity.
Qed.

(** The last sum of [calculate_HS] is at most [1]. *)
Lemma SFadd_at_most_one (x y : spec_float) :
  at_most x 8106479329266893 (-53) -> at_most y 7205759403792794 (-56) ->
  at_most (SFadd prec emax x y) 4503599627370496 (-52).
Proof.
  intros Hx Hy.
  destruct Hx as [[sx ->] | (mx & ex & -> & Hex & Hmx)],
           Hy as [[sy ->] | (my & ey & -> & Hey & Hmy)].
  - left. cbn [SFadd]. destruct sx, sy; eexists; reflexivity.
  - cbn [SFadd]. apply (at_most_weaken _ 7205759403792794 (-56)); [| lia | cbn; lia].
    right. exists my, ey. repeat split; assumption.
  - cbn [SFadd]. apply (at_most_weaken _ 8106479329266893 (-53)); [| lia | cbn; lia].
    right. exists mx, ex. repeat split; assumption.
  - rewrite SFadd_finite. cbv zeta. cbn [cond_Zopp].
    set (ez := Z.min ex ey). set (D := _ + _).
    assert (Hez : ez <= -56) by (subst ez; lia).
    assert (HP : 0 < 2 ^ (-56 - ez)) by (apply Z.pow_pos_nonneg; lia).
    assert (H1 : 2 ^ (-53 - ex) * 2 ^ (ex - ez) = 8 * 2 ^ (-56 - ez)).
    { rewrite <- pow2_add by (subst ez; lia). change 8 with (2 ^ 3).
      rewrite <- pow2_add by lia. f_equal. lia. }
    assert (H2 : 2 ^ (-56 - ey) * 2 ^ (ey - ez) = 2 ^ (-56 - ez)).
    { rewrite <- pow2_add by (subst ez; lia). f_equal. lia. }
    assert (H3 : 2 ^ (- ez) = 72057594037927936 * 2 ^ (-56 - ez)).
    { change 72057594037927936 with (2 ^ 56). rewrite <- pow2_add by lia. f_equal. lia. }
    assert (H4 : 2 ^ (-55 - ez) = 2 * 2 ^ (-56 - ez)).
    { change 2 with (2 ^ 1) at 2. rewrite <- pow2_add by lia. f_equal. lia. }
    assert (Hp1 : 0 < 2 ^ (ex - ez)) by (apply Z.pow_pos_nonneg; subst ez; lia).
    assert (Hp2 : 0 < 2 ^ (ey - ez)) by (apply Z.pow_pos_nonneg; subst ez; lia).
    assert (HD : 0 < D <= 2 ^ (- ez) + 2 ^ (-55 - ez)).
    { subst D. split; [nia |]. rewrite H3, H4.
      assert (Zpos mx * 2 ^ (ex - ez) <= 8106479329266893 * (8 * 2 ^ (-56 - ez)))
        by (rewrite <- H1; nia).
      assert (Zpos my * 2 ^ (ey - ez) <= 7205759403792794 * 2 ^ (-56 - ez))
        by (rewrite <- H2; nia).
      lia. }
    destruct (Z_le_gt_dec D (2 ^ (- ez))) as [Hle | Hgt].
    + apply below_at_most.
      assert (H5 : 4503599627370496 * 2 ^ (-52 - ez) = 2 ^ (- ez)).
      { change 4503599627370496 with (2 ^ 52). rewrite <- pow2_add by lia. f_equal. lia. }
      pose proof (binary_normalize_below D ez false 4503599627370496 (-52) eq_refl
                    ltac:(lia) ltac:(lia)) as Hbel.
      replace (if D =? 0 then false else D <? 0) with false in Hbel; [exact Hbel |].
      destruct (D =? 0); [reflexivity | symmetry; apply Z.ltb_ge; lia].
    + rewrite (binary_normalize_just_above_one D ez Hez) by lia.
      right. exists 4503599627370496%positive, (-52). repeat split; lia.
Qed.

Lemma weighted_sum_in_unit (m b v : float) :
  in_unit m -> in_unit b -> in_unit v ->
  in_unit (PrimFloat.add (PrimFloat.add (PrimFloat.mul (lit 0.5) m)
                                        (PrimFloat.mul (lit 0.4) b))
                         (PrimFloat.mul (lit 0.1) v)).
Proof.
  intros Hm Hb Hv. apply at_most_in_unit.
  rewrite !add_spec, !mul_spec. unfold SF64add, SF64mul.
  replace (Prim2SF (lit 0.5)) with (S754_finite false 4503599627370496 (-53))
    by (vm_compute; reflexivity).
  replace (Prim2SF (lit 0.4)) with (S754_finite false 7205759403792794 (-54))
    by (vm_compute; reflexivity).
  replace (Prim2SF (lit 0.1)) with (S754_finite false 7205759403792794 (-56))
    by (vm_compute; reflexivity).
  apply SFadd_at_most_one.
  - apply (SFadd_at_most _ _ 4503599627370496 7205759403792794 8106479329266893
                         (-53) (-54) (-53));
      [| | reflexivity | lia | lia | vm_compute; discriminate].
    + apply SFmul_weight_at_most; [reflexivity | now apply in_unit_at_most].
    + apply SFmul_weight_at_most; [reflexivity | now apply in_unit_at_most].
  - apply SFmul_weight_at_most; [reflexivity | now apply in_unit_at_most].
Qed.

(** X8. On arguments of [[0,1]], as the rows of the table have them,
    the [clamp] of [calculate_HS] changes nothing: the score is the
    weighted sum [0.5 * MCI + 0.4 * BVI + 0.1 * env_factor] itself.  In
    binary64 the sum is the rounded one, which never exceeds [1]. *)
Theorem calculate_HS_weighted_sum :
  (forall m b v : Q,
      (0 <= m <= 1)%Q -> (0 <= b <= 1)%Q -> (0 <= v <= 1)%Q ->
      calculate_HS m b v = (0.5 * m + 0.4 * b + 0.1 * v)%Q) /\
  (forall m b v : float,
      in_unit m -> in_unit b -> in_unit v ->
      calculate_HS m b v =
      PrimFloat.add (PrimFloat.add (PrimFloat.mul (lit 0.5) m) (PrimFloat.mul (lit 0.4) b))
                    (PrimFloat.mul (lit 0.1) v)) /\
  (forall freq emf env_factor : float,
      is_finite emf = true -> in_unit env_factor ->
      exists bvi : float,
        calculate_BVI (calculate_MCI freq emf) = Ok bvi /\
        calculate_HS (calculate_MCI freq emf) bvi env_factor =
        PrimFloat.add (PrimFloat.add (PrimFloat.mul (lit 0.5) (calculate_MCI freq emf))
                                     (PrimFloat.mul (lit 0.4) bvi))
                      (PrimFloat.mul (lit 0.1) env_factor)).
Proof.
  assert (Hfloat : forall m b v : float,
             in_unit m -> in_unit b -> in_unit v ->
             calculate_HS m b v =
             PrimFloat.add (PrimFloat.add (PrimFloat.mul (lit 0.5) m)
                                          (PrimFloat.mul (lit 0.4) b))
                           (PrimFloat.mul (lit 0.1) v)).
  { intros m b v Hm Hb Hv. unfold calculate_HS. cbn [add mul b64_PyFloat].
    apply clamp_in_unit. now apply weighted_sum_in_unit. }
  split; [| split].
  - intros m b v Hm Hb Hv. unfold calculate_HS. cbn [lit add mul Q_PyFloat].
    apply clamp_inside. lra.
  - exact Hfloat.
  - intros freq emf env_factor Hemf Henv.
    pose proof (calculate_MCI_in_unit freq emf Hemf) as Hm.
    exists (PrimFloat.mul (calculate_MCI freq emf) (calculate_MCI freq emf)).
    split; [now apply calculate_BVI_unit |].
    apply Hfloat; [exact Hm | now apply square_in_unit | exact Henv].
Qed.

End WeightedSum.

Lemma calculate_HS_weighted_sum_witness :
  calculate_HS 1%float 1%float 1%float = 1%float.
Proof.
  rewrite (proj1 (proj2 calculate_HS_weighted_sum) 1%float 1%float 1%float);
    [vm_compute; reflexivity | | |]; split; vm_compute; reflexivity.
Defined.

(** ** [calculate_gei] on the inputs of the page *)

Section GeiBound.

Import Binary64Rounding.
Local Open Scope Z_scope.

Local Abbreviation SF_hundred := (S754_finite false 7036874417766400 (-46)).

Lemma SFle0_leb (x : spec_float) (m : positive) (e : Z) :
  SFle0 x = true -> SFleb x (S754_finite false m e) = true.
Proof. now destruct x as [s | [] | | [] mx ex]. Qed.

(** The rational of a float that is at most [100] is at most 100. *)
Lemma to_Q_below_hundred (z : float) (m : positive) (e : Z) (q : Q) :
  Prim2SF z = S754_finite false m e -> to_Q z = Some q ->
  e <= -46 -> Zpos m <= 7036874417766400 * 2 ^ (-46 - e) ->
  (0 <= q <= 100)%Q.
Proof.
  intros Hz Hq He Hm.
  pose proof (to_Q_finite z false m e q (- e) Hz Hq ltac:(lia) ltac:(lia)) as Hv.
  replace (e + - e) with 0 in Hv by lia. cbn [cond_Zopp] in Hv.
  rewrite Z.pow_0_r, Z.mul_1_r in Hv.
  assert (HP : 0 < 2 ^ (- e)) by (apply Z.pow_pos_nonneg; lia).
  assert (H2 : 7036874417766400 * 2 ^ (-46 - e) = 100 * 2 ^ (- e)).
  { change 7036874417766400 with (100 * 2 ^ 46). rewrite <- Z.mul_assoc.
    rewrite <- pow2_add by lia. do 2 f_equal. lia. }
  rewrite H2 in Hm. set (P := 2 ^ (- e)) in *. clearbody P.
  assert (HPq : (0 < inject_Z P)%Q) by (change 0%Q with (inject_Z 0); now rewrite <- Zlt_Qlt).
  split.
  - apply (Qmult_le_r _ _ (inject_Z P) HPq). rewrite Hv, Qmult_0_l.
    change 0%Q with (inject_Z 0). rewrite <- Zle_Qle. lia.
  - apply (Qmult_le_r _ _ (inject_Z P) HPq). rewrite Hv.
    change 100%Q with (inject_Z 100). rewrite <- inject_Z_mult, <- Zle_Qle. exact Hm.
Qed.

Lemma round_half_even_le (q : Q) (N : Z) :
  (q <= inject_Z N)%Q -> round_half_even q <= N.
Proof.
  intro Hq. destruct (ExactFormulas.round_half_even_spec q) as [[Hlo _] _].
  cbv zeta in Hlo. set (n := round_half_even q) in *. clearbody n.
  assert (Hn : (inject_Z n < inject_Z (N + 1))%Q).
  { rewrite inject_Z_plus. change (inject_Z 1) with 1%Q.
    revert Hlo Hq. generalize (inject_Z n), (inject_Z N). intros x y Hlo Hq. lra. }
  rewrite <- Zlt_Qlt in Hn. lia.
Qed.

(** A number of hundredths up to 100 is a float up to [100]. *)
Lemma of_Q_below_hundred (n : positive) :
  Zpos n <= 10000 ->
  below false (Prim2SF (of_Q (Zpos n # 100))) 7036874417766400 (-46).
Proof.
  intro Hn. rewrite (of_Q_pos (Zpos n # 100) n eq_refl). cbn [Qden].
  change false with (xorb false false).
  assert (Hd : Zdigits2 (Zpos n) <= 14).
  { apply Zdigits2_lt_pow2; [lia | lia | change (2 ^ 14) with 16384; lia]. }
  apply SFdiv_below; [reflexivity | |].
  - change (Zdigits2 100) with 7. unfold fexp, SpecFloat.emin, prec, emax. lia.
  - change (Zdigits2 100) with 7.
    set (e' := Z.min _ _).
    assert (He' : e' <= -46) by (subst e'; unfold fexp, SpecFloat.emin, prec, emax; lia).
    replace (0 - 0 - e') with (- e') by lia.
    assert (H2 : 7036874417766400 * 2 ^ (-46 - e') = 100 * 2 ^ (- e')).
    { change 7036874417766400 with (100 * 2 ^ 46). rewrite <- Z.mul_assoc.
      rewrite <- pow2_add by lia. do 2 f_equal. lia. }
    rewrite H2.
    assert (0 < 2 ^ (- e')) by (apply Z.pow_pos_nonneg; lia). nia.
Qed.

(** Rounding to two decimals keeps a float at most [100] so. *)
Lemma b64_round_le_hundred (z : float) :
  SFle0 (Prim2SF z) = true \/ below false (Prim2SF z) 7036874417766400 (-46) ->
  SFleb (Prim2SF (b64_round z 2)) SF_hundred = true.
Proof.
  intros [Hz | Hz]; [now apply SFle0_leb, b64_round_le0 |].
  assert (Hzero : SFfin (Prim2SF z) = true ->
                  SFleb (Prim2SF (PrimFloat.mul z zero)) SF_hundred = true).
  { intro Hf. rewrite mul_spec. unfold SF64mul.
    replace (Prim2SF zero) with (S754_zero false) by (vm_compute; reflexivity).
    destruct (Prim2SF z) as [s | s | | s m e]; try discriminate; reflexivity. }
  pose proof (proj1 (below_shape _ _ _ _ Hz)) as Hfin.
  unfold b64_round. destruct (to_Q z) as [q |] eqn:Hq.
  2:{ unfold to_Q in Hq. destruct (Prim2SF z); discriminate. }
  assert (Hq100 : (0 <= q <= 100)%Q).
  { destruct Hz as [Hz | (m & e & Hz & He & Hm)].
    - unfold to_Q in Hq. rewrite Hz in Hq. injection Hq as <-. lra.
    - apply (to_Q_below_hundred z m e q Hz Hq He Hm). }
  destruct (Qround_2_num q (proj1 Hq100)) as [Hr0 _].
  assert (Hr : Qnum (Qround_ndigits q 2) <= 10000).
  { unfold Qround_ndigits. cbn [Qnum].
    change (inject_Z (Zpos (Nat.iter 2 (Pos.mul 10) 1%positive))) with (100 # 1)%Q.
    apply round_half_even_le. change (inject_Z 10000) with (10000 # 1)%Q. lra. }
  rewrite (Qround_2_form q).
  destruct (Qnum (Qround_ndigits q 2)) as [| n | n]; try lia; cbn [Qnum].
  - now apply Hzero.
  - apply below_leb. now apply of_Q_below_hundred.
Qed.

(** [100 - y] is at most [100] when [y] is not negative. *)
Lemma SFsub_hundred_below (y : spec_float) :
  SFge0 y = true ->
  SFle0 (SFsub prec emax SF_hundred y) = true \/
  below false (SFsub prec emax SF_hundred y) 7036874417766400 (-46).
Proof.
  destruct y as [s | [] | | [] m e]; try discriminate; intros _.
  - right. right. exists 7036874417766400%positive, (-46). repeat split; lia.
  - left. reflexivity.
  - rewrite SFsub_finite. cbv zeta. cbn [cond_Zopp].
    set (ez := Z.min (-46) e).
    set (D := _ - _).
    destruct (Z_le_gt_dec D 0) as [Hneg | Hpos].
    + left. now apply binary_normalize_neg.
    + right.
      assert (Hp : 0 < Zpos m * 2 ^ (e - ez))
        by (apply Z.mul_pos_pos; [lia | apply Z.pow_pos_nonneg; subst ez; lia]).
      pose proof (binary_normalize_below D ez false 7036874417766400 (-46) eq_refl
                    ltac:(subst ez; lia) ltac:(subst D; lia)) as Hbel.
      replace (if D =? 0 then false else D <? 0) with false in Hbel; [exact Hbel |].
      destruct (D =? 0); [reflexivity | symmetry; apply Z.ltb_ge; lia].
Qed.

(** X9. On a solar flux that is not negative, as the page requires
    it, [calculate_gei] is at most 100; it is 100 at flux 0. *)
Theorem calculate_gei_at_most_100 :
  (forall solar_flux : Q, (0 <= solar_flux)%Q -> (calculate_gei solar_flux <= 100)%Q) /\
  (forall solar_flux : float,
      PrimFloat.leb 0 solar_flux = true ->
      PrimFloat.leb (calculate_gei solar_flux) 100 = true) /\
  (calculate_gei 0 == 100)%Q /\
  calculate_gei 0%float = 100%float.
Proof.
  split; [| split; [| split]].
  - intros x Hx. unfold calculate_gei. cbn [lit sub div Q_PyFloat].
    rewrite round_2_unfold.
    assert (HN : round_half_even ((100 - x / 10) * 100) <= 10000).
    { apply round_half_even_le. change (inject_Z 10000) with (10000 # 1)%Q.
      setoid_replace (x / 10)%Q with (x * (1 # 10))%Q by field. lra. }
    unfold Qle. cbn [Qnum Qden]. lia.
  - intros x Hx. rewrite leb_0_spec in Hx.
    rewrite calculate_gei_b64, leb_spec.
    replace (Prim2SF 100) with SF_hundred by (vm_compute; reflexivity).
    apply b64_round_le_hundred.
    rewrite sub_spec, div_spec. unfold SF64sub, SF64div.
    replace (Prim2SF (lit 100)) with SF_hundred by (vm_compute; reflexivity).
    replace (Prim2SF (lit 10)) with (S754_finite false 5629499534213120 (-49))
      by (vm_compute; reflexivity).
    apply SFsub_hundred_below. now apply SFdiv_ge0.
  - vm_compute. reflexivity.
  - vm_compute. reflexivity.
Qed.

End GeiBound.

Lemma calculate_gei_at_most_100_witness :
  PrimFloat.leb (calculate_gei 1361%float) 100 = true /\
  (calculate_gei 1361 <= 100)%Q.
Proof.
  split.
  - apply (proj1 (proj2 calculate_gei_at_most_100)). vm_compute. reflexivity.
  - apply (proj1 calculate_gei_at_most_100). vm_compute. discriminate.
Defined.

(** ** Dictionaries: lookup after update *)

Section Dicts.

Context {F : Type}.

Lemma dict_get_set (d : dict F) (k k' : string) (v : value F) :
  dict_get (dict_set d k v) k' = if String.eqb k k' then Some v else dict_get d k'.
Proof.
  induction d as [| [k0 w] d IH]; cbn [dict_set dict_get].
  - reflexivity.
  - destruct (String.eqb_spec k0 k) as [-> | Hne]; cbn [dict_get].
    + destruct (String.eqb k k'); reflexivity.
    + rewrite IH. destruct (String.eqb_spec k0 k') as [-> | Hne'].
      * destruct (String.eqb_spec k k') as [-> | _]; [now elim Hne | reflexivity].
      * reflexivity.
Qed.

Lemma dict_get_None (d : dict F) (k : string) :
  dict_get d k = None <-> ~ In k (map fst d).
Proof.
  induction d as [| [k0 w] d IH]; cbn [dict_get map fst In].
  - tauto.
  - destruct (String.eqb_spec k0 k) as [-> | Hne].
    + split; [discriminate | intros Hn; elim Hn; now left].
    + rewrite IH. tauto.
Qed.

(** [{**d, **other}]: a key of [other] takes its value from [other],
    every other key keeps the value it has in [d]. *)
Lemma dict_get_update (other : dict F) :
  NoDup (map fst other) ->
  forall (d : dict F) (k : string),
    dict_get (dict_update d other) k =
    match dict_get other k with
    | Some v => Some v
    | None => dict_get d k
    end.
Proof.
  unfold dict_update.
  induction other as [| [k0 v0] other IH]; intros Hnd d k; cbn [fold_left fst snd dict_get].
  - reflexivity.
  - cbn [map fst] in Hnd. inversion Hnd as [| ? ? Hnotin Hnd']; subst.
    rewrite (IH Hnd'), dict_get_set.
    destruct (String.eqb_spec k0 k) as [-> | Hne]; [| reflexivity].
    apply dict_get_None in Hnotin. now rewrite Hnotin.
Qed.

End Dicts.

(** ** [generate_results] on any dictionary *)

Section CustomRow.

Context {F : Type} `{PyFloat F}.
Local Open Scope string_scope.

Lemma score_env_run (d : dict F) (f e v : F) :
  dict_get d "Frequency" = Some (Num f) ->
  dict_get d "EMF" = Some (Num e) ->
  dict_get d "Env Factor" = Some (Num v) ->
  score_env d =
  match calculate_BVI (calculate_MCI f e) with
  | Ok bvi =>
      (Ok tt, dict_set (dict_set (dict_set d "MCI" (Num (calculate_MCI f e)))
                                 "BVI" (Num bvi))
                       "HS" (Num (calculate_HS (calculate_MCI f e) bvi v)))
  | Raise x => (Raise x, dict_set d "MCI" (Num (calculate_MCI f e)))
  end.
Proof.
  intros Hf He Hv.
  unfold score_env, bind, getitem, setitem, lift.
  rewrite Hf. cbn [as_num]. rewrite He. cbn [as_num].
  rewrite !dict_get_set. cbn [String.eqb Ascii.eqb Bool.eqb as_num].
  destruct (calculate_BVI (calculate_MCI f e)) as [bvi | x]; [| reflexivity].
  repeat (rewrite !dict_get_set; cbn [String.eqb Ascii.eqb Bool.eqb as_num]).
  rewrite Hv. reflexivity.
Qed.

Lemma score_env_no_frequency (d : dict F) :
  dict_get d "Frequency" = None -> score_env d = (Raise (KeyError "Frequency"), d).
Proof. intro Hf. unfold score_env, bind, getitem. now rewrite Hf. Qed.

Lemma score_env_no_emf (d : dict F) (f : F) :
  dict_get d "Frequency" = Some (Num f) -> dict_get d "EMF" = None ->
  score_env d = (Raise (KeyError "EMF"), d).
Proof.
  intros Hf He. unfold score_env, bind, getitem, lift.
  rewrite Hf. cbn [as_num]. now rewrite He.
Qed.

Lemma score_env_no_env_factor (d : dict F) (f e bvi : F) :
  dict_get d "Frequency" = Some (Num f) -> dict_get d "EMF" = Some (Num e) ->
  calculate_BVI (calculate_MCI f e) = Ok bvi ->
  dict_get d "Env Factor" = None ->
  fst (score_env d) = Raise (KeyError "Env Factor").
Proof.
  intros Hf He Hb Hv. unfold score_env, bind, getitem, setitem, lift.
  rewrite Hf. cbn [as_num]. rewrite He. cbn [as_num].
  rewrite !dict_get_set. cbn [String.eqb Ascii.eqb Bool.eqb as_num].
  rewrite Hb.
  repeat (rewrite !dict_get_set; cbn [String.eqb Ascii.eqb Bool.eqb as_num]).
  now rewrite Hv.
Qed.

Lemma score_env_str_frequency (d : dict F) (s : string) :
  dict_get d "Frequency" = Some (Str s) -> fst (score_env d) = Raise TypeError.
Proof.
  intros Hf. unfold score_env, bind, getitem, lift. now rewrite Hf.
Qed.

Lemma score_env_str_emf (d : dict F) (f : F) (s : string) :
  dict_get d "Frequency" = Some (Num f) -> dict_get d "EMF" = Some (Str s) ->
  fst (score_env d) = Raise TypeError.
Proof.
  intros Hf He. unfold score_env, bind, getitem, lift.
  rewrite Hf. cbn [as_num]. now rewrite He.
Qed.

Lemma score_env_str_env_factor (d : dict F) (f e bvi : F) (s : string) :
  dict_get d "Frequency" = Some (Num f) -> dict_get d "EMF" = Some (Num e) ->
  calculate_BVI (calculate_MCI f e) = Ok bvi ->
  dict_get d "Env Factor" = Some (Str s) ->
  fst (score_env d) = Raise TypeError.
Proof.
  intros Hf He Hb Hv. unfold score_env, bind, getitem, setitem, lift.
  rewrite Hf. cbn [as_num]. rewrite He. cbn [as_num].
  rewrite !dict_get_set. cbn [String.eqb Ascii.eqb Bool.eqb as_num].
  rewrite Hb.
  repeat (rewrite !dict_get_set; cbn [String.eqb Ascii.eqb Bool.eqb as_num]).
  now rewrite Hv.
Qed.

End CustomRow.

Section CustomInput.

Context {F : Type} `{ClampedSquares F}.
Local Open Scope string_scope.
Local Open Scope list_scope.

(** The fifth dictionary of the list display. *)
Local Abbreviation fifth custom :=
  (dict_update (dict_display [("Environment", Str "Custom Input")]) custom).

Lemma calculate_BVI_returns (f e : F) :
  exists bvi : F, calculate_BVI (calculate_MCI f e) = Ok bvi.
Proof.
  destruct (scored_row "" f e f) as (row & bvi & Hb & _). now exists bvi.
Qed.

(** The four presets are scored whatever [custom_input] holds; the call
    ends as the loop body ends on the fifth dictionary. *)
Lemma generate_results_fifth (h : heap F) (custom_input : loc) (custom : dict F) :
  nth_error h custom_input = Some custom ->
  exists r1 r2 r3 r4 : dict F,
    is_scored "Earth" (lit 7.83) (lit 0.2) (lit 0.9) r1 /\
    is_scored "Mars" (lit 2.1) (lit 0.05) (lit 0.3) r2 /\
    is_scored "EMRP Bubble" (lit 7.8) (lit 0.01) (lit 1.0) r3 /\
    is_scored "Urban Earth" (lit 6.9) (lit 0.6) (lit 0.7) r4 /\
    generate_results custom_input h =
    match score_env (fifth custom) with
    | (Ok _, r5) => (Ok [r1; r2; r3; r4; r5], h ++ [r1; r2; r3; r4; r5])
    | (Raise e, r5) => (Raise e, h ++ [r1; r2; r3; r4; r5])
    end.
Proof.
  intro Hc.
  destruct (scored_row "Earth" (lit 7.83) (lit 0.2) (lit 0.9)) as [r1 Hr1].
  destruct (scored_row "Mars" (lit 2.1) (lit 0.05) (lit 0.3)) as [r2 Hr2].
  destruct (scored_row "EMRP Bubble" (lit 7.8) (lit 0.01) (lit 1.0)) as [r3 Hr3].
  destruct (scored_row "Urban Earth" (lit 6.9) (lit 0.6) (lit 0.7)) as [r4 Hr4].
  exists r1, r2, r3, r4. repeat (split; [assumption |]).
  destruct Hr1 as (b1 & Hb1 & ->), Hr2 as (b2 & Hb2 & ->), Hr3 as (b3 & Hb3 & ->),
           Hr4 as (b4 & Hb4 & ->).
  rewrite (generate_results_run h custom_input _ Hc).
  unfold initial_rows. rewrite score_rows_unfold, !score_env_preset.
  rewrite Hb1, Hb2, Hb3, Hb4.
  destruct (score_env (fifth custom)) as [[[] | e] r5]; reflexivity.
Qed.

Lemma fifth_get (custom : dict F) (k : string) :
  NoDup (map fst custom) ->
  dict_get (fifth custom) k =
  match dict_get custom k with
  | Some v => Some v
  | None => if String.eqb "Environment" k then Some (Str "Custom Input") else None
  end.
Proof. intro Hnd. now rewrite (dict_get_update custom Hnd). Qed.

Lemma fifth_get_None (custom : dict F) (k : string) :
  dict_get custom k = None -> k <> "Environment" -> dict_get (fifth custom) k = None.
Proof.
  intros Hk Hne. unfold dict_update.
  assert (Hgen : forall d : dict F, dict_get d k = None ->
            dict_get (fold_left (fun acc kv => dict_set acc (fst kv) (snd kv)) custom d) k
            = None).
  { induction custom as [| [k0 v0] custom IH]; intros d Hd; cbn [fold_left fst snd].
    - exact Hd.
    - cbn [dict_get] in Hk. destruct (String.eqb_spec k0 k) as [-> | Hne0];
        [discriminate |].
      apply (IH Hk). rewrite dict_get_set.
      destruct (String.eqb_spec k0 k) as [-> | _]; [now elim Hne0 | exact Hd]. }
  apply Hgen. cbn [dict_display dict_update fold_left fst snd dict_set dict_get].
  destruct (String.eqb_spec "Environment" k) as [<- | _];
    [now elim Hne | reflexivity].
Qed.

End CustomInput.

Section CustomInputTheorems.

Context {F : Type} `{ClampedSquares F}.
Local Open Scope string_scope.
Local Open Scope list_scope.

Local Abbreviation fifth custom :=
  (dict_update (dict_display [("Environment", Str "Custom Input")]) custom).

(** X10. [generate_results] on a dictionary that lacks one of the keys
    the loop reads raises [KeyError] for the first one missing, in the
    order [Frequency], [EMF], [Env Factor]; the four presets have been
    scored by then, and the objects of the caller are as they were. *)
Theorem generate_results_missing_key
      (h : heap F) (custom_input : loc) (custom : dict F) :
  nth_error h custom_input = Some custom ->
  (dict_get custom "Frequency" = None ->
   fst (generate_results custom_input h) = Raise (KeyError "Frequency")) /\
  (forall f : F,
      NoDup (map fst custom) ->
      dict_get custom "Frequency" = Some (Num f) ->
      dict_get custom "EMF" = None ->
      fst (generate_results custom_input h) = Raise (KeyError "EMF")) /\
  (forall f e : F,
      NoDup (map fst custom) ->
      dict_get custom "Frequency" = Some (Num f) ->
      dict_get custom "EMF" = Some (Num e) ->
      dict_get custom "Env Factor" = None ->
      fst (generate_results custom_input h) = Raise (KeyError "Env Factor")) /\
  firstn (List.length h) (snd (generate_results custom_input h)) = h.
Proof.
  intro Hc.
  destruct (generate_results_fifth h custom_input custom Hc)
    as (r1 & r2 & r3 & r4 & _ & _ & _ & _ & Hrun).
  assert (Hend : forall x : exn,
             fst (score_env (fifth custom)) = Raise x ->
             fst (generate_results custom_input h) = Raise x).
  { intros x Hx. rewrite Hrun.
    destruct (score_env (fifth custom)) as [[[] | y] r5]; cbn [fst] in *;
      [discriminate | now injection Hx as ->]. }
  split; [| split; [| split]].
  - intro Hf. apply Hend. rewrite score_env_no_frequency; [reflexivity |].
    apply fifth_get_None; [exact Hf | discriminate].
  - intros f Hnd Hf He. apply Hend.
    rewrite (score_env_no_emf _ f); [reflexivity | |].
    + now rewrite (fifth_get _ _ Hnd), Hf.
    + apply fifth_get_None; [exact He | discriminate].
  - intros f e Hnd Hf He Hv.
    destruct (calculate_BVI_returns f e) as [bvi Hb].
    apply Hend, (score_env_no_env_factor _ f e bvi).
    + now rewrite (fifth_get _ _ Hnd), Hf.
    + now rewrite (fifth_get _ _ Hnd), He.
    + exact Hb.
    + apply fifth_get_None; [exact Hv | discriminate].
  - apply (generate_results_frame h custom_input custom Hc).
Qed.

(** X11. A value that is no number under a key the formulas read makes
    [generate_results] raise [TypeError]: a string under [Frequency] when
    [EMF] is there, under [EMF], or under [Env Factor]. *)
Theorem generate_results_not_a_number
      (h : heap F) (custom_input : loc) (custom : dict F) :
  nth_error h custom_input = Some custom ->
  NoDup (map fst custom) ->
  (forall (s : string) (x : value F),
      dict_get custom "Frequency" = Some (Str s) ->
      dict_get custom "EMF" = Some x ->
      fst (generate_results custom_input h) = Raise TypeError) /\
  (forall (f : F) (s : string),
      dict_get custom "Frequency" = Some (Num f) ->
      dict_get custom "EMF" = Some (Str s) ->
      fst (generate_results custom_input h) = Raise TypeError) /\
  (forall (f e : F) (s : string),
      dict_get custom "Frequency" = Some (Num f) ->
      dict_get custom "EMF" = Some (Num e) ->
      dict_get custom "Env Factor" = Some (Str s) ->
      fst (generate_results custom_input h) = Raise TypeError).
Proof.
  intros Hc Hnd.
  destruct (generate_results_fifth h custom_input custom Hc)
    as (r1 & r2 & r3 & r4 & _ & _ & _ & _ & Hrun).
  assert (Hend : forall x : exn,
             fst (score_env (fifth custom)) = Raise x ->
             fst (generate_results custom_input h) = Raise x).
  { intros x Hx. rewrite Hrun.
    destruct (score_env (fifth custom)) as [[[] | y] r5]; cbn [fst] in *;
      [discriminate | now injection Hx as ->]. }
  split; [| split].
  - intros s x Hf _. apply Hend, (score_env_str_frequency _ s).
    now rewrite (fifth_get _ _ Hnd), Hf.
  - intros f s Hf He. apply Hend, (score_env_str_emf _ f s).
    + now rewrite (fifth_get _ _ Hnd), Hf.
    + now rewrite (fifth_get _ _ Hnd), He.
  - intros f e s Hf He Hv.
    destruct (calculate_BVI_returns f e) as [bvi Hb].
    apply Hend, (score_env_str_env_factor _ f e bvi s).
    + now rewrite (fifth_get _ _ Hnd), Hf.
    + now rewrite (fifth_get _ _ Hnd), He.
    + exact Hb.
    + now rewrite (fifth_get _ _ Hnd), Hv.
Qed.

(** X12. [generate_results] on any dictionary that holds numbers under
    [Frequency], [EMF] and [Env Factor]: the table has five rows, and the
    fifth holds the three indices of these numbers, computed afresh
    whatever the dictionary held under [MCI], [BVI] and [HS]; it is named
    by the [Environment] of the dictionary when it has one and
    [Custom Input] otherwise, and it carries every other key of the
    dictionary with its value. *)
Theorem generate_results_custom_input
      (h : heap F) (custom_input : loc) (custom : dict F) (f e v : F) :
  nth_error h custom_input = Some custom ->
  NoDup (map fst custom) ->
  dict_get custom "Frequency" = Some (Num f) ->
  dict_get custom "EMF" = Some (Num e) ->
  dict_get custom "Env Factor" = Some (Num v) ->
  exists (r1 r2 r3 r4 r5 : dict F) (bvi : F),
    fst (generate_results custom_input h) = Ok [r1; r2; r3; r4; r5] /\
    calculate_BVI (calculate_MCI f e) = Ok bvi /\
    dict_get r5 "MCI" = Some (Num (calculate_MCI f e)) /\
    dict_get r5 "BVI" = Some (Num bvi) /\
    dict_get r5 "HS" = Some (Num (calculate_HS (calculate_MCI f e) bvi v)) /\
    dict_get r5 "Environment" =
      Some (match dict_get custom "Environment" with
            | Some name => name
            | None => Str "Custom Input"
            end) /\
    (forall k : string,
        k <> "MCI" -> k <> "BVI" -> k <> "HS" -> k <> "Environment" ->
        dict_get r5 k = dict_get custom k).
Proof.
  intros Hc Hnd Hf He Hv.
  destruct (generate_results_fifth h custom_input custom Hc)
    as (r1 & r2 & r3 & r4 & _ & _ & _ & _ & Hrun).
  destruct (calculate_BVI_returns f e) as [bvi Hb].
  rewrite (score_env_run (fifth custom) f e v) in Hrun;
    [| now rewrite (fifth_get _ _ Hnd), ?Hf, ?He, ?Hv ..].
  rewrite Hb in Hrun.
  eexists r1, r2, r3, r4, _, bvi.
  split; [rewrite Hrun; reflexivity |].
  split; [exact Hb |].
  repeat split.
  - now rewrite !dict_get_set.
  - now rewrite !dict_get_set.
  - now rewrite !dict_get_set.
  - rewrite !dict_get_set. cbn [String.eqb Ascii.eqb Bool.eqb].
    rewrite (fifth_get _ _ Hnd).
    now destruct (dict_get custom "Environment").
  - intros k Hk1 Hk2 Hk3 Hk4. rewrite !dict_get_set.
    destruct (String.eqb_spec "HS" k) as [<- | _]; [now elim Hk3 |].
    destruct (String.eqb_spec "BVI" k) as [<- | _]; [now elim Hk2 |].
    destruct (String.eqb_spec "MCI" k) as [<- | _]; [now elim Hk1 |].
    rewrite (fifth_get _ _ Hnd).
    destruct (String.eqb_spec "Environment" k) as [<- | _]; [now elim Hk4 |].
    now destruct (dict_get custom k).
Qed.

(** X13. The Home tab, whatever the three sliders show and whatever the
    store holds: the table has exactly one row named [Custom Input], the
    lookup of line 59 finds it, and it holds the three indices of the
    slider values. *)
Theorem home_custom_row (freq emf env_factor : F) (h : heap F) :
  exists custom : dict F,
    is_scored "Custom Input" freq emf env_factor custom /\
    fst (home freq emf env_factor h) = Ok (Some custom).
Proof.
  destruct (calculate_BVI_returns freq emf) as [bvi Hb].
  exists (scored "Custom Input" freq emf env_factor bvi).
  split; [now exists bvi |].
  unfold home, bind, new_dict.
  destruct (generate_results_fifth (h ++ [slider_input freq emf env_factor])
              (List.length h) (slider_input freq emf env_factor))
    as (r1 & r2 & r3 & r4 & Hr1 & Hr2 & Hr3 & Hr4 & Hrun).
  { rewrite <- (Nat.add_0_r (List.length h)). now rewrite nth_error_shift. }
  rewrite Hrun, custom_row, score_env_preset, Hb.
  destruct Hr1 as (b1 & _ & ->), Hr2 as (b2 & _ & ->), Hr3 as (b3 & _ & ->),
           Hr4 as (b4 & _ & ->).
  reflexivity.
Qed.

End CustomInputTheorems.

Lemma generate_results_missing_key_witness :
  fst (generate_results 0%nat
         [dict_display [("EMF", Num (lit 0.2 : float)); ("Env Factor", Num (lit 0.9))]%string])
  = Raise (KeyError "Frequency").
Proof.
  apply (proj1 (generate_results_missing_key
                  [dict_display [("EMF", Num (lit 0.2 : float));
                                 ("Env Factor", Num (lit 0.9))]%string]
                  0%nat _ eq_refl)).
  reflexivity.
Defined.

Lemma generate_results_not_a_number_witness :
  fst (generate_results 0%nat
         [dict_display [("Frequency", Str "7.83"); ("EMF", Num (lit 0.2 : float));
                        ("Env Factor", Num (lit 0.9))]%string])
  = Raise TypeError.
Proof.
  assert (Hnd : NoDup (map fst
            (dict_display [("Frequency", Str "7.83"); ("EMF", Num (lit 0.2 : float));
                           ("Env Factor", Num (lit 0.9))]%string)))
    by (cbn; repeat constructor; cbn; intuition discriminate).
  apply (proj1 (generate_results_not_a_number
                  [dict_display [("Frequency", Str "7.83"); ("EMF", Num (lit 0.2 : float));
                                 ("Env Factor", Num (lit 0.9))]%string]
                  0%nat _ eq_refl Hnd)
               "7.83"%string (Num (lit 0.2))); reflexivity.
Defined.

Lemma generate_results_custom_input_witness :
  exists (r1 r2 r3 r4 r5 : dict Q) (mci : Q),
    fst (generate_results 0%nat
           [dict_display [("Environment", Str "Io"); ("MCI", Str "stale");
                          ("Env Factor", Num 0.9%Q); ("EMF", Num 0.2%Q);
                          ("Frequency", Num 7.83%Q)]%string])
    = Ok [r1; r2; r3; r4; r5] /\
    dict_get r5 "Environment" = Some (Str "Io") /\
    dict_get r5 "MCI" = Some (Num mci) /\ (mci == 0.8)%Q.
Proof.
  assert (Hnd : NoDup (map fst
            (dict_display [("Environment", Str "Io"); ("MCI", Str "stale");
                           ("Env Factor", Num 0.9%Q); ("EMF", Num 0.2%Q);
                           ("Frequency", Num 7.83%Q)]%string)))
    by (cbn; repeat constructor; cbn; intuition discriminate).
  destruct (generate_results_custom_input
              [dict_display [("Environment", Str "Io"); ("MCI", Str "stale");
                             ("Env Factor", Num 0.9%Q); ("EMF", Num 0.2%Q);
                             ("Frequency", Num 7.83%Q)]%string]
              0%nat _ 7.83%Q 0.2%Q 0.9%Q eq_refl Hnd eq_refl eq_refl eq_refl)
    as (r1 & r2 & r3 & r4 & r5 & bvi & Hrun & _ & Hmci & _ & _ & Henv & _).
  exists r1, r2, r3, r4, r5, (calculate_MCI 7.83%Q 0.2%Q).
  split; [exact Hrun |]. split; [exact Henv |]. split; [exact Hmci |].
  vm_compute. reflexivity.
Defined.

Lemma home_custom_row_witness :
  exists custom : dict float,
    is_scored "Custom Input" (lit 7.83) (lit 0.2) (lit 0.9) custom /\
    fst (home (lit 7.83 : float) (lit 0.2) (lit 0.9) []) = Ok (Some custom).
Proof.
  exact (home_custom_row (lit 7.83 : float) (lit 0.2) (lit 0.9) []).
Defined.

(** ** The session and the report of [app.py] *)

Section SessionTable.

Context {F : Type} `{PyFloat F}.
Local Open Scope string_scope.
Local Open Scope list_scope.

(** X14. Every row of the table of the session is consistent with
    itself: its [MCR] and [GEI] are the formulas of its own magnetic
    field and solar flux, and its [BVI] is the formula of that rounded
    [MCR] and its own pressure. *)
Theorem session_rows_consistent (ws : list (widgets F)) (row : dict F) :
  In row (accumulated (session ws)) ->
  exists (name : string) (field pressure flux : F),
    row = dict_display
            [("Planet", Str name);
             ("Magnetic Field Strength (µT)", Num field);
             ("Atmospheric Pressure (Pa)", Num pressure);
             ("Solar Flux (W/m²)", Num flux);
             ("MCR", Num (calculate_mcr field));
             ("BVI", Num (calculate_bvi (calculate_mcr field) pressure));
             ("GEI", Num (calculate_gei flux))] /\
    dict_get row "MCR" = Some (Num (calculate_mcr field)) /\
    dict_get row "BVI" = Some (Num (calculate_bvi (calculate_mcr field) pressure)) /\
    dict_get row "GEI" = Some (Num (calculate_gei flux)) /\
    dict_get row "Magnetic Field Strength (µT)" = Some (Num field) /\
    dict_get row "Atmospheric Pressure (Pa)" = Some (Num pressure) /\
    dict_get row "Solar Flux (W/m²)" = Some (Num flux).
Proof.
  unfold session. rewrite (accumulated_runs ws new_session). cbn [accumulated new_session simulation_results app].
  intro Hin. apply in_map_iff in Hin. destruct Hin as (w & <- & _).
  exists (planet w), (magnetic_field w), (atmospheric_pressure w), (solar_flux w).
  repeat split.
Qed.

(** X15. The table of the session is shown from the first run in which
    "Run Simulation" was pressed, and in every run after it: no run
    empties the list. *)
Theorem session_table_shown (ws ws' : list (widgets F)) :
  shows_results (session ws) = existsb run_simulation ws /\
  (shows_results (session ws) = true -> shows_results (session (ws ++ ws')) = true).
Proof.
  assert (Hshow : forall vs : list (widgets F),
             shows_results (session vs) = existsb run_simulation vs).
  { intro vs. unfold shows_results, session.
    rewrite (accumulated_runs vs new_session).
    cbn [accumulated new_session simulation_results app].
    induction vs as [| w vs IH]; [reflexivity |].
    cbn [filter existsb]. destruct (run_simulation w); [reflexivity | exact IH]. }
  split; [apply Hshow |].
  rewrite !Hshow, existsb_app. now intros ->.
Qed.

End SessionTable.

Lemma session_rows_consistent_witness :
  let earth : widgets float :=
    {| planet := "Earth"; magnetic_field := lit 50.0;
       atmospheric_pressure := lit 101325; solar_flux := lit 1361;
       run_simulation := true |} in
  exists field pressure : float,
    dict_get (simulation_record earth) "Magnetic Field Strength (µT)" = Some (Num field) /\
    dict_get (simulation_record earth) "Atmospheric Pressure (Pa)" = Some (Num pressure) /\
    dict_get (simulation_record earth) "BVI"
    = Some (Num (calculate_bvi (calculate_mcr field) pressure)).
Proof.
  intro earth.
  destruct (session_rows_consistent [earth] (simulation_record earth))
    as (name & field & pressure & flux & _ & _ & Hbvi & _ & Hfield & Hpressure & _).
  - left. reflexivity.
  - exists field, pressure. repeat split; assumption.
Defined.

Lemma session_table_shown_witness :
  let earth : widgets float :=
    {| planet := "Earth"; magnetic_field := lit 50.0;
       atmospheric_pressure := lit 101325; solar_flux := lit 1361;
       run_simulation := true |} in
  let idle : widgets float :=
    {| planet := "Mars"; magnetic_field := lit 5.0;
       atmospheric_pressure := lit 610; solar_flux := lit 590;
       run_simulation := false |} in
  shows_results (session ([idle; earth] ++ [idle; idle])) = true.
Proof.
  intros earth idle.
  apply (proj2 (session_table_shown [idle; earth] [idle; idle])).
  reflexivity.
Defined.

Section ReportTheorems.

Context {F : Type} `{PyFloat F}.
Variable format : F -> string.
Local Open Scope string_scope.
Local Open Scope list_scope.

(** X16. The report of a run and the row the run appends to the table
    of the session agree: [generate_pdf] finds its three keys in the
    dictionary the script passes, writes ten lines, and every field of
    the row stands on a line of its own under the label that is its key
    in the row. *)
Theorem report_matches_row (w : widgets F) :
  exists lines : list string,
    report format w = Ok lines /\
    List.length lines = 10%nat /\
    forall (k : string) (v : value F),
      dict_get (simulation_record w) k = Some v ->
      In (k ++ ": " ++ py_format format v)%string lines.
Proof.
  exists ["Planet Magnetic Rhythm Simulation Report";
          "-----------------------------------------";
          "Planet: " ++ planet w;
          "Magnetic Field Strength (µT): " ++ format (magnetic_field w);
          "Atmospheric Pressure (Pa): " ++ format (atmospheric_pressure w);
          "Solar Flux (W/m²): " ++ format (solar_flux w);
          "";
          "MCR: " ++ format (calculate_mcr (magnetic_field w));
          "BVI: " ++ format (calculate_bvi (calculate_mcr (magnetic_field w))
                                           (atmospheric_pressure w));
          "GEI: " ++ format (calculate_gei (solar_flux w))]%string.
  split; [reflexivity |]. split; [reflexivity |].
  intros k v.
  assert (Hrow : simulation_record w =
            [("Planet", Str (planet w));
             ("Magnetic Field Strength (µT)", Num (magnetic_field w));
             ("Atmospheric Pressure (Pa)", Num (atmospheric_pressure w));
             ("Solar Flux (W/m²)", Num (solar_flux w));
             ("MCR", Num (calculate_mcr (magnetic_field w)));
             ("BVI", Num (calculate_bvi (calculate_mcr (magnetic_field w))
                                        (atmospheric_pressure w)));
             ("GEI", Num (calculate_gei (solar_flux w)))]) by reflexivity.
  rewrite Hrow. cbn [dict_get].
  repeat match goal with
  | |- context [String.eqb ?a k] =>
      destruct (String.eqb_spec a k) as [<- | _];
        [intro Hv; injection Hv as <-; cbn [py_format In]; tauto |]
  end.
  discriminate.
Qed.

End ReportTheorems.
